(** * Progress tracking of the developer-labs site

    A shallow embedding of the two classes that hold state in the site's
    client code:

    - [StorageManager] (utils/storage.js): the namespaced wrapper around
      the browser's [localStorage];
    - [ProgressTracker] (components/ProgressTracker.js): the record of
      completed steps, its summary and its export / import.

    Beside them stand the two things that use them: the page the tracker
    renders to, with [updateStepUI], [updateProgressBar] and [updateUI]
    (module [Page]), and the theme toggle (components/ThemeToggle.js,
    module [ThemeToggle]), the other client of [StorageManager].

    JavaScript values, plain objects with their property order and their
    prototype, and binary64 numbers are modelled as far as the two classes
    observe them.  The JSON codec of the platform is a parameter. *)

From Stdlib Require Import ZArith List String Ascii Bool Lia SpecFloat DecimalString.
From stdpp Require Import gmap strings.
Import ListNotations.

Set Warnings "-register-all".

Local Open Scope string_scope.
Local Open Scope Z_scope.
Local Open Scope list_scope.

(** ** JavaScript numbers: IEEE 754 binary64 *)

Module Number.

Definition prec : Z := 53.
Definition emax : Z := 1024.

Definition of_Z (z : Z) : spec_float := binary_normalize prec emax z 0 false.
Definition of_nat (n : nat) : spec_float := of_Z (Z.of_nat n).

Definition div : spec_float -> spec_float -> spec_float := SFdiv prec emax.
Definition mul : spec_float -> spec_float -> spec_float := SFmul prec emax.

(** [Math.round]: the integer nearest to the argument, ties towards
    +infinity.  A finite double with a non-negative exponent is an
    integer already; otherwise the value is m * 2^e with e < 0 and the
    result is floor (m * 2^e + 1/2).  The sign of the argument is kept on
    a zero result (Math.round(-0.2) is -0). *)
Definition round_half_up (s : bool) (m : positive) (e : Z) : Z :=
  let sm := if s then Z.neg m else Z.pos m in
  (2 * sm + 2 ^ (- e)) / 2 ^ (- e + 1).

Definition round (x : spec_float) : spec_float :=
  match x with
  | S754_finite s m e =>
      if 0 <=? e then x
      else binary_normalize prec emax (round_half_up s m e) 0 s
  | _ => x
  end.

(** Structural equality of doubles, for checking by computation. *)
Definition same (x y : spec_float) : bool :=
  match x, y with
  | S754_zero s, S754_zero s' => Bool.eqb s s'
  | S754_infinity s, S754_infinity s' => Bool.eqb s s'
  | S754_nan, S754_nan => true
  | S754_finite s m e, S754_finite s' m' e' =>
      Bool.eqb s s' && Pos.eqb m m' && Z.eqb e e'
  | _, _ => false
  end.

End Number.

(** ** JavaScript values *)

Inductive jsval : Type :=
| VUndefined
| VNull
| VBool (b : bool)
| VNum (x : spec_float)
| VStr (s : string)
| VFun (name : string)
| VArr (elems : list jsval)
| VObj (props : list (string * jsval)).

(** A plain object: its own enumerable properties in property order. *)
Definition jsobj : Type := list (string * jsval).

(** [Boolean(v)], also the test of [!v] and of [filter(Boolean)]. *)
Definition truthy (v : jsval) : bool :=
  match v with
  | VUndefined | VNull => false
  | VBool b => b
  | VNum (S754_zero _) | VNum S754_nan => false
  | VNum _ => true
  | VStr EmptyString => false
  | VStr _ => true
  | VFun _ | VArr _ | VObj _ => true
  end.

Definition typeof (v : jsval) : string :=
  match v with
  | VUndefined => "undefined"
  | VNull => "object"
  | VBool _ => "boolean"
  | VNum _ => "number"
  | VStr _ => "string"
  | VFun _ => "function"
  | VArr _ | VObj _ => "object"
  end.

(** ** Property keys and property order *)

(** An array index is the canonical decimal spelling of an integer below
    2^32 - 1.  Such keys come first in an object, in ascending order; all
    other keys follow in the order of their creation. *)
Definition array_index (k : string) : option N :=
  match NilEmpty.uint_of_string k with
  | Some u =>
      let n := N.of_uint u in
      if String.eqb (NilEmpty.string_of_uint (N.to_uint n)) k && (n <? 4294967295)%N
      then Some n else None
  | None => None
  end.

Definition index_key (i : nat) : string :=
  NilEmpty.string_of_uint (Nat.to_uint i).

Definition key_before (k1 k2 : string) : bool :=
  match array_index k1, array_index k2 with
  | Some a, Some b => (a <? b)%N
  | Some _, None => true
  | None, Some _ => false
  | None, None => true
  end.

Fixpoint own_get (k : string) (o : jsobj) : option jsval :=
  match o with
  | [] => None
  | (k', v) :: o' => if String.eqb k k' then Some v else own_get k o'
  end.

Fixpoint own_replace (k : string) (v : jsval) (o : jsobj) : jsobj :=
  match o with
  | [] => []
  | (k', v') :: o' =>
      if String.eqb k k' then (k', v) :: o' else (k', v') :: own_replace k v o'
  end.

Fixpoint insert_index (n : N) (k : string) (v : jsval) (o : jsobj) : jsobj :=
  match o with
  | [] => [(k, v)]
  | (k', v') :: o' =>
      match array_index k' with
      | Some n' =>
          if (n' <? n)%N then (k', v') :: insert_index n k v o'
          else (k, v) :: o
      | None => (k, v) :: o
      end
  end.

(** CreateDataProperty on a plain object. *)
Definition define_own (k : string) (v : jsval) (o : jsobj) : jsobj :=
  match own_get k o with
  | Some _ => own_replace k v o
  | None =>
      match array_index k with
      | Some n => insert_index n k v o
      | None => o ++ [(k, v)]
      end
  end.

(** [delete o[k]] *)
Definition own_delete (k : string) (o : jsobj) : jsobj :=
  List.filter (fun kv => negb (String.eqb k (fst kv))) o.

Definition Object_keys (o : jsobj) : list string := List.map fst o.
Definition Object_values (o : jsobj) : list jsval := List.map snd o.

(** The representation invariant of a plain object: no key twice, array
    indices first and ascending. *)
Fixpoint ordered_keys (ks : list string) : bool :=
  match ks with
  | [] => true
  | k :: ks' =>
      negb (existsb (String.eqb k) ks') && forallb (key_before k) ks' && ordered_keys ks'
  end.

Definition js_wf (o : jsobj) : bool := ordered_keys (Object_keys o).

(** ** The prototype of plain objects *)

Definition object_prototype_methods : list string :=
  [ "constructor"; "hasOwnProperty"; "isPrototypeOf"; "propertyIsEnumerable";
    "toLocaleString"; "toString"; "valueOf";
    "__defineGetter__"; "__defineSetter__"; "__lookupGetter__"; "__lookupSetter__" ].

(** What [Object.prototype] answers for a key the object does not own.  The
    accessor [__proto__] returns the prototype itself, an object none of
    whose properties is enumerable. *)
Definition prototype_get (k : string) : jsval :=
  if String.eqb k "__proto__" then VObj []
  else if existsb (String.eqb k) object_prototype_methods then VFun k
  else VUndefined.

(** [o[k]] *)
Definition js_get (o : jsobj) (k : string) : jsval :=
  match own_get k o with
  | Some v => v
  | None => prototype_get k
  end.

(** [o[k] = v] for a primitive [v] (the tracker only ever assigns [true]).
    The only setter on the prototype chain is [__proto__]; it ignores a
    value that is neither an object nor null, and no property is created. *)
Definition js_set (o : jsobj) (k : string) (v : jsval) : jsobj :=
  match own_get k o with
  | Some _ => own_replace k v o
  | None => if String.eqb k "__proto__" then o else define_own k v o
  end.

(** [v.k] for the values [importProgress] reads a member of.  An array has
    its indices and [length] only. *)
Definition js_member (v : jsval) (k : string) : jsval :=
  match v with
  | VObj p => js_get p k
  | _ => VUndefined
  end.

Fixpoint string_chars (s : string) : list jsval :=
  match s with
  | EmptyString => []
  | String c s' => VStr (String c EmptyString) :: string_chars s'
  end.

Definition indexed (l : list jsval) : jsobj :=
  combine (List.map index_key (seq 0 (length l))) l.

(** The own enumerable properties that [{...v}] copies. *)
Definition own_enumerable (v : jsval) : jsobj :=
  match v with
  | VObj p => p
  | VArr l => indexed l
  | VStr s => indexed (string_chars s)
  | _ => []
  end.

(** [{ ...v }] *)
Definition spread (v : jsval) : jsobj :=
  fold_left (fun acc kv => define_own (fst kv) (snd kv) acc) (own_enumerable v) [].

(** ** The browser's [localStorage] *)

(** The outcome of a call that may throw. *)
Inductive completion (A : Type) : Type :=
| Normal (a : A)
| Throw.
Arguments Normal {A} a.
Arguments Throw {A}.

(** [ls_enabled] is false when the page may not use storage at all: every
    access throws.  A write that would take the stored text past
    [ls_quota] characters throws as well. *)
Record LocalStorage : Type := {
  ls_enabled : bool;
  ls_quota : N;
  ls_items : gmap string string
}.

Definition stored_size (m : gmap string string) : N :=
  map_fold (fun k v acc => N.of_nat (String.length k) + N.of_nat (String.length v) + acc)%N
           0%N m.

Definition getItem (ls : LocalStorage) (k : string) : completion (option string) :=
  if ls_enabled ls then Normal (ls_items ls !! k) else Throw.

Definition setItem (ls : LocalStorage) (k v : string) : completion LocalStorage :=
  if ls_enabled ls then
    let items := <[k:=v]> (ls_items ls) in
    if (stored_size items <=? ls_quota ls)%N
    then Normal {| ls_enabled := true; ls_quota := ls_quota ls; ls_items := items |}
    else Throw
  else Throw.

Definition removeItem (ls : LocalStorage) (k : string) : completion LocalStorage :=
  if ls_enabled ls
  then Normal {| ls_enabled := true; ls_quota := ls_quota ls;
                 ls_items := delete k (ls_items ls) |}
  else Throw.

(** [Object.keys(localStorage)] *)
Definition storage_keys (ls : LocalStorage) : completion (list string) :=
  if ls_enabled ls then Normal (List.map fst (map_to_list (ls_items ls))) else Throw.

(** ** A reference JSON codec for running the model

    The development is parametric in the platform's [JSON.stringify] and
    [JSON.parse].  To evaluate it on concrete inputs the parameters are
    instantiated with this codec for the persisted layout: objects, arrays,
    strings without escapes, booleans and null.  Outside that fragment it
    is not defined and answers [Throw]. *)
Module SampleJSON.

Definition dquote : ascii := "034"%char.

Definition plain_char (c : ascii) : bool :=
  negb (Ascii.eqb c dquote) && negb (Ascii.eqb c "\"%char)
  && (32 <=? nat_of_ascii c)%nat.

Fixpoint plain (s : string) : bool :=
  match s with
  | EmptyString => true
  | String c s' => plain_char c && plain s'
  end.

Definition quote (s : string) : completion string :=
  if plain s then Normal (String dquote s +:+ String dquote EmptyString)
  else Throw.

Fixpoint join (l : list string) : string :=
  match l with
  | [] => EmptyString
  | [x] => x
  | x :: l' => x +:+ "," +:+ join l'
  end.

Fixpoint sequence (l : list (completion string)) : completion (list string) :=
  match l with
  | [] => Normal []
  | Normal x :: l' =>
      match sequence l' with Normal xs => Normal (x :: xs) | Throw => Throw end
  | Throw :: _ => Throw
  end.

Fixpoint stringify (v : jsval) : completion string :=
  match v with
  | VNull => Normal "null"
  | VBool true => Normal "true"
  | VBool false => Normal "false"
  | VStr s => quote s
  | VArr l =>
      match sequence (List.map stringify l) with
      | Normal xs => Normal ("[" +:+ join xs +:+ "]")
      | Throw => Throw
      end
  | VObj p =>
      match sequence (List.map (fun kv =>
               match quote (fst kv), stringify (snd kv) with
               | Normal k, Normal x => Normal (k +:+ ":" +:+ x)
               | _, _ => Throw
               end) p) with
      | Normal xs => Normal ("{" +:+ join xs +:+ "}")
      | Throw => Throw
      end
  | VUndefined | VNum _ | VFun _ => Throw
  end.

(** A recursive-descent reader of the same fragment, without white
    space.  [fuel] bounds the nesting depth. *)
Fixpoint read_string (s : string) : option (string * string) :=
  match s with
  | EmptyString => None
  | String c s' =>
      if Ascii.eqb c dquote then Some (EmptyString, s')
      else if plain_char c then
        match read_string s' with
        | Some (x, rest) => Some (String c x, rest)
        | None => None
        end
      else None
  end.

Definition strip (p s : string) : option string :=
  if String.prefix p s
  then Some (String.substring (String.length p) (String.length s - String.length p) s)
  else None.

Definition read_literal (s : string) : option (jsval * string) :=
  match strip "true" s, strip "false" s, strip "null" s with
  | Some rest, _, _ => Some (VBool true, rest)
  | _, Some rest, _ => Some (VBool false, rest)
  | _, _, Some rest => Some (VNull, rest)
  | _, _, _ => None
  end.

Fixpoint read_value (fuel : nat) (s : string) : option (jsval * string) :=
  match fuel with
  | O => None
  | S fuel' =>
      let fix read_elems (n : nat) (s : string) : option (list jsval * string) :=
        match n with
        | O => None
        | S n' =>
            match read_value fuel' s with
            | Some (v, String "," rest) =>
                match read_elems n' rest with
                | Some (vs, rest') => Some (v :: vs, rest')
                | None => None
                end
            | Some (v, String "]" rest) => Some ([v], rest)
            | _ => None
            end
        end in
      let fix read_members (n : nat) (s : string) : option (jsobj * string) :=
        match n with
        | O => None
        | S n' =>
            match s with
            | String c s1 =>
                if Ascii.eqb c dquote then
                  match read_string s1 with
                  | Some (k, String ":" s2) =>
                      match read_value fuel' s2 with
                      | Some (v, String "," rest) =>
                          match read_members n' rest with
                          | Some (kvs, rest') => Some ((k, v) :: kvs, rest')
                          | None => None
                          end
                      | Some (v, String "}" rest) => Some ([(k, v)], rest)
                      | _ => None
                      end
                  | _ => None
                  end
                else None
            | EmptyString => None
            end
        end in
      match s with
      | String "[" (String "]" rest) => Some (VArr [], rest)
      | String "[" s' =>
          match read_elems (String.length s) s' with
          | Some (vs, rest) => Some (VArr vs, rest)
          | None => None
          end
      | String "{" (String "}" rest) => Some (VObj [], rest)
      | String "{" s' =>
          match read_members (String.length s) s' with
          | Some (kvs, rest) =>
              Some (VObj (fold_left (fun acc kv => define_own (fst kv) (snd kv) acc) kvs []),
                    rest)
          | None => None
          end
      | String c s' =>
          if Ascii.eqb c dquote then
            match read_string s' with
            | Some (x, rest) => Some (VStr x, rest)
            | None => None
            end
          else read_literal s
      | EmptyString => None
      end
  end.

Definition parse (s : string) : completion jsval :=
  match read_value (String.length s) s with
  | Some (v, EmptyString) => Normal v
  | _ => Throw
  end.

End SampleJSON.

(** ** Summaries, events and the page *)

Record ProgressSummary : Type := {
  totalSteps : nat;
  completedSteps : nat;
  percentage : spec_float;
  completedStepIds : list string
}.

(** The [detail] argument of [dispatchProgressEvent]. *)
Inductive ActionDetail : Type :=
| NoDetail
| StepDetail (stepId : string)
| DataDetail (data : jsval).

(** A dispatched [CustomEvent]: its name and its [{ ...detail, summary }]. *)
Record ProgressEvent : Type := {
  ev_name : string;
  ev_detail : ActionDetail;
  ev_summary : ProgressSummary
}.

(** What the tracker sees of the browser: the storage, the number of
    elements matching [navItemSelector], the events dispatched on the
    document so far, and the clock read by [exportProgress].  Class and text
    updates of the page ([updateStepUI], [updateProgressBar], [updateUI])
    are not part of the model: they read the tracker and write only to the
    page's presentation. *)
Record Browser : Type := {
  localStorage : LocalStorage;
  navItems : nat;
  dispatched : list ProgressEvent;
  clock : string
}.

Definition with_storage (env : Browser) (ls : LocalStorage) : Browser :=
  {| localStorage := ls; navItems := navItems env;
     dispatched := dispatched env; clock := clock env |}.

Definition with_event (env : Browser) (ev : ProgressEvent) : Browser :=
  {| localStorage := localStorage env; navItems := navItems env;
     dispatched := dispatched env ++ [ev]; clock := clock env |}.

Record StorageManager : Type := { namespace : string }.

Record ProgressTracker : Type := {
  storageKey : string;
  storage : StorageManager;
  progress : jsobj
}.

Definition with_progress (self : ProgressTracker) (p : jsobj) : ProgressTracker :=
  {| storageKey := storageKey self; storage := storage self; progress := p |}.

(** A parameter with an initialiser, [f(x = d)]: the initialiser stands in
    for an argument that is undefined or left out. *)
Definition default_parameter (argument initialiser : jsval) : jsval :=
  match argument with
  | VUndefined => initialiser
  | _ => argument
  end.

(** A [stepId] argument: a string, or [None] for an argument left out. *)
Definition step_value (stepId : option string) : jsval :=
  match stepId with
  | Some s => VStr s
  | None => VUndefined
  end.

Definition summary_value (s : ProgressSummary) : jsval :=
  VObj [ ("totalSteps", VNum (Number.of_nat (totalSteps s)));
         ("completedSteps", VNum (Number.of_nat (completedSteps s)));
         ("percentage", VNum (percentage s));
         ("completedStepIds", VArr (List.map VStr (completedStepIds s))) ].

Section Platform.

(** [JSON.stringify] as [save] uses it (the text handed to [setItem]) and
    [JSON.parse]; [Throw] stands for a TypeError or SyntaxError. *)
Variable JSON_stringify : jsval -> completion string.
Variable JSON_parse : string -> completion jsval.

(** *** StorageManager *)

Definition _getKey (this : StorageManager) (key : string) : string :=
  namespace this +:+ "_" +:+ key.

Definition save (this : StorageManager) (key : string) (data : jsval)
    (ls : LocalStorage) : bool * LocalStorage :=
  match JSON_stringify data with
  | Normal serialized =>
      match setItem ls (_getKey this key) serialized with
      | Normal ls' => (true, ls')
      | Throw => (false, ls)
      end
  | Throw => (false, ls)
  end.

(** [load(key, defaultValue = null)] *)
Definition load (this : StorageManager) (key : string) (defaultValue : jsval)
    (ls : LocalStorage) : jsval :=
  let defaultValue := default_parameter defaultValue VNull in
  match getItem ls (_getKey this key) with
  | Normal None => defaultValue
  | Normal (Some serialized) =>
      match JSON_parse serialized with
      | Normal v => v
      | Throw => defaultValue
      end
  | Throw => defaultValue
  end.

Definition remove (this : StorageManager) (key : string)
    (ls : LocalStorage) : bool * LocalStorage :=
  match removeItem ls (_getKey this key) with
  | Normal ls' => (true, ls')
  | Throw => (false, ls)
  end.

(** The [forEach] of [clear]: a throwing [removeItem] leaves the earlier
    removals in place. *)
Fixpoint remove_each (keys : list string) (ls : LocalStorage) : bool * LocalStorage :=
  match keys with
  | [] => (true, ls)
  | key :: keys' =>
      match removeItem ls key with
      | Normal ls' => remove_each keys' ls'
      | Throw => (false, ls)
      end
  end.

Definition clear (this : StorageManager) (ls : LocalStorage) : bool * LocalStorage :=
  match storage_keys ls with
  | Normal keys =>
      let namespaceKeys :=
        List.filter (fun key => String.prefix (namespace this +:+ "_") key) keys in
      remove_each namespaceKeys ls
  | Throw => (false, ls)
  end.

Definition isAvailable (ls : LocalStorage) : bool * LocalStorage :=
  match setItem ls "__storage_test__" "test" with
  | Normal ls1 =>
      match removeItem ls1 "__storage_test__" with
      | Normal ls2 => (true, ls2)
      | Throw => (false, ls1)
      end
  | Throw => (false, ls)
  end.

(** *** ProgressTracker *)

Definition loadProgress (this : ProgressTracker) (env : Browser) : jsval :=
  load (storage this) (storageKey this) (VObj []) (localStorage env).

Definition saveProgress (this : ProgressTracker) (env : Browser) : bool * Browser :=
  let (saved, ls) :=
    save (storage this) (storageKey this) (VObj (progress this)) (localStorage env) in
  (saved, with_storage env ls).

Definition isStepCompleted (this : ProgressTracker) (stepId : string) : bool :=
  truthy (js_get (progress this) stepId).

Definition getTotalSteps (env : Browser) : nat := navItems env.

Definition getCompletedStepsCount (this : ProgressTracker) : nat :=
  length (List.filter truthy (Object_values (progress this))).

Definition getCompletionPercentage (this : ProgressTracker) (env : Browser) : spec_float :=
  let totalSteps := getTotalSteps env in
  let completedSteps := getCompletedStepsCount this in
  if (0 <? totalSteps)%nat
  then Number.round
         (Number.mul (Number.div (Number.of_nat completedSteps) (Number.of_nat totalSteps))
                     (Number.of_Z 100))
  else Number.of_Z 0.

Definition getProgressSummary (this : ProgressTracker) (env : Browser) : ProgressSummary :=
  {| totalSteps := getTotalSteps env;
     completedSteps := getCompletedStepsCount this;
     percentage := getCompletionPercentage this env;
     completedStepIds :=
       List.filter (fun stepId => truthy (js_get (progress this) stepId))
                   (Object_keys (progress this)) |}.

Definition dispatchProgressEvent (eventType : string) (detail : ActionDetail)
    (this : ProgressTracker) (env : Browser) : Browser :=
  with_event env {| ev_name := "progress:" +:+ eventType;
                    ev_detail := detail;
                    ev_summary := getProgressSummary this env |}.

Definition markStepCompleted (stepId : option string) (this : ProgressTracker)
    (env : Browser) : bool * ProgressTracker * Browser :=
  match stepId with
  | Some id =>
      if negb (truthy (step_value stepId)) then (false, this, env)
      else
        let this' := with_progress this (js_set (progress this) id (VBool true)) in
        let (saved, env') := saveProgress this' env in
        if saved
        then (saved, this', dispatchProgressEvent "step-completed" (StepDetail id) this' env')
        else (saved, this', env')
  | None => (false, this, env)
  end.

Definition markStepIncomplete (stepId : option string) (this : ProgressTracker)
    (env : Browser) : bool * ProgressTracker * Browser :=
  match stepId with
  | Some id =>
      if negb (truthy (step_value stepId)) then (false, this, env)
      else
        let this' := with_progress this (own_delete id (progress this)) in
        let (saved, env') := saveProgress this' env in
        if saved
        then (saved, this', dispatchProgressEvent "step-incompleted" (StepDetail id) this' env')
        else (saved, this', env')
  | None => (false, this, env)
  end.

Definition resetProgress (this : ProgressTracker) (env : Browser)
    : bool * ProgressTracker * Browser :=
  let this' := with_progress this [] in
  let (saved, env') := saveProgress this' env in
  if saved
  then (saved, this', dispatchProgressEvent "progress-reset" NoDetail this' env')
  else (saved, this', env').

Definition exportProgress (this : ProgressTracker) (env : Browser) : jsval :=
  VObj [ ("progress", VObj (spread (VObj (progress this))));
         ("summary", summary_value (getProgressSummary this env));
         ("timestamp", VStr (clock env)) ].

Definition importProgress (data : jsval) (this : ProgressTracker) (env : Browser)
    : bool * ProgressTracker * Browser :=
  if negb (truthy data) || negb (String.eqb (typeof data) "object")
  then (false, this, env)
  else
    let copied := VObj (spread (js_member data "progress")) in
    let this' :=
      with_progress this
        (match (if truthy copied then copied else VObj []) with
         | VObj p => p
         | _ => []
         end) in
    let (saved, env') := saveProgress this' env in
    if saved
    then (saved, this', dispatchProgressEvent "progress-imported" (DataDetail data) this' env')
    else (saved, this', env').

(** The mutating operations of the tracker, for statements about all of
    them. *)
Inductive operation : Type :=
| MarkStepCompleted (stepId : option string)
| MarkStepIncomplete (stepId : option string)
| ResetProgress
| ImportProgress (data : jsval).

Definition run (op : operation) (this : ProgressTracker) (env : Browser)
    : bool * ProgressTracker * Browser :=
  match op with
  | MarkStepCompleted stepId => markStepCompleted stepId this env
  | MarkStepIncomplete stepId => markStepIncomplete stepId this env
  | ResetProgress => resetProgress this env
  | ImportProgress data => importProgress data this env
  end.

(** The tail that the four mutating methods share: save, and notify only
    if the save succeeded. *)
Definition save_and_notify (eventType : string) (detail : ActionDetail)
    (this : ProgressTracker) (env : Browser) : bool * ProgressTracker * Browser :=
  let (saved, env') := saveProgress this env in
  if saved
  then (saved, this, dispatchProgressEvent eventType detail this env')
  else (saved, this, env').

(** The ProgressRecord of [this] is what the storage holds under the
    namespaced key. *)
Definition persisted (this : ProgressTracker) (env : Browser) : Prop :=
  exists text,
    JSON_stringify (VObj (progress this)) = Normal text /\
    ls_items (localStorage env) !! _getKey (storage this) (storageKey this) = Some text.

End Platform.

(** ** The statements of the specification, to compare the code with *)

(** "round(100 * completedSteps / totalSteps)" over the integers, ties
    upwards. *)
Definition spec_percentage (completed total : nat) : Z :=
  if (total =? 0)%nat then 0
  else (200 * Z.of_nat completed + Z.of_nat total) / (2 * Z.of_nat total).

(** The spec's formula and the code agree on every page of at most [n]
    markers, as far as completed <= total. *)
Definition percentage_agrees (n : nat) : bool :=
  forallb (fun total =>
    forallb (fun completed =>
      Number.same
        (getCompletionPercentage
           {| storageKey := "progress"; storage := {| namespace := "mcp" |};
              progress := indexed (repeat (VBool true) completed) |}
           {| localStorage := {| ls_enabled := true; ls_quota := 0; ls_items := ∅ |};
              navItems := total; dispatched := []; clock := EmptyString |})
        (Number.of_Z (spec_percentage completed total)))
      (seq 0 (S total)))
    (seq 0 (S n)).

(** "An object-shaped value": neither null, undefined nor of a non-object
    type. *)
Definition object_shaped (v : jsval) : bool :=
  match v with
  | VObj _ | VArr _ => true
  | _ => false
  end.

(** The entries of a ProgressRecord whose value is truthy. *)
Definition truthy_entries (p : jsobj) : jsobj :=
  List.filter (fun kv => truthy (snd kv)) p.

(** ** Sample states *)

Definition open_storage : LocalStorage :=
  {| ls_enabled := true; ls_quota := 5000000; ls_items := ∅ |}.

Definition disabled_storage : LocalStorage :=
  {| ls_enabled := false; ls_quota := 5000000; ls_items := ∅ |}.

Definition page (ls : LocalStorage) (markers : nat) : Browser :=
  {| localStorage := ls; navItems := markers; dispatched := [];
     clock := "2025-01-01T00:00:00.000Z" |}.

Definition tracker (p : jsobj) : ProgressTracker :=
  {| storageKey := "progress"; storage := {| namespace := "mcp" |}; progress := p |}.

(** A storage whose progress entry is not JSON, next to an entry of
    another namespace. *)
Definition corrupt_storage : LocalStorage :=
  {| ls_enabled := true; ls_quota := 5000000;
     ls_items := {[ "mcp_progress" := "{oops"; "theme_preference" := "light" ]} |}.


(** ** Namespaces *)

(** A namespace without an underscore, as the two the site uses ([mcp],
    [theme]). *)
Fixpoint no_underscore (s : string) : bool :=
  match s with
  | EmptyString => true
  | String c s' => negb (Ascii.eqb c "_"%char) && no_underscore s'
  end.

(** ** The events of the tracker *)

(** The [eventType] each operation passes to [dispatchProgressEvent], and
    the name of the event that results. *)
Definition eventType (op : operation) : string :=
  match op with
  | MarkStepCompleted _ => "step-completed"
  | MarkStepIncomplete _ => "step-incompleted"
  | ResetProgress => "progress-reset"
  | ImportProgress _ => "progress-imported"
  end.

Definition announced (op : operation) : string := "progress:" +:+ eventType op.

(** The names every plain object answers to without owning them. *)
Definition inherited (k : string) : bool :=
  String.eqb k "__proto__" || existsb (String.eqb k) object_prototype_methods.

(** ** The page the tracker renders to

    [Browser] holds what the results of the tracker depend on.  What the
    tracker renders, the [completed] class of the step elements and the
    text of the progress container, is kept beside it in a [View]; the
    methods of [Page] are the methods of the tracker together with their
    calls of [updateStepUI], [updateProgressBar] and [updateUI]. *)

(** [DOMUtils.toggleClass(element, className, condition)] on an element
    that exists, as the new presence of the class: [classList.toggle] with
    a force argument when [condition] is given, without one when it is
    undefined. *)
Definition toggleClass (condition : option bool) (present : bool) : bool :=
  match condition with
  | Some force => force
  | None => negb present
  end.

(** An element with a [data-step] attribute: the value of the attribute
    and whether the class list holds [completed]. *)
Record StepElement : Type := {
  data_step : string;
  completed : bool
}.

(** The progress container: the text of its [.progress-percentage] and the
    [style.width] of its [.progress-fill], each [None] where the container
    has no such descendant. *)
Record ProgressContainer : Type := {
  percentage_text : option string;
  fill_width : option string
}.

(** What the tracker writes to: the elements of the document that carry
    [data-step], in document order, and [this.progressContainer], [None]
    for null. *)
Record View : Type := {
  stepElements : list StepElement;
  progressContainer : option ProgressContainer
}.

(** A step identifier that stands for itself between the quotes of
    [[data-step="..."]]: no quote, no backslash, no line break, no NUL. *)
Definition selector_safe_char (c : ascii) : bool :=
  negb (Ascii.eqb c "034"%char) && negb (Ascii.eqb c "\"%char)
  && negb (Ascii.eqb c "010"%char) && negb (Ascii.eqb c "012"%char)
  && negb (Ascii.eqb c "013"%char) && negb (Ascii.eqb c "000"%char).

Fixpoint selector_safe (s : string) : bool :=
  match s with
  | EmptyString => true
  | String c s' => selector_safe_char c && selector_safe s'
  end.

(** The first element in document order whose [data-step] is [stepId]. *)
Fixpoint first_with_step (stepId : string) (elements : list StepElement) : option nat :=
  match elements with
  | [] => None
  | e :: elements' =>
      if String.eqb (data_step e) stepId then Some 0%nat
      else option_map S (first_with_step stepId elements')
  end.

Module Page.

Section Methods.

Variable JSON_stringify : jsval -> completion string.

(** The text of a number in a template literal. *)
Variable Number_toString : spec_float -> string.

(** What [DOMUtils.$] answers for [[data-step="${stepId}"]] when [stepId] is
    not [selector_safe]: the selector then means something else or is
    invalid, and an invalid selector is answered with null. *)
Variable querySelector_escaped : string -> list StepElement -> option nat.

(** [DOMUtils.$(`[data-step="${stepId}"]`)] *)
Definition query_data_step (stepId : string) (elements : list StepElement) : option nat :=
  if selector_safe stepId then first_with_step stepId elements
  else querySelector_escaped stepId elements.

Definition updateStepUI (stepId : string) (this : ProgressTracker) (view : View) : View :=
  match query_data_step stepId (stepElements view) with
  | None => view
  | Some navItem =>
      let isCompleted := isStepCompleted this stepId in
      {| stepElements :=
           alter (fun e => {| data_step := data_step e;
                              completed := toggleClass (Some isCompleted) (completed e) |})
                 navItem (stepElements view);
         progressContainer := progressContainer view |}
  end.

Definition updateProgressBar (this : ProgressTracker) (env : Browser) (view : View) : View :=
  match progressContainer view with
  | None => view
  | Some container =>
      let percentage := getCompletionPercentage this env in
      let text := Number_toString percentage +:+ "%" in
      {| stepElements := stepElements view;
         progressContainer :=
           Some {| percentage_text := option_map (fun _ => text) (percentage_text container);
                   fill_width := option_map (fun _ => text) (fill_width container) |} |}
  end.

Definition updateUI (this : ProgressTracker) (env : Browser) (view : View) : View :=
  updateProgressBar this env
    (fold_left (fun view stepId => updateStepUI stepId this view)
               (Object_keys (progress this)) view).

(** The methods of the tracker with the page they render to. *)
Definition markStepCompleted (stepId : option string) (this : ProgressTracker)
    (env : Browser) (view : View) : bool * ProgressTracker * Browser * View :=
  match stepId with
  | Some id =>
      if negb (truthy (step_value stepId)) then (false, this, env, view)
      else
        let this' := with_progress this (js_set (progress this) id (VBool true)) in
        let (saved, env') := saveProgress JSON_stringify this' env in
        if saved
        then (saved, this',
              dispatchProgressEvent "step-completed" (StepDetail id) this' env',
              updateProgressBar this' env' (updateStepUI id this' view))
        else (saved, this', env', view)
  | None => (false, this, env, view)
  end.

Definition markStepIncomplete (stepId : option string) (this : ProgressTracker)
    (env : Browser) (view : View) : bool * ProgressTracker * Browser * View :=
  match stepId with
  | Some id =>
      if negb (truthy (step_value stepId)) then (false, this, env, view)
      else
        let this' := with_progress this (own_delete id (progress this)) in
        let (saved, env') := saveProgress JSON_stringify this' env in
        if saved
        then (saved, this',
              dispatchProgressEvent "step-incompleted" (StepDetail id) this' env',
              updateProgressBar this' env' (updateStepUI id this' view))
        else (saved, this', env', view)
  | None => (false, this, env, view)
  end.

Definition handleStepClick (stepId : string) (this : ProgressTracker)
    (env : Browser) (view : View) : ProgressTracker * Browser * View :=
  let '(_, this', env', view') := markStepCompleted (Some stepId) this env view in
  (this', env', view').

Definition resetProgress (this : ProgressTracker) (env : Browser) (view : View)
    : bool * ProgressTracker * Browser * View :=
  let this' := with_progress this [] in
  let (saved, env') := saveProgress JSON_stringify this' env in
  if saved
  then (saved, this', dispatchProgressEvent "progress-reset" NoDetail this' env',
        updateUI this' env' view)
  else (saved, this', env', view).

Definition importProgress (data : jsval) (this : ProgressTracker) (env : Browser)
    (view : View) : bool * ProgressTracker * Browser * View :=
  if negb (truthy data) || negb (String.eqb (typeof data) "object")
  then (false, this, env, view)
  else
    let copied := VObj (spread (js_member data "progress")) in
    let this' :=
      with_progress this
        (match (if truthy copied then copied else VObj []) with
         | VObj p => p
         | _ => []
         end) in
    let (saved, env') := saveProgress JSON_stringify this' env in
    if saved
    then (saved, this',
          dispatchProgressEvent "progress-imported" (DataDetail data) this' env',
          updateUI this' env' view)
    else (saved, this', env', view).

(** [testProgressBar] returns a fresh object whose [progress] is the
    record itself. *)
Definition testProgressBar (this : ProgressTracker) (env : Browser) (view : View)
    : jsval * ProgressTracker * Browser * View :=
  let '(_, this', env', view') := markStepCompleted (Some "1") this env view in
  (VObj [ ("totalSteps", VNum (Number.of_nat (getTotalSteps env')));
          ("completedSteps", VNum (Number.of_nat (getCompletedStepsCount this')));
          ("percentage", VNum (getCompletionPercentage this' env'));
          ("progress", VObj (progress this')) ],
   this', env', view').

Definition run (op : operation) (this : ProgressTracker) (env : Browser) (view : View)
    : bool * ProgressTracker * Browser * View :=
  match op with
  | MarkStepCompleted stepId => markStepCompleted stepId this env view
  | MarkStepIncomplete stepId => markStepIncomplete stepId this env view
  | ResetProgress => resetProgress this env view
  | ImportProgress data => importProgress data this env view
  end.

End Methods.

End Page.

(** The rendering of one step: [completed] set on the first element that
    carries it, as [isStepCompleted] answers. *)
Definition rendered (this : ProgressTracker) (elements : list StepElement)
    (i : nat) (e : StepElement) : StepElement :=
  if bool_decide (first_with_step (data_step e) elements = Some i)
  then {| data_step := data_step e; completed := isStepCompleted this (data_step e) |}
  else e.

(** ** A reference rendering for running the model *)

(** The text of the numbers a percentage can be: the integers below 10^21.
    Elsewhere it is not defined and answers the empty text. *)
Module SampleDOM.

Definition integer (x : spec_float) : option Z :=
  match x with
  | S754_zero _ => Some 0
  | S754_finite s m e =>
      let magnitude :=
        if 0 <=? e then Some (Z.pos m * 2 ^ e)
        else if Z.pos m mod 2 ^ (- e) =? 0 then Some (Z.pos m / 2 ^ (- e))
        else None in
      option_map (fun z => if s then - z else z) magnitude
  | _ => None
  end.

Definition toString (x : spec_float) : string :=
  match integer x with
  | Some z =>
      if Z.abs z <? 10 ^ 21
      then (if z <? 0 then "-" else EmptyString)
           +:+ NilEmpty.string_of_uint (N.to_uint (Z.to_N (Z.abs z)))
      else EmptyString
  | None => EmptyString
  end.

(** Every selector that needs escaping taken as one that finds nothing. *)
Definition escaped (stepId : string) (elements : list StepElement) : option nat := None.

End SampleDOM.

Definition sample_view : View :=
  {| stepElements :=
       [ {| data_step := "1"; completed := false |};
         {| data_step := "2"; completed := true |};
         {| data_step := "3"; completed := false |};
         {| data_step := "2"; completed := false |} ];
     progressContainer :=
       Some {| percentage_text := Some "0%"; fill_width := Some EmptyString |} |}.

(** ** The theme toggle *)

(** [v === s] for a string [s] *)
Definition strict_equal_string (v : jsval) (s : string) : bool :=
  match v with
  | VStr x => String.eqb x s
  | _ => false
  end.

Module ThemeToggle.

(** The [detail] of a [themechange] event. *)
Record ThemeChange : Type := {
  theme : jsval;
  previousTheme : jsval
}.

(** The toggle button: its text and its [aria-label] attribute. *)
Record Button : Type := {
  textContent : string;
  aria_label : option string
}.

(** What the toggle writes to besides the storage: whether the class list
    of [document.body] holds [light-mode], and the [themechange] events
    dispatched on the document so far. *)
Record Document : Type := {
  light_mode : bool;
  themechange : list ThemeChange
}.

(** The listeners that [setupEventListeners] registers; [cleanupFunctions]
    holds one entry for each. *)
Inductive Listener : Type :=
| OnClick
| OnSystemThemeChange
| OnKeydown.

Definition Listener_eqb (a b : Listener) : bool :=
  match a, b with
  | OnClick, OnClick | OnSystemThemeChange, OnSystemThemeChange
  | OnKeydown, OnKeydown => true
  | _, _ => false
  end.

(** [button] is the element found at construction, [None] for null. *)
Record t : Type := {
  storage : StorageManager;
  button : option Button;
  currentTheme : jsval;
  cleanupFunctions : list Listener
}.

Definition with_button (this : t) (b : Button) : t :=
  {| storage := storage this; button := Some b;
     currentTheme := currentTheme this; cleanupFunctions := cleanupFunctions this |}.

Definition with_theme (this : t) (theme : jsval) : t :=
  {| storage := storage this; button := button this;
     currentTheme := theme; cleanupFunctions := cleanupFunctions this |}.

Definition with_cleanup (this : t) (l : list Listener) : t :=
  {| storage := storage this; button := button this;
     currentTheme := currentTheme this; cleanupFunctions := l |}.

(** What the browser delivers to the listeners. *)
Inductive Event : Type :=
| Click
| SystemThemeChange (matches : bool)
| Keydown (key : string).

Section Methods.

Variable JSON_stringify : jsval -> completion string.
Variable JSON_parse : string -> completion jsval.

Definition loadTheme (this : t) (ls : LocalStorage) : jsval :=
  let saved := load JSON_parse (storage this) "preference" VNull ls in
  if truthy saved then saved else VStr "dark".

Definition saveTheme (theme : jsval) (this : t) (ls : LocalStorage) : LocalStorage :=
  snd (save JSON_stringify (storage this) "preference" theme ls).

Definition dispatchThemeChangeEvent (theme : jsval) (this : t) (doc : Document)
    : Document :=
  {| light_mode := light_mode doc;
     themechange := themechange doc
                    ++ [ {| theme := theme; previousTheme := currentTheme this |} ] |}.

Definition applyTheme (theme : jsval) (this : t) (doc : Document) : t * Document :=
  let isDark := strict_equal_string theme "dark" in
  let doc1 := {| light_mode := toggleClass (Some (negb isDark)) (light_mode doc);
                 themechange := themechange doc |} in
  let this1 :=
    match button this with
    | Some _ =>
        with_button this
          {| textContent := if isDark then "🌙" else "☀️";
             aria_label :=
               Some ("Switch to " +:+ (if isDark then "light" else "dark") +:+ " mode") |}
    | None => this
    end in
  (this1, dispatchThemeChangeEvent theme this1 doc1).

Definition setTheme (theme : jsval) (this : t) (doc : Document) (ls : LocalStorage)
    : t * Document * LocalStorage :=
  if negb (strict_equal_string theme "dark" || strict_equal_string theme "light")
  then (this, doc, ls)
  else
    let this1 := with_theme this theme in
    let (this2, doc2) := applyTheme theme this1 doc in
    (this2, doc2, saveTheme theme this2 ls).

Definition toggle (this : t) (doc : Document) (ls : LocalStorage)
    : t * Document * LocalStorage :=
  let newTheme :=
    if strict_equal_string (currentTheme this) "dark" then VStr "light" else VStr "dark" in
  setTheme newTheme this doc ls.

Definition getTheme (this : t) : jsval := currentTheme this.

(** The handler of the media query's [change] event. *)
Definition handleSystemThemeChange (matches : bool) (this : t) (doc : Document)
    (ls : LocalStorage) : t * Document * LocalStorage :=
  let hasPreference := load JSON_parse (storage this) "preference" VNull ls in
  if negb (truthy hasPreference)
  then setTheme (VStr (if matches then "dark" else "light")) this doc ls
  else (this, doc, ls).

(** The handler of the button's [keydown] event. *)
Definition handleKeydown (key : string) (this : t) (doc : Document) (ls : LocalStorage)
    : t * Document * LocalStorage :=
  if String.eqb key "Enter" || String.eqb key " "
  then toggle this doc ls
  else (this, doc, ls).

(** [matchMedia] says whether [window.matchMedia] exists. *)
Definition setupEventListeners (matchMedia : bool) (this : t) : t :=
  match button this with
  | None => this
  | Some _ =>
      with_cleanup this
        (cleanupFunctions this ++ [OnClick]
         ++ (if matchMedia then [OnSystemThemeChange] else []) ++ [OnKeydown])
  end.

Definition init (matchMedia : bool) (this : t) (doc : Document) : t * Document :=
  match button this with
  | None => (this, doc)
  | Some _ =>
      let (this1, doc1) := applyTheme (currentTheme this) this doc in
      (setupEventListeners matchMedia this1, doc1)
  end.

(** [new ThemeToggle()], given the element the selector finds. *)
Definition constructor (found : option Button) (matchMedia : bool) (doc : Document)
    (ls : LocalStorage) : t * Document :=
  let this0 := {| storage := {| namespace := "theme" |}; button := found;
                  currentTheme := VUndefined; cleanupFunctions := [] |} in
  let this1 := with_theme this0 (loadTheme this0 ls) in
  init matchMedia this1 doc.

Definition destroy (this : t) : t := with_cleanup this [].

Definition detectSystemPreference (prefers_dark : option bool) : string :=
  match prefers_dark with
  | Some true => "dark"
  | _ => "light"
  end.

(** An event reaches its handler while the listener is registered. *)
Definition deliver (ev : Event) (this : t) (doc : Document) (ls : LocalStorage)
    : t * Document * LocalStorage :=
  let listening l := existsb (Listener_eqb l) (cleanupFunctions this) in
  match ev with
  | Click => if listening OnClick then toggle this doc ls else (this, doc, ls)
  | SystemThemeChange matches =>
      if listening OnSystemThemeChange
      then handleSystemThemeChange matches this doc ls
      else (this, doc, ls)
  | Keydown key =>
      if listening OnKeydown then handleKeydown key this doc ls else (this, doc, ls)
  end.

(** Everything that can happen to a toggle: an event, or a call of one of
    its methods. *)
Inductive action : Type :=
| Deliver (ev : Event)
| SetTheme (theme : jsval)
| Toggle
| Destroy.

Definition act (a : action) (this : t) (doc : Document) (ls : LocalStorage)
    : t * Document * LocalStorage :=
  match a with
  | Deliver ev => deliver ev this doc ls
  | SetTheme theme => setTheme theme this doc ls
  | Toggle => toggle this doc ls
  | Destroy => (destroy this, doc, ls)
  end.

Fixpoint acts (l : list action) (this : t) (doc : Document) (ls : LocalStorage)
    : t * Document * LocalStorage :=
  match l with
  | [] => (this, doc, ls)
  | a :: l' => let '(this', doc', ls') := act a this doc ls in acts l' this' doc' ls'
  end.

End Methods.

Definition Button_eqb (a b : Button) : bool :=
  String.eqb (textContent a) (textContent b)
  && match aria_label a, aria_label b with
     | Some x, Some y => String.eqb x y
     | None, None => true
     | _, _ => false
     end.

(** The page shows the theme of [this]: [light-mode] is on the body unless
    the theme is dark, and the button, where there is one, offers the other
    theme. *)
Definition shows (this : t) (doc : Document) : bool :=
  let isDark := strict_equal_string (currentTheme this) "dark" in
  Bool.eqb (light_mode doc) (negb isDark)
  && match button this with
     | Some b =>
         Button_eqb b
           {| textContent := if isDark then "🌙" else "☀️";
              aria_label :=
                Some ("Switch to " +:+ (if isDark then "light" else "dark") +:+ " mode") |}
     | None => true
     end.

(** The themes that [setTheme] accepts. *)
Definition valid (theme : jsval) : bool :=
  strict_equal_string theme "dark" || strict_equal_string theme "light".

End ThemeToggle.

Definition sample_button : ThemeToggle.Button :=
  {| ThemeToggle.textContent := EmptyString; ThemeToggle.aria_label := None |}.

Definition sample_document : ThemeToggle.Document :=
  {| ThemeToggle.light_mode := false; ThemeToggle.themechange := [] |}.

(** A storage that holds a preference for the light theme. *)
Definition light_storage : LocalStorage :=
  {| ls_enabled := true; ls_quota := 5000000;
     ls_items := {[ "theme_preference" := String "034" ("light" +:+ String "034" EmptyString) ]} |}.


(** * Properties *)

(** ** Plain objects *)

Lemma own_get_keys (k : string) (o : jsobj) :
  own_get k o = None <-> existsb (String.eqb k) (Object_keys o) = false.
Proof.
  induction o as [|[k' v'] o IH]; simpl; [tauto|].
  destruct (String.eqb k k'); simpl; [split; discriminate | exact IH].
Qed.

Lemma own_replace_keys (k : string) (v : jsval) (o : jsobj) :
  Object_keys (own_replace k v o) = Object_keys o.
Proof.
  induction o as [|[k' v'] o IH]; simpl; [reflexivity|].
  destruct (String.eqb k k'); simpl; [reflexivity | now rewrite IH].
Qed.

Lemma own_replace_same (k : string) (v : jsval) (o : jsobj) :
  own_get k o = Some v -> own_replace k v o = o.
Proof.
  induction o as [|[k' v'] o IH]; simpl; [reflexivity|].
  destruct (String.eqb k k'); intros H.
  - now inversion H.
  - now rewrite IH.
Qed.

Lemma own_get_replace (k : string) (v : jsval) (o : jsobj) :
  own_get k o <> None -> own_get k (own_replace k v o) = Some v.
Proof.
  induction o as [|[k' v'] o IH]; simpl; [congruence|].
  destruct (String.eqb k k') eqn:E; simpl; rewrite E; auto.
Qed.

Lemma own_get_replace_other (k k' : string) (v : jsval) (o : jsobj) :
  k' <> k -> own_get k' (own_replace k v o) = own_get k' o.
Proof.
  intros Hne. induction o as [|[k0 v0] o IH]; simpl; [reflexivity|].
  destruct (String.eqb k k0) eqn:E; simpl.
  - apply String.eqb_eq in E. subst k0.
    destruct (String.eqb_spec k' k); [contradiction | reflexivity].
  - now rewrite IH.
Qed.

Lemma own_get_app (k : string) (o1 o2 : jsobj) :
  own_get k (o1 ++ o2) =
  match own_get k o1 with Some v => Some v | None => own_get k o2 end.
Proof.
  induction o1 as [|[k' v'] o1 IH]; simpl; [reflexivity|].
  now destruct (String.eqb k k').
Qed.

Lemma own_get_insert_index (n : N) (k k' : string) (v : jsval) (o : jsobj) :
  own_get k o = None ->
  own_get k' (insert_index n k v o) = if String.eqb k' k then Some v else own_get k' o.
Proof.
  induction o as [|[k0 v0] o IH]; simpl; intros Hk.
  - reflexivity.
  - destruct (String.eqb k k0) eqn:E0; [discriminate|].
    destruct (array_index k0) as [n0|]; [destruct (n0 <? n)%N|]; simpl;
      try reflexivity.
    rewrite IH by assumption.
    destruct (String.eqb k' k) eqn:E; [|reflexivity].
    apply String.eqb_eq in E. subst k'. now rewrite E0.
Qed.

Lemma own_get_define_own (k k' : string) (v : jsval) (o : jsobj) :
  own_get k' (define_own k v o) = if String.eqb k' k then Some v else own_get k' o.
Proof.
  unfold define_own. destruct (own_get k o) as [v0|] eqn:Hk.
  - destruct (String.eqb k' k) eqn:E.
    + apply String.eqb_eq in E. subst k'. apply own_get_replace. congruence.
    + apply own_get_replace_other. intros ->. now rewrite String.eqb_refl in E.
  - destruct (array_index k) as [n|].
    + now apply own_get_insert_index.
    + rewrite own_get_app. simpl.
      destruct (String.eqb k' k) eqn:E.
      * apply String.eqb_eq in E. subst k'. now rewrite Hk.
      * now destruct (own_get k' o).
Qed.

Lemma own_get_delete (k k' : string) (o : jsobj) :
  own_get k' (own_delete k o) = if String.eqb k' k then None else own_get k' o.
Proof.
  unfold own_delete. induction o as [|[k0 v0] o IH]; simpl.
  - now destruct (String.eqb k' k).
  - destruct (String.eqb k k0) eqn:E0; simpl.
    + apply String.eqb_eq in E0. subst k0. rewrite IH.
      now destruct (String.eqb k' k).
    + rewrite IH. destruct (String.eqb k' k) eqn:E.
      * apply String.eqb_eq in E. subst k'. now rewrite E0.
      * reflexivity.
Qed.

Lemma own_delete_absent (k : string) (o : jsobj) :
  own_get k o = None -> own_delete k o = o.
Proof.
  unfold own_delete. induction o as [|[k' v'] o IH]; simpl; [reflexivity|].
  destruct (String.eqb k k'); simpl; [discriminate|].
  intros H. now rewrite IH.
Qed.

(** *** Property order *)

Lemma array_index_canonical (k : string) (n : N) :
  array_index k = Some n -> k = NilEmpty.string_of_uint (N.to_uint n).
Proof.
  unfold array_index. destruct (NilEmpty.uint_of_string k) as [u|]; [|discriminate].
  destruct (String.eqb _ k) eqn:E; simpl; [|discriminate].
  destruct (N.ltb _ _); [|discriminate].
  intros H. inversion H. subst n. symmetry. now apply String.eqb_eq.
Qed.

Lemma array_index_inj (k1 k2 : string) (n : N) :
  array_index k1 = Some n -> array_index k2 = Some n -> k1 = k2.
Proof.
  intros H1 H2. apply array_index_canonical in H1, H2. congruence.
Qed.

Lemma key_before_trans (a b c : string) :
  key_before a b = true -> key_before b c = true -> key_before a c = true.
Proof.
  unfold key_before.
  destruct (array_index a), (array_index b), (array_index c); try congruence.
  rewrite !N.ltb_lt. lia.
Qed.

Lemma key_before_string (a b : string) :
  array_index b = None -> key_before a b = true.
Proof. unfold key_before. intros ->. now destruct (array_index a). Qed.

Lemma existsb_eqb_In (k : string) (ks : list string) :
  existsb (String.eqb k) ks = false <-> ~ In k ks.
Proof.
  induction ks as [|k' ks IH]; simpl; [tauto|].
  rewrite orb_false_iff, IH.
  destruct (String.eqb_spec k k'); split; intros H;
    try (destruct H; discriminate); try tauto; intuition congruence.
Qed.

Lemma ordered_keys_cons (k : string) (ks : list string) :
  ordered_keys (k :: ks) = true <->
  ~ In k ks /\ (forall x, In x ks -> key_before k x = true) /\ ordered_keys ks = true.
Proof.
  simpl. rewrite !andb_true_iff, negb_true_iff, existsb_eqb_In, forallb_forall.
  tauto.
Qed.

Lemma ordered_keys_filter (f : string -> bool) (ks : list string) :
  ordered_keys ks = true -> ordered_keys (List.filter f ks) = true.
Proof.
  induction ks as [|k ks IH]; [reflexivity|].
  intros H. apply ordered_keys_cons in H. destruct H as (Hnot & Hbefore & Hrest).
  cbn [List.filter]. destruct (f k); [|auto].
  apply ordered_keys_cons. repeat split; auto.
  - intros Hin. apply filter_In in Hin. tauto.
  - intros x Hin. apply filter_In in Hin. apply Hbefore. tauto.
Qed.

Lemma own_delete_keys (k : string) (o : jsobj) :
  Object_keys (own_delete k o) =
  List.filter (fun k' => negb (String.eqb k k')) (Object_keys o).
Proof.
  unfold own_delete, Object_keys. induction o as [|[k' v'] o IH]; simpl; [reflexivity|].
  destruct (String.eqb k k'); simpl; now rewrite IH.
Qed.

Lemma own_delete_wf (k : string) (o : jsobj) :
  js_wf o = true -> js_wf (own_delete k o) = true.
Proof.
  unfold js_wf. rewrite own_delete_keys. apply ordered_keys_filter.
Qed.

Lemma own_replace_wf (k : string) (v : jsval) (o : jsobj) :
  js_wf o = true -> js_wf (own_replace k v o) = true.
Proof. unfold js_wf. now rewrite own_replace_keys. Qed.

Lemma insert_index_In (n : N) (k : string) (v : jsval) (o : jsobj) (x : string) :
  In x (Object_keys (insert_index n k v o)) <-> x = k \/ In x (Object_keys o).
Proof.
  induction o as [|[k' v'] o IH]; simpl.
  - intuition congruence.
  - destruct (array_index k') as [n'|]; [destruct (n' <? n)%N|]; simpl;
      try rewrite IH; intuition congruence.
Qed.

Lemma insert_index_wf (n : N) (k : string) (v : jsval) (o : jsobj) :
  array_index k = Some n -> own_get k o = None ->
  js_wf o = true -> js_wf (insert_index n k v o) = true.
Proof.
  intros Hidx. unfold js_wf.
  induction o as [|[k' v'] o IH]; intros Hk Hwf.
  - reflexivity.
  - simpl in Hk. destruct (String.eqb_spec k k') as [|Hne]; [discriminate|].
    change (Object_keys ((k', v') :: o)) with (k' :: Object_keys o) in Hwf.
    pose proof Hwf as Hwf0.
    apply ordered_keys_cons in Hwf. destruct Hwf as (Hnot & Hbefore & Hrest).
    assert (Hfresh : ~ In k (k' :: Object_keys o)).
    { simpl. intros [->|Hin]; [congruence|].
      apply own_get_keys in Hk. apply existsb_eqb_In in Hk. contradiction. }
    simpl. destruct (array_index k') as [n'|] eqn:Hidx'.
    + destruct (n' <? n)%N eqn:Hlt.
      * change (ordered_keys (k' :: Object_keys (insert_index n k v o)) = true).
        apply ordered_keys_cons. repeat split.
        -- rewrite insert_index_In. intros [->|Hin]; [congruence | contradiction].
        -- intros x Hin. apply insert_index_In in Hin. destruct Hin as [->|Hin].
           ++ unfold key_before. now rewrite Hidx', Hidx.
           ++ now apply Hbefore.
        -- now apply IH.
      * change (ordered_keys (k :: k' :: Object_keys o) = true).
        apply ordered_keys_cons. repeat split; [assumption| |assumption].
        assert (Hkk' : key_before k k' = true).
        { unfold key_before. rewrite Hidx, Hidx'. apply N.ltb_lt.
          apply N.ltb_ge in Hlt.
          assert (n' <> n) by (intros ->; apply Hne; eapply array_index_inj; eauto).
          lia. }
        intros x [<-|Hin]; [assumption|].
        eapply key_before_trans; [exact Hkk' | now apply Hbefore].
    + change (ordered_keys (k :: k' :: Object_keys o) = true).
      apply ordered_keys_cons. repeat split; [assumption| |assumption].
      intros x [<-|Hin]; [now apply key_before_string|].
      apply key_before_string. specialize (Hbefore x Hin).
      unfold key_before in Hbefore. rewrite Hidx' in Hbefore.
      now destruct (array_index x).
Qed.

Lemma ordered_keys_snoc (k : string) (ks : list string) :
  ~ In k ks -> array_index k = None ->
  ordered_keys ks = true -> ordered_keys (ks ++ [k]) = true.
Proof.
  intros Hnot Hidx. induction ks as [|k' ks IH]; intros Hwf; [reflexivity|].
  apply ordered_keys_cons in Hwf. destruct Hwf as (Hnot' & Hbefore & Hrest).
  change ((k' :: ks) ++ [k]) with (k' :: (ks ++ [k])).
  apply ordered_keys_cons. repeat split.
  - rewrite in_app_iff. simpl. intros [Hin|[->|[]]]; [contradiction|].
    apply Hnot. now left.
  - intros x Hin. apply in_app_iff in Hin. destruct Hin as [Hin|[<-|[]]].
    + now apply Hbefore.
    + now apply key_before_string.
  - apply IH; [|assumption]. intros Hin. apply Hnot. now right.
Qed.

Lemma define_own_wf (k : string) (v : jsval) (o : jsobj) :
  js_wf o = true -> js_wf (define_own k v o) = true.
Proof.
  intros Hwf. unfold define_own. destruct (own_get k o) eqn:Hk.
  - now apply own_replace_wf.
  - destruct (array_index k) as [n|] eqn:Hidx.
    + now apply insert_index_wf.
    + unfold js_wf, Object_keys. rewrite map_app. simpl.
      apply ordered_keys_snoc; auto.
      apply existsb_eqb_In. now apply own_get_keys.
Qed.

Lemma js_set_wf (o : jsobj) (k : string) (v : jsval) :
  js_wf o = true -> js_wf (js_set o k v) = true.
Proof.
  intros Hwf. unfold js_set. destruct (own_get k o).
  - now apply own_replace_wf.
  - destruct (String.eqb k "__proto__"); [assumption | now apply define_own_wf].
Qed.

Lemma define_all_wf (l acc : jsobj) :
  js_wf acc = true ->
  js_wf (fold_left (fun acc kv => define_own (fst kv) (snd kv) acc) l acc) = true.
Proof.
  revert acc. induction l as [|[k v] l IH]; intros acc Hwf; simpl; [assumption|].
  apply IH. now apply define_own_wf.
Qed.

Lemma spread_wf (v : jsval) : js_wf (spread v) = true.
Proof. unfold spread. now apply define_all_wf. Qed.

Lemma insert_index_last (n : N) (k : string) (v : jsval) (o : jsobj) :
  array_index k = Some n ->
  (forall x, In x (Object_keys o) -> key_before x k = true) ->
  insert_index n k v o = o ++ [(k, v)].
Proof.
  intros Hidx. induction o as [|[k' v'] o IH]; intros Hbefore; [reflexivity|].
  simpl. pose proof (Hbefore k' (or_introl eq_refl)) as Hk'.
  unfold key_before in Hk'. rewrite Hidx in Hk'.
  destruct (array_index k') as [n'|]; [|discriminate].
  rewrite Hk'. f_equal. apply IH. intros x Hin. apply Hbefore. now right.
Qed.

Lemma ordered_keys_app_last (ks : list string) (k : string) (rest : list string) :
  ordered_keys (ks ++ k :: rest) = true ->
  ~ In k ks /\ forall x, In x ks -> key_before x k = true.
Proof.
  induction ks as [|k' ks IH]; intros Hwf; [simpl; tauto|].
  change ((k' :: ks) ++ k :: rest) with (k' :: (ks ++ k :: rest)) in Hwf.
  apply ordered_keys_cons in Hwf. destruct Hwf as (Hnot & Hbefore & Hrest).
  destruct (IH Hrest) as [Hnot' Hbefore'].
  assert (Hin : In k (ks ++ k :: rest)) by (apply in_app_iff; right; now left).
  split.
  - intros [->|H]; [contradiction | contradiction].
  - intros x [<-|H]; [now apply Hbefore | now apply Hbefore'].
Qed.

Lemma define_own_last (k : string) (v : jsval) (o rest : jsobj) :
  js_wf (o ++ (k, v) :: rest) = true -> define_own k v o = o ++ [(k, v)].
Proof.
  unfold js_wf, Object_keys. rewrite map_app. simpl. intros Hwf.
  apply ordered_keys_app_last in Hwf. destruct Hwf as [Hnot Hbefore].
  unfold define_own.
  assert (Hk : own_get k o = None).
  { apply own_get_keys. now apply existsb_eqb_In. }
  rewrite Hk. destruct (array_index k) as [n|] eqn:Hidx; [|reflexivity].
  now apply insert_index_last.
Qed.

Lemma define_all_id (l acc : jsobj) :
  js_wf (acc ++ l) = true ->
  fold_left (fun acc kv => define_own (fst kv) (snd kv) acc) l acc = acc ++ l.
Proof.
  revert acc. induction l as [|[k v] l IH]; intros acc Hwf; simpl.
  - now rewrite app_nil_r.
  - rewrite (define_own_last k v acc l Hwf).
    rewrite IH; rewrite <- app_assoc; [reflexivity | exact Hwf].
Qed.

(** Spreading a plain object into a fresh one yields the same
    properties in the same order. *)
Lemma spread_id (p : jsobj) : js_wf p = true -> spread (VObj p) = p.
Proof. intros Hwf. unfold spread. simpl. now apply define_all_id. Qed.

(** ** Binary64 arithmetic *)

Lemma digits2_pos_size (p : positive) : digits2_pos p = Pos.size p.
Proof. induction p; simpl; congruence. Qed.

Lemma Zdigits2_log2 (m : Z) : 0 < m -> Zdigits2 m = Z.log2 m + 1.
Proof.
  destruct m as [|p|p]; try lia. intros _. simpl. rewrite digits2_pos_size.
  destruct p; simpl; lia.
Qed.

Lemma Zdigits2_bound (m b : Z) : 0 <= m -> 0 <= b -> m < 2 ^ b -> Zdigits2 m <= b.
Proof.
  intros Hm Hb Hlt. destruct (Z.eq_dec m 0) as [->|Hne]; [simpl; lia|].
  rewrite Zdigits2_log2 by lia.
  assert (Z.log2 m < b) by (apply Z.log2_lt_pow2; lia). lia.
Qed.

Lemma loc_of_shr_record_of_loc (m : Z) (l : location) :
  loc_of_shr_record (shr_record_of_loc m l) = l /\ shr_m (shr_record_of_loc m l) = m.
Proof. destruct l as [|[]]; split; reflexivity. Qed.

Lemma shr_1_spec (r : shr_record) :
  0 <= shr_m r ->
  shr_m (shr_1 r) = shr_m r / 2 /\
  (loc_of_shr_record (shr_1 r) = loc_Exact <->
   loc_of_shr_record r = loc_Exact /\ shr_m r mod 2 = 0).
Proof.
  destruct r as [m rb sb]. cbn [shr_m]. intros Hm.
  destruct m as [|[p|p|]|p]; [ | | | | exfalso; apply Hm; reflexivity ].
  all: cbn [shr_1 shr_m].
  all: try change (Z.pos p~1) with (2 * Z.pos p + 1).
  all: try change (Z.pos p~0) with (2 * Z.pos p).
  all: (split; [Z.div_mod_to_equations; lia|]).
  all: destruct rb, sb; cbn [loc_of_shr_record orb].
  all: split.
  all: try (intros H; discriminate H).
  all: try (intros [H1 H2]; discriminate H1).
  all: try (intros _; reflexivity).
  all: try (intros _; split; [reflexivity | Z.div_mod_to_equations; lia]).
  all: try (intros [_ H2]; exfalso; Z.div_mod_to_equations; lia).
Qed.

Lemma iter_pos_iter {A : Type} (f : A -> A) (p : positive) (x : A) :
  SpecFloat.iter_pos f p x = Pos.iter f x p.
Proof.
  revert x. induction p as [p IH|p IH|]; intros x; simpl.
  - rewrite !IH. now rewrite !Pos.iter_swap.
  - now rewrite !IH.
  - reflexivity.
Qed.

Lemma mod_pow2_succ (m n : Z) :
  0 <= m -> 0 <= n ->
  (m mod 2 ^ (n + 1) = 0 <-> m mod 2 ^ n = 0 /\ (m / 2 ^ n) mod 2 = 0).
Proof.
  intros Hm Hn. rewrite Z.pow_add_r by lia. change (2 ^ 1) with 2.
  assert (0 < 2 ^ n) by (apply Z.pow_pos_nonneg; lia).
  rewrite Z.rem_mul_r by lia.
  pose proof (Z.mod_pos_bound m (2 ^ n) ltac:(lia)).
  pose proof (Z.mod_pos_bound (m / 2 ^ n) 2 ltac:(lia)).
  nia.
Qed.

Lemma iter_shr_1_spec (p : positive) (r : shr_record) :
  0 <= shr_m r ->
  shr_m (SpecFloat.iter_pos shr_1 p r) = shr_m r / 2 ^ Z.pos p /\
  (loc_of_shr_record (SpecFloat.iter_pos shr_1 p r) = loc_Exact <->
   loc_of_shr_record r = loc_Exact /\ shr_m r mod 2 ^ Z.pos p = 0).
Proof.
  intros Hm. rewrite iter_pos_iter.
  induction p as [|p IH] using Pos.peano_ind.
  - simpl Pos.iter. change (2 ^ 1) with 2. now apply shr_1_spec.
  - rewrite Pos.iter_succ. destruct IH as [IHm IHl].
    assert (Hpos : 0 < 2 ^ Z.pos p) by (apply Z.pow_pos_nonneg; lia).
    assert (Hm' : 0 <= shr_m (Pos.iter shr_1 r p)).
    { rewrite IHm. apply Z.div_pos; lia. }
    destruct (shr_1_spec _ Hm') as [Sm Sl].
    rewrite Pos2Z.inj_succ. unfold Z.succ. split.
    + rewrite Sm, IHm, Z.pow_add_r by lia. change (2 ^ 1) with 2.
      rewrite Z.div_div by lia. reflexivity.
    + rewrite Sl, IHl, IHm. rewrite (mod_pow2_succ (shr_m r) (Z.pos p)) by lia. tauto.
Qed.

Lemma shr_fexp_spec (m e : Z) (l : location) :
  0 <= m ->
  let '(r, e') := shr_fexp Number.prec Number.emax m e l in
  e' = Z.max e (fexp Number.prec Number.emax (Zdigits2 m + e)) /\
  shr_m r = m / 2 ^ (e' - e) /\
  (loc_of_shr_record r = loc_Exact <-> l = loc_Exact /\ m mod 2 ^ (e' - e) = 0).
Proof.
  intros Hm. unfold shr_fexp, shr.
  destruct (loc_of_shr_record_of_loc m l) as [Hl Hr].
  destruct (fexp Number.prec Number.emax (Zdigits2 m + e) - e) as [|p|p] eqn:Hn.
  - replace (Z.max e _) with e by lia. rewrite Z.sub_diag. simpl.
    rewrite Hl, Hr, Z.div_1_r, Z.mod_1_r. tauto.
  - replace (Z.max e _) with (e + Z.pos p) by lia.
    replace (e + Z.pos p - e) with (Z.pos p) by lia.
    destruct (iter_shr_1_spec p (shr_record_of_loc m l)) as [Im Il]; [rewrite Hr; lia|].
    rewrite Hr, Hl in *. auto.
  - replace (Z.max e _) with e by lia. rewrite Z.sub_diag. simpl.
    rewrite Hl, Hr, Z.div_1_r, Z.mod_1_r. tauto.
Qed.

Lemma fexp_le (d E : Z) :
  -1074 <= E -> d - 53 <= E -> fexp Number.prec Number.emax d <= E.
Proof. unfold fexp, SpecFloat.emin, Number.prec, Number.emax. lia. Qed.

Lemma pow2_split (a b : Z) : 0 <= a -> 0 <= b -> 2 ^ (a + b) = 2 ^ a * 2 ^ b.
Proof. intros. now apply Z.pow_add_r. Qed.

Lemma pow2_pos (a : Z) : 0 <= a -> 0 < 2 ^ a.
Proof. intros. apply Z.pow_pos_nonneg; lia. Qed.

(** Bounds that are multiples of the unit in the last place survive the
    truncation step of rounding. *)
Lemma shr_fexp_between (L K E m e : Z) (l : location) :
  0 < K < 2 ^ 53 -> 0 <= L -> -1074 <= E -> 0 <= m -> e <= E ->
  L * 2 ^ (E - e) <= m <= K * 2 ^ (E - e) ->
  (l <> loc_Exact -> m < K * 2 ^ (E - e)) ->
  let '(r, e') := shr_fexp Number.prec Number.emax m e l in
  e' <= E /\ L * 2 ^ (E - e') <= shr_m r <= K * 2 ^ (E - e') /\
  (loc_of_shr_record r <> loc_Exact -> shr_m r < K * 2 ^ (E - e')).
Proof.
  intros HK HL HE Hm He Hle Hlt.
  pose proof (shr_fexp_spec m e l Hm) as Hspec.
  destruct (shr_fexp Number.prec Number.emax m e l) as [r e'].
  destruct Hspec as (He' & Hr & Hloc).
  assert (Hpe : 0 < 2 ^ (E - e)) by (apply pow2_pos; lia).
  assert (Hdig : Zdigits2 m <= 53 + (E - e)).
  { apply Zdigits2_bound; [lia | lia |].
    rewrite pow2_split by lia. nia. }
  assert (Hfexp : fexp Number.prec Number.emax (Zdigits2 m + e) <= E)
    by (apply fexp_le; lia).
  assert (He'E : e' <= E) by lia.
  assert (Hk : 0 <= e' - e) by lia.
  assert (Hsplit : 2 ^ (E - e) = 2 ^ (E - e') * 2 ^ (e' - e)).
  { rewrite <- pow2_split by lia. f_equal. lia. }
  pose proof (pow2_pos (E - e') ltac:(lia)) as HP.
  pose proof (pow2_pos (e' - e) Hk) as HQ.
  set (P := 2 ^ (E - e')) in *. set (Q := 2 ^ (e' - e)) in *.
  rewrite Hsplit in Hle, Hlt.
  pose proof (Z.div_mod m Q ltac:(lia)) as Hdm.
  pose proof (Z.mod_pos_bound m Q HQ) as Hmod.
  rewrite <- Hr in Hdm.
  split; [assumption|].
  assert (Hup : shr_m r <= K * P) by nia.
  assert (Hlow : L * P <= shr_m r) by nia.
  split; [lia|].
  intros Hne. destruct (Z.lt_ge_cases (shr_m r) (K * P)) as [|Hge]; [assumption|].
  exfalso. apply Hne. apply Hloc.
  assert (m mod Q = 0) by nia.
  split; [|assumption].
  destruct l as [|c]; [reflexivity|].
  assert (m < K * (P * Q)) by (apply Hlt; discriminate). nia.
Qed.

Lemma round_nearest_even_spec (m : Z) (l : location) :
  m <= round_nearest_even m l <= m + 1 /\
  (l = loc_Exact -> round_nearest_even m l = m).
Proof.
  destruct l as [|[]]; cbn [round_nearest_even]; try destruct (Z.even m);
    split; try lia; try reflexivity; discriminate.
Qed.

(** Rounding to nearest keeps a value between two bounds [L * 2^E] and
    [K * 2^E] that are doubles themselves. *)
Lemma binary_round_aux_between (s : bool) (L K E mx ex : Z) (lx : location) :
  0 < K < 2 ^ 53 -> 0 <= L -> -1074 <= E <= 971 -> 0 <= mx -> ex <= E ->
  L * 2 ^ (E - ex) <= mx <= K * 2 ^ (E - ex) ->
  (lx <> loc_Exact -> mx < K * 2 ^ (E - ex)) ->
  (binary_round_aux Number.prec Number.emax s mx ex lx = S754_zero s /\ L = 0) \/
  exists m e,
    binary_round_aux Number.prec Number.emax s mx ex lx = S754_finite s m e /\
    e <= E /\ L * 2 ^ (E - e) <= Z.pos m <= K * 2 ^ (E - e).
Proof.
  intros HK HL HE Hm He Hle Hlt. unfold binary_round_aux.
  pose proof (shr_fexp_between L K E mx ex lx HK HL ltac:(lia) Hm He Hle Hlt) as H1.
  destruct (shr_fexp Number.prec Number.emax mx ex lx) as [r1 e1].
  destruct H1 as (He1 & Hle1 & Hlt1).
  pose proof (pow2_pos (E - e1) ltac:(lia)) as HP1.
  destruct (round_nearest_even_spec (shr_m r1) (loc_of_shr_record r1)) as [Hrne Hexact].
  assert (Hle2 : L * 2 ^ (E - e1)
                 <= round_nearest_even (shr_m r1) (loc_of_shr_record r1)
                 <= K * 2 ^ (E - e1)).
  { split; [lia|]. destruct (loc_of_shr_record r1) as [|c] eqn:Hl.
    - rewrite Hexact by reflexivity. lia.
    - assert (shr_m r1 < K * 2 ^ (E - e1)) by (apply Hlt1; discriminate). lia. }
  pose proof (shr_fexp_between L K E
                (round_nearest_even (shr_m r1) (loc_of_shr_record r1)) e1 loc_Exact
                HK HL ltac:(lia) ltac:(nia) He1 Hle2) as H2.
  destruct (shr_fexp Number.prec Number.emax
              (round_nearest_even (shr_m r1) (loc_of_shr_record r1)) e1 loc_Exact)
    as [r2 e2].
  destruct H2 as (He2 & Hle3 & _); [intros Hc; now elim Hc|].
  pose proof (pow2_pos (E - e2) ltac:(lia)) as HP2.
  destruct (shr_m r2) as [|m|m] eqn:Hm2.
  - left. split; [reflexivity | nia].
  - right. exists m, e2.
    replace (e2 <=? Number.emax - Number.prec) with true
      by (symmetry; apply Z.leb_le; unfold Number.emax, Number.prec; lia).
    auto.
  - nia.
Qed.

Lemma iter_xO_pow2 (m d : positive) : Z.pos (Pos.iter xO m d) = Z.pos m * 2 ^ Z.pos d.
Proof.
  induction d as [|d IH] using Pos.peano_ind.
  - simpl. lia.
  - rewrite Pos.iter_succ, Pos2Z.inj_xO, IH, Pos2Z.inj_succ.
    unfold Z.succ. rewrite pow2_split by lia. change (2 ^ 1) with 2. lia.
Qed.

Lemma binary_round_aux_exact (s : bool) (m : positive) (e : Z) :
  Zdigits2 (Z.pos m) = 53 -> -1074 <= e <= 971 ->
  binary_round_aux Number.prec Number.emax s (Z.pos m) e loc_Exact = S754_finite s m e.
Proof.
  intros Hd He.
  assert (Hshr : shr_fexp Number.prec Number.emax (Z.pos m) e loc_Exact =
                 ({| shr_m := Z.pos m; shr_r := false; shr_s := false |}, e)).
  { unfold shr_fexp. rewrite Hd.
    replace (fexp Number.prec Number.emax (53 + e) - e) with 0
      by (unfold fexp, SpecFloat.emin, Number.prec, Number.emax; lia).
    reflexivity. }
  unfold binary_round_aux. rewrite Hshr. cbn [shr_m loc_of_shr_record round_nearest_even].
  rewrite Hshr. cbn [shr_m].
  replace (e <=? Number.emax - Number.prec) with true
    by (symmetry; apply Z.leb_le; unfold Number.emax, Number.prec; lia).
  reflexivity.
Qed.

(** The double of an integer below 2^53 is that integer, with a mantissa
    of 53 digits. *)
Lemma of_Z_finite (z : Z) :
  0 < z < 2 ^ 53 ->
  exists m e,
    Number.of_Z z = S754_finite false m e /\
    -52 <= e <= 0 /\ Z.pos m = z * 2 ^ (- e) /\ Zdigits2 (Z.pos m) = 53.
Proof.
  intros Hz. destruct z as [|p|p]; try lia.
  unfold Number.of_Z, binary_normalize, binary_round.
  assert (Hd : 1 <= Z.pos (digits2_pos p) <= 53).
  { change (Z.pos (digits2_pos p)) with (Zdigits2 (Z.pos p)).
    split; [rewrite Zdigits2_log2 by lia; pose proof (Z.log2_nonneg (Z.pos p)); lia|].
    apply Zdigits2_bound; lia. }
  replace (fexp Number.prec Number.emax (Z.pos (digits2_pos p) + 0))
    with (Z.pos (digits2_pos p) - 53)
    by (unfold fexp, SpecFloat.emin, Number.prec, Number.emax; lia).
  unfold shl_align. rewrite Z.sub_0_r.
  destruct (Z.pos (digits2_pos p) - 53) as [|q|q] eqn:Hq; try lia.
  - exists p, 0. rewrite binary_round_aux_exact; [|simpl; lia|lia].
    repeat split; try lia. simpl. lia.
  - assert (Hval : Z.pos (Pos.iter xO p q) = Z.pos p * 2 ^ Z.pos q)
      by apply iter_xO_pow2.
    assert (Hdig : Zdigits2 (Z.pos (Pos.iter xO p q)) = 53).
    { rewrite Zdigits2_log2 by lia. rewrite Hval.
      rewrite Z.log2_mul_pow2 by lia.
      change (Z.pos (digits2_pos p)) with (Zdigits2 (Z.pos p)) in Hq.
      rewrite Zdigits2_log2 in Hq by lia. lia. }
    exists (Pos.iter xO p q), (Z.neg q).
    rewrite binary_round_aux_exact; [|assumption|lia].
    repeat split; try lia. rewrite Hval. reflexivity.
Qed.

(** completed / total between two doubles [L * 2^(s-52)] and
    [K * 2^(s-52)], for a quotient of at most [2^s]. *)
Lemma div_between (s c t L K : Z) :
  0 <= s <= 45 -> 0 < c -> 0 < t -> c <= 2 ^ s * t -> c < 2 ^ 53 -> t < 2 ^ 53 ->
  0 <= L -> 0 < K < 2 ^ 53 ->
  L * t <= c * 2 ^ (52 - s) <= K * t ->
  (Number.div (Number.of_Z c) (Number.of_Z t) = S754_zero false /\ L = 0) \/
  exists m e,
    Number.div (Number.of_Z c) (Number.of_Z t) = S754_finite false m e /\
    e <= s - 52 /\ L * 2 ^ (s - 52 - e) <= Z.pos m <= K * 2 ^ (s - 52 - e).
Proof.
  intros Hs Hc Ht Hct Hc53 Ht53 HL HK Hbounds.
  destruct (of_Z_finite c ltac:(lia)) as (mc & ec & -> & Hec & Hmc & Hdc).
  destruct (of_Z_finite t ltac:(lia)) as (mt & et & -> & Het & Hmt & Hdt).
  pose proof (pow2_pos (- ec) ltac:(lia)) as Hpc.
  pose proof (pow2_pos (- et) ltac:(lia)) as Hpt.
  pose proof (pow2_pos s ltac:(lia)) as Hps.
  assert (Hbc : 2 ^ 52 <= Z.pos mc < 2 ^ 53).
  { rewrite Zdigits2_log2 in Hdc by lia.
    pose proof (Z.log2_spec (Z.pos mc) ltac:(lia)) as Hl.
    replace (Z.log2 (Z.pos mc)) with 52 in Hl by lia. exact Hl. }
  assert (Hbt : 2 ^ 52 <= Z.pos mt < 2 ^ 53).
  { rewrite Zdigits2_log2 in Hdt by lia.
    pose proof (Z.log2_spec (Z.pos mt) ltac:(lia)) as Hl.
    replace (Z.log2 (Z.pos mt)) with 52 in Hl by lia. exact Hl. }
  assert (Hexp : ec <= et + s).
  { destruct (Z.le_gt_cases ec (et + s)) as [|Hgt]; [assumption|exfalso].
    assert (Hsplit : 2 ^ (- et) = 2 ^ (- ec) * (2 ^ s * 2 ^ (ec - et - s))).
    { rewrite <- !pow2_split by lia. f_equal. lia. }
    assert (H2 : 2 <= 2 ^ (ec - et - s)).
    { change 2 with (2 ^ 1) at 1. apply Z.pow_le_mono_r; lia. }
    assert (Hmt2 : Z.pos mt = (2 ^ s * t) * 2 ^ (- ec) * 2 ^ (ec - et - s))
      by (rewrite Hmt, Hsplit; ring).
    assert (Hge : Z.pos mc * 2 <= Z.pos mt).
    { rewrite Hmt2, Hmc.
      assert (H1 : c * 2 ^ (- ec) <= 2 ^ s * t * 2 ^ (- ec))
        by (apply Z.mul_le_mono_nonneg_r; lia).
      assert (H0 : 0 <= c * 2 ^ (- ec)) by (apply Z.mul_nonneg_nonneg; lia).
      set (U := c * 2 ^ (- ec)) in *. set (V := 2 ^ s * t * 2 ^ (- ec)) in *.
      set (W := 2 ^ (ec - et - s)) in *. nia. }
    change (2 ^ 52) with 4503599627370496 in *.
    change (2 ^ 53) with 9007199254740992 in *. lia. }
  unfold Number.div, SFdiv, SFdiv_core_binary. rewrite Hdc, Hdt.
  replace (Z.min (fexp Number.prec Number.emax (53 + ec - (53 + et))) (ec - et))
    with (ec - et - 53)
    by (unfold fexp, SpecFloat.emin, Number.prec, Number.emax; lia).
  replace (ec - et - (ec - et - 53)) with 53 by lia.
  cbv iota.
  pose proof (Z_div_mod (Z.shiftl (Z.pos mc) 53) (Z.pos mt) ltac:(lia)) as Hdiv.
  destruct (Z.div_eucl (Z.shiftl (Z.pos mc) 53) (Z.pos mt)) as [q r].
  destruct Hdiv as [Hq Hr]. rewrite Z.shiftl_mul_pow2 in Hq by lia.
  set (e' := ec - et - 53) in *.
  assert (He' : e' <= s - 52) by (unfold e'; lia).
  (* everything over the common factor X = 2^(s + 1 - ec) *)
  set (D := 2 ^ (s - 52 - e')).
  pose proof (pow2_pos (s - 52 - e') ltac:(lia)) as HD. fold D in HD.
  set (X := 2 ^ (s + 1 - ec)).
  pose proof (pow2_pos (s + 1 - ec) ltac:(lia)) as HX. fold X in HX.
  assert (HmtD : Z.pos mt * D = t * X).
  { rewrite Hmt. unfold D, X, e'. rewrite <- Z.mul_assoc, <- pow2_split by lia.
    do 2 f_equal. lia. }
  assert (Hmc53 : Z.pos mc * 2 ^ 53 = c * 2 ^ (52 - s) * X).
  { rewrite Hmc. unfold X. rewrite <- !Z.mul_assoc, <- !pow2_split by lia.
    do 2 f_equal. lia. }
  assert (Hlow : L * D * Z.pos mt <= Z.pos mc * 2 ^ 53).
  { replace (L * D * Z.pos mt) with (L * (Z.pos mt * D)) by ring.
    rewrite HmtD, Hmc53. replace (L * (t * X)) with (L * t * X) by ring.
    apply Z.mul_le_mono_nonneg_r; lia. }
  assert (Hup : Z.pos mc * 2 ^ 53 <= K * D * Z.pos mt).
  { replace (K * D * Z.pos mt) with (K * (Z.pos mt * D)) by ring.
    rewrite HmtD, Hmc53. replace (K * (t * X)) with (K * t * X) by ring.
    apply Z.mul_le_mono_nonneg_r; lia. }
  assert (Hq0 : 0 <= q) by nia.
  assert (HLq : L * D <= q) by nia.
  assert (HqK : q <= K * D) by nia.
  assert (HqK' : r <> 0 -> q < K * D) by nia.
  apply (binary_round_aux_between (xorb false false) L K (s - 52) q e').
  - assumption.
  - assumption.
  - lia.
  - assumption.
  - lia.
  - fold D. lia.
  - intros Hne. fold D. apply HqK'. intros ->. apply Hne.
    unfold new_location, new_location_even, new_location_odd.
    now destruct (Z.even (Z.pos mt)).
Qed.

Lemma of_Z_100 : Number.of_Z 100 = S754_finite false 7036874417766400 (-46).
Proof. reflexivity. Qed.

(** A quotient between [L * 2^(s-52)] and [K * 2^(s-52)], times 100, lies
    between [L' * 2^(s-46)] and [K' * 2^(s-46)] when these bound the exact
    products. *)
Lemma mul_100_between (s : Z) (m : positive) (e L K L' K' : Z) :
  0 <= s <= 45 ->
  e <= s - 52 -> L * 2 ^ (s - 52 - e) <= Z.pos m <= K * 2 ^ (s - 52 - e) ->
  0 <= L' -> 0 < K' < 2 ^ 53 ->
  L' * 2 ^ 52 <= L * 7036874417766400 -> K * 7036874417766400 <= K' * 2 ^ 52 ->
  (Number.mul (S754_finite false m e) (Number.of_Z 100) = S754_zero false /\ L' = 0) \/
  exists m' e',
    Number.mul (S754_finite false m e) (Number.of_Z 100) = S754_finite false m' e' /\
    e' <= s - 46 /\ L' * 2 ^ (s - 46 - e') <= Z.pos m' <= K' * 2 ^ (s - 46 - e').
Proof.
  intros Hs He Hm HL' HK' Hlow Hup. rewrite of_Z_100. unfold Number.mul, SFmul.
  rewrite Pos2Z.inj_mul.
  pose proof (pow2_pos (s - 52 - e) ltac:(lia)) as Hp.
  assert (Hsplit : 2 ^ (s - 46 - (e + -46)) = 2 ^ 52 * 2 ^ (s - 52 - e)).
  { rewrite <- pow2_split by lia. f_equal. lia. }
  change (2 ^ 52) with 4503599627370496 in *.
  apply (binary_round_aux_between (xorb false false) L' K' (s - 46)
           (Z.pos m * 7036874417766400) (e + -46)).
  - assumption.
  - assumption.
  - lia.
  - lia.
  - lia.
  - rewrite Hsplit. split; nia.
  - intros Hne. now elim Hne.
Qed.

(** [Math.round] of a double between [lo - 1/2] and just below
    [hi + 1/2]. *)
Lemma round_between (s : Z) (m : positive) (e L' K' lo hi : Z) :
  0 <= s <= 45 ->
  e <= s - 46 -> L' * 2 ^ (s - 46 - e) <= Z.pos m <= K' * 2 ^ (s - 46 - e) ->
  (2 * lo - 1) * 2 ^ (45 - s) <= L' -> K' <= (2 * hi + 1) * 2 ^ (45 - s) - 1 ->
  exists z, Number.round (S754_finite false m e) = Number.of_Z z /\ lo <= z <= hi.
Proof.
  intros Hs He Hm Hlo Hhi. exists (Number.round_half_up false m e). split.
  - unfold Number.round. destruct (Z.leb_spec 0 e); [lia | reflexivity].
  - unfold Number.round_half_up.
    pose proof (pow2_pos (s - 46 - e) ltac:(lia)) as Hp.
    pose proof (pow2_pos (45 - s) ltac:(lia)) as Hq.
    assert (Hsplit : 2 ^ (- e) = 2 * (2 ^ (45 - s) * 2 ^ (s - 46 - e))).
    { rewrite <- pow2_split by lia. change 2 with (2 ^ 1) at 2.
      rewrite <- pow2_split by lia. f_equal. lia. }
    assert (Hsplit' : 2 ^ (- e + 1) = 2 * 2 ^ (- e)).
    { rewrite pow2_split by lia. change (2 ^ 1) with 2. lia. }
    rewrite Hsplit', Hsplit.
    set (P := 2 ^ (s - 46 - e)) in *. set (Q := 2 ^ (45 - s)) in *.
    assert (Hl : (2 * lo - 1) * Q * P <= Z.pos m).
    { apply Z.le_trans with (L' * P); [|lia].
      apply Z.mul_le_mono_nonneg_r; lia. }
    assert (Hu : Z.pos m <= ((2 * hi + 1) * Q - 1) * P).
    { apply Z.le_trans with (K' * P); [lia|].
      apply Z.mul_le_mono_nonneg_r; lia. }
    assert (HQP : 0 < Q * P) by (apply Z.mul_pos_pos; lia).
    split.
    + apply Z.div_le_lower_bound; [lia | nia].
    + apply Z.lt_succ_r. apply Z.div_lt_upper_bound; [lia | nia].
Qed.

Lemma of_nat_0 : Number.of_nat 0 = S754_zero false.
Proof. reflexivity. Qed.

(** The arithmetic of [getCompletionPercentage] for a positive [total] and
    a quotient of at most [2^s]: if 100 * completed / total lies strictly
    between [lo - 1/2] and [hi + 1/2], the result is an integer between
    [lo] and [hi]. *)
Lemma percentage_between_scaled (s : Z) (completed total : nat) (lo hi : Z) :
  0 <= s <= 33 ->
  Z.of_nat completed <= 2 ^ s * Z.of_nat total -> 2 ^ s * Z.of_nat total <= 2 ^ 33 ->
  (0 < total)%nat ->
  0 <= lo <= hi -> hi <= 100 * 2 ^ s ->
  200 * Z.of_nat completed < (2 * hi + 1) * Z.of_nat total ->
  (lo = 0 \/ (2 * lo - 1) * Z.of_nat total < 200 * Z.of_nat completed) ->
  exists z,
    Number.round
      (Number.mul (Number.div (Number.of_nat completed) (Number.of_nat total))
                  (Number.of_Z 100)) = Number.of_Z z /\
    lo <= z <= hi.
Proof.
  intros Hs Hle Hbound Hpos Hlohi Hhi Hup Hlow.
  assert (Hzero : lo = 0 -> exists z,
             Number.round (Number.mul (S754_zero false) (Number.of_Z 100))
             = Number.of_Z z /\ lo <= z <= hi)
    by (intros ->; exists 0; split; [reflexivity | lia]).
  pose proof (pow2_pos s ltac:(lia)) as HS.
  pose proof (pow2_pos (45 - s) ltac:(lia)) as HQ.
  assert (HSQ : 2 ^ s * 2 ^ (45 - s) = 2 ^ 45)
    by (rewrite <- pow2_split by lia; f_equal; lia).
  assert (H52 : 2 ^ (52 - s) = 128 * 2 ^ (45 - s)).
  { change 128 with (2 ^ 7). rewrite <- pow2_split by lia. f_equal. lia. }
  change (2 ^ 33) with 8589934592 in Hbound.
  change (2 ^ 45) with 35184372088832 in HSQ.
  set (S := 2 ^ s) in *. set (Q := 2 ^ (45 - s)) in *.
  set (tz := Z.of_nat total) in *.
  assert (Htz : 0 < tz) by (unfold tz; lia).
  assert (HtQ : 4096 * tz <= Q) by nia.
  assert (HQ45 : Q <= 35184372088832) by nia.
  destruct completed as [|c].
  - rewrite of_nat_0.
    destruct (of_Z_finite tz) as (mt & et & Ht & _);
      [change (2 ^ 53) with 9007199254740992; nia|].
    unfold Number.of_nat at 1. fold tz. rewrite Ht. apply Hzero.
    destruct Hlow as [|Hlow]; [assumption | simpl in Hlow; nia].
  - unfold Number.of_nat. fold tz.
    set (cz := Z.of_nat (Datatypes.S c)) in *.
    assert (Hc : 0 < cz) by (unfold cz; lia).
    set (K' := (2 * hi + 1) * Q - 1).
    set (L' := if Z.eqb lo 0 then 0 else (2 * lo - 1) * Q).
    set (K := K' * 16 / 25).
    set (L := (L' * 16 + 24) / 25).
    assert (HhiQ : hi * Q <= 100 * 35184372088832).
    { rewrite <- HSQ. replace (100 * (S * Q)) with (100 * S * Q) by ring.
      apply Z.mul_le_mono_nonneg_r; lia. }
    assert (HK' : 0 < K' < 2 ^ 53)
      by (unfold K'; change (2 ^ 53) with 9007199254740992; nia).
    assert (HL' : 0 <= L') by (unfold L'; destruct (Z.eqb_spec lo 0); nia).
    assert (HL'lo : (2 * lo - 1) * Q <= L').
    { unfold L'. destruct (Z.eqb_spec lo 0); nia. }
    assert (HKdiv : 25 * K <= K' * 16 < 25 * K + 25)
      by (unfold K; Z.div_mod_to_equations; lia).
    assert (HLdiv : 25 * L <= L' * 16 + 24 < 25 * L + 25)
      by (unfold L; Z.div_mod_to_equations; lia).
    assert (HK : 0 < K < 2 ^ 53)
      by (change (2 ^ 53) with 9007199254740992 in *; unfold K' in *; nia).
    assert (HL : 0 <= L) by lia.
    assert (Hcu : cz * 2 ^ (52 - s) <= K * tz).
    { rewrite H52.
      assert (H1 : 200 * cz * (16 * Q) <= ((2 * hi + 1) * tz - 1) * (16 * Q))
        by (apply Z.mul_le_mono_nonneg_r; lia).
      assert (H2 : (K' * 16 - 24) * tz <= 25 * K * tz)
        by (apply Z.mul_le_mono_nonneg_r; lia).
      unfold K' in H2. nia. }
    assert (Hcl : L * tz <= cz * 2 ^ (52 - s)).
    { rewrite H52.
      assert (H2 : 25 * L * tz <= (L' * 16 + 24) * tz)
        by (apply Z.mul_le_mono_nonneg_r; lia).
      unfold L' in H2. destruct (Z.eqb_spec lo 0) as [->|Hne].
      - assert (L = 0) by (unfold L, L'; reflexivity). nia.
      - destruct Hlow as [->|Hlow]; [congruence|].
        assert (H1 : ((2 * lo - 1) * tz + 1) * (16 * Q) <= 200 * cz * (16 * Q))
          by (apply Z.mul_le_mono_nonneg_r; lia).
        nia. }
    destruct (div_between s cz tz L K ltac:(lia) Hc Htz Hle
                ltac:(change (2 ^ 53) with 9007199254740992; nia)
                ltac:(change (2 ^ 53) with 9007199254740992; nia) HL HK
                (conj Hcl Hcu))
      as [[-> HL0]|(m & e & -> & He & Hm)].
    + apply Hzero. unfold L' in HLdiv. destruct (Z.eqb_spec lo 0); nia.
    + destruct (mul_100_between s m e L K L' K' ltac:(lia) He Hm HL' HK')
        as [[-> HL0]|(m' & e' & -> & He' & Hm')].
      * change (2 ^ 52) with 4503599627370496. lia.
      * change (2 ^ 52) with 4503599627370496. lia.
      * exists 0. split; [reflexivity|].
        unfold L' in HL0. destruct (Z.eqb_spec lo 0); nia.
      * apply (round_between s m' e' L' K'); try assumption; lia.
Qed.

(** The same for completed <= total. *)
Lemma percentage_between (completed total : nat) (lo hi : Z) :
  (completed <= total)%nat -> (0 < total)%nat -> Z.of_nat total < 2 ^ 32 ->
  0 <= lo <= hi -> hi <= 100 ->
  200 * Z.of_nat completed < (2 * hi + 1) * Z.of_nat total ->
  (lo = 0 \/ (2 * lo - 1) * Z.of_nat total < 200 * Z.of_nat completed) ->
  exists z,
    Number.round
      (Number.mul (Number.div (Number.of_nat completed) (Number.of_nat total))
                  (Number.of_Z 100)) = Number.of_Z z /\
    lo <= z <= hi.
Proof.
  intros Hle Hpos Hbound Hlohi Hhi Hup Hlow.
  change (2 ^ 32) with 4294967296 in Hbound.
  apply (percentage_between_scaled 0); try assumption;
    change (2 ^ 0) with 1; change (2 ^ 33) with 8589934592; lia.
Qed.

(** For completed <= total the percentage is an integer in [0,100]. *)
Lemma percentage_in_range (completed total : nat) :
  (completed <= total)%nat -> (0 < total)%nat -> Z.of_nat total < 2 ^ 32 ->
  exists z,
    Number.round
      (Number.mul (Number.div (Number.of_nat completed) (Number.of_nat total))
                  (Number.of_Z 100)) = Number.of_Z z /\
    0 <= z <= 100.
Proof.
  intros Hle Hpos Hbound.
  apply percentage_between; try assumption; try lia.
Qed.

(** A power of two that bounds completed / total from above and is less
    than twice as much. *)
Lemma quotient_scale (c t : Z) :
  0 <= c < 2 ^ 32 -> 0 < t < 2 ^ 32 ->
  exists s, 0 <= s <= 33 /\ c <= 2 ^ s * t /\ 2 ^ s * t <= 2 ^ 33.
Proof.
  intros Hc Ht. change (2 ^ 32) with 4294967296 in *.
  destruct (Z.le_gt_cases c t) as [Hle|Hgt].
  - exists 0. change (2 ^ 0) with 1. change (2 ^ 33) with 8589934592. lia.
  - set (q := (c - 1) / t).
    assert (Hq : q * t <= c - 1 < (q + 1) * t)
      by (unfold q; Z.div_mod_to_equations; nia).
    assert (Hq1 : 1 <= q) by nia.
    pose proof (Z.log2_spec q ltac:(lia)) as Hlog.
    pose proof (Z.log2_nonneg q) as Hnn.
    assert (Hsucc : 2 ^ Z.succ (Z.log2 q) = 2 * 2 ^ Z.log2 q)
      by (apply Z.pow_succ_r; assumption).
    assert (Hs33 : Z.log2 q < 32).
    { apply Z.log2_lt_pow2; [lia|]. change (2 ^ 32) with 4294967296. nia. }
    exists (Z.succ (Z.log2 q)).
    change (2 ^ 33) with 8589934592.
    set (P := 2 ^ Z.log2 q) in *. rewrite Hsucc.
    split; [lia|]. split; nia.
Qed.

(** The percentage against the spec's formula: equal unless
    100 * completed / total lies exactly halfway between two integers,
    where the code may answer the lower one. *)
Lemma percentage_against_spec (completed total : nat) :
  Z.of_nat completed < 2 ^ 32 -> (0 < total)%nat -> Z.of_nat total < 2 ^ 32 ->
  let p := Number.round
      (Number.mul (Number.div (Number.of_nat completed) (Number.of_nat total))
                  (Number.of_Z 100)) in
  let k := spec_percentage completed total in
  p = Number.of_Z k \/
  ((200 * Z.of_nat completed + Z.of_nat total) mod (2 * Z.of_nat total) = 0 /\
   p = Number.of_Z (k - 1)).
Proof.
  intros Hcb Hpos Hbound p k.
  assert (Hk : k = (200 * Z.of_nat completed + Z.of_nat total) / (2 * Z.of_nat total)).
  { unfold k, spec_percentage. destruct total; [lia | reflexivity]. }
  destruct (quotient_scale (Z.of_nat completed) (Z.of_nat total))
    as (s & Hs & Hcs & Hts); [lia | lia |].
  pose proof (pow2_pos s ltac:(lia)) as HS.
  set (cz := Z.of_nat completed) in *. set (tz := Z.of_nat total) in *.
  set (S := 2 ^ s) in *.
  assert (Hc : 0 <= cz) by (unfold cz; lia).
  assert (Ht : 0 < tz) by (unfold tz; lia).
  pose proof (Z.div_mod (200 * cz + tz) (2 * tz) ltac:(lia)) as Hdm.
  pose proof (Z.mod_pos_bound (200 * cz + tz) (2 * tz) ltac:(lia)) as Hmod.
  rewrite <- Hk in Hdm.
  set (r := (200 * cz + tz) mod (2 * tz)) in *.
  assert (Hkmax : 0 <= k <= 100 * S) by nia.
  assert (Hup : 200 * cz < (2 * k + 1) * tz) by nia.
  destruct (Z.eq_dec r 0) as [Htie|Hnot].
  - assert (Hlow : Z.max 0 (k - 1) = 0 \/
                   (2 * Z.max 0 (k - 1) - 1) * tz < 200 * cz).
    { destruct (Z.max_spec 0 (k - 1)) as [[Hlt ->]|[Hge ->]];
        [right; nia | now left]. }
    destruct (percentage_between_scaled s completed total (Z.max 0 (k - 1)) k
                Hs Hcs Hts Hpos ltac:(lia) ltac:(lia) Hup Hlow) as (z & Hz & Hzr).
    fold p in Hz. destruct (Z.eq_dec z k) as [->|Hne]; [now left|].
    right. split; [assumption|]. rewrite Hz. f_equal. lia.
  - left.
    assert (Hlow : k = 0 \/ (2 * k - 1) * tz < 200 * cz).
    { destruct (Z.eq_dec k 0); [now left | right; nia]. }
    destruct (percentage_between_scaled s completed total k k
                Hs Hcs Hts Hpos ltac:(lia) ltac:(lia) Hup Hlow) as (z & Hz & Hzr).
    fold p in Hz. rewrite Hz. f_equal. lia.
Qed.

(** ** The percentage *)

Lemma same_eq (x y : spec_float) : Number.same x y = true -> x = y.
Proof.
  destruct x as [s|s| |s m e], y as [s'|s'| |s' m' e']; simpl; try discriminate.
  - intros H. apply Bool.eqb_prop in H. now subst.
  - intros H. apply Bool.eqb_prop in H. now subst.
  - reflexivity.
  - rewrite !andb_true_iff. intros [[Hs Hm] He].
    apply Bool.eqb_prop in Hs. apply Pos.eqb_eq in Hm. apply Z.eqb_eq in He.
    now subst.
Qed.

(** The percentage depends on the two counts only. *)
Lemma getCompletionPercentage_counts (this this' : ProgressTracker) (env env' : Browser) :
  getCompletedStepsCount this = getCompletedStepsCount this' ->
  navItems env = navItems env' ->
  getCompletionPercentage this env = getCompletionPercentage this' env'.
Proof.
  intros Hc Hn. unfold getCompletionPercentage, getTotalSteps. now rewrite Hc, Hn.
Qed.

Lemma indexed_values (l : list jsval) : Object_values (indexed l) = l.
Proof.
  unfold Object_values, indexed.
  assert (H : forall (ks : list string), length ks = length l ->
                List.map snd (combine ks l) = l).
  { induction l as [|v l IH]; intros [|k ks] Hlen; simpl in *; try reflexivity;
      try discriminate. f_equal. apply IH. lia. }
  apply H. now rewrite length_map, length_seq.
Qed.

Lemma count_repeat_true (n : nat) :
  length (List.filter truthy (repeat (VBool true) n)) = n.
Proof. induction n; simpl; auto. Qed.

Lemma percentage_agrees_39 : percentage_agrees 39 = true.
Proof. vm_compute. reflexivity. Qed.

Lemma percentage_agrees_spec (n : nat) (this : ProgressTracker) (env : Browser) :
  percentage_agrees n = true ->
  (getCompletedStepsCount this <= navItems env)%nat -> (navItems env <= n)%nat ->
  getCompletionPercentage this env =
  Number.of_Z (spec_percentage (getCompletedStepsCount this) (navItems env)).
Proof.
  intros H Hle Hsmall.
  unfold percentage_agrees in H. rewrite forallb_forall in H.
  specialize (H (navItems env)). rewrite forallb_forall in H.
  assert (Ht : In (navItems env) (seq 0 (S n))) by (apply in_seq; lia).
  assert (Hc : In (getCompletedStepsCount this) (seq 0 (S (navItems env))))
    by (apply in_seq; lia).
  specialize (H Ht _ Hc). apply same_eq in H. rewrite <- H.
  apply getCompletionPercentage_counts; [|reflexivity].
  unfold getCompletedStepsCount at 2. cbn [progress].
  now rewrite indexed_values, count_repeat_true.
Qed.

Lemma percentage_small_page (this : ProgressTracker) (env : Browser) :
  (getCompletedStepsCount this <= navItems env)%nat -> (navItems env <= 39)%nat ->
  getCompletionPercentage this env =
  Number.of_Z (spec_percentage (getCompletedStepsCount this) (navItems env)).
Proof. apply percentage_agrees_spec. exact percentage_agrees_39. Qed.

(** C1, as the code has it.  [completedSteps] is the number of truthy
    entries of the ProgressRecord; nothing bounds it by [totalSteps], which
    is the number of markers on the page.  [percentage] is 0 when
    [totalSteps] is 0.  Otherwise it is [Math.round] of the double
    [(completedSteps / totalSteps) * 100].  For all counts below 2^32,
    [completedSteps] above [totalSteps] included, that is
    round(100 * completedSteps / totalSteps), except that where
    100 * completedSteps / totalSteps lies exactly halfway between two
    integers the code may answer the lower one.  When
    [completedSteps <= totalSteps] the percentage is an integer in [0,100],
    and on pages of at most 39 markers no such exception occurs. *)
Theorem percentage_spec (this : ProgressTracker) (env : Browser) :
  let s := getProgressSummary this env in
  completedSteps s = length (truthy_entries (progress this)) /\
  (totalSteps s = 0%nat -> percentage s = Number.of_Z 0) /\
  (Z.of_nat (completedSteps s) < 2 ^ 32 -> Z.of_nat (totalSteps s) < 2 ^ 32 ->
   percentage s = Number.of_Z (spec_percentage (completedSteps s) (totalSteps s)) \/
   ((200 * Z.of_nat (completedSteps s) + Z.of_nat (totalSteps s))
      mod (2 * Z.of_nat (totalSteps s)) = 0 /\
    percentage s
    = Number.of_Z (spec_percentage (completedSteps s) (totalSteps s) - 1))) /\
  ((completedSteps s <= totalSteps s)%nat -> Z.of_nat (totalSteps s) < 2 ^ 32 ->
   exists z, percentage s = Number.of_Z z /\ 0 <= z <= 100) /\
  ((completedSteps s <= totalSteps s)%nat -> (totalSteps s <= 39)%nat ->
   percentage s = Number.of_Z (spec_percentage (completedSteps s) (totalSteps s))).
Proof.
  cbn [getProgressSummary completedSteps totalSteps percentage]. unfold getTotalSteps.
  split; [|split; [|split; [|split]]].
  - unfold getCompletedStepsCount, truthy_entries, Object_values.
    induction (progress this) as [|[k v] p IH]; [reflexivity|].
    simpl. destruct (truthy v); simpl; now rewrite IH.
  - intros H0. unfold getCompletionPercentage, getTotalSteps. now rewrite H0.
  - intros Hcount Hbound. unfold getCompletionPercentage, getTotalSteps.
    destruct (navItems env) as [|n] eqn:Hn.
    + left. reflexivity.
    + cbn [Nat.ltb Nat.leb].
      apply percentage_against_spec; [assumption | lia | assumption].
  - intros Hle Hbound. unfold getCompletionPercentage, getTotalSteps.
    destruct (navItems env) as [|n] eqn:Hn.
    + exists 0. split; [reflexivity | lia].
    + cbn [Nat.ltb Nat.leb].
      apply percentage_in_range; [assumption | lia | assumption].
  - apply percentage_small_page.
Qed.

(** ** Saving *)

Lemma with_storage_same (env : Browser) : with_storage env (localStorage env) = env.
Proof. now destruct env. Qed.

Section Tracker.

Variable JSON_stringify : jsval -> completion string.

Lemma save_failed (this : StorageManager) (key : string) (data : jsval)
    (ls : LocalStorage) :
  fst (save JSON_stringify this key data ls) = false ->
  save JSON_stringify this key data ls = (false, ls).
Proof.
  unfold save. destruct (JSON_stringify data); [|reflexivity].
  destruct (setItem ls _ _); simpl; [discriminate | reflexivity].
Qed.

Lemma save_succeeded (this : StorageManager) (key : string) (data : jsval)
    (ls : LocalStorage) :
  fst (save JSON_stringify this key data ls) = true ->
  exists text,
    JSON_stringify data = Normal text /\
    ls_enabled ls = true /\
    save JSON_stringify this key data ls =
      (true, {| ls_enabled := true; ls_quota := ls_quota ls;
                ls_items := <[_getKey this key := text]> (ls_items ls) |}).
Proof.
  unfold save, setItem. destruct (JSON_stringify data) as [text|]; [|discriminate].
  destruct (ls_enabled ls); [|discriminate].
  destruct (N.leb _ _); [|discriminate].
  intros _. exists text. auto.
Qed.

Lemma saveProgress_failed (this : ProgressTracker) (env : Browser) :
  fst (saveProgress JSON_stringify this env) = false ->
  saveProgress JSON_stringify this env = (false, env).
Proof.
  unfold saveProgress.
  destruct (save _ _ _ _ _) as [saved ls] eqn:E. simpl. intros ->.
  pose proof (save_failed (storage this) (storageKey this) (VObj (progress this))
                (localStorage env)) as H.
  rewrite E in H. specialize (H eq_refl). inversion H.
  now rewrite with_storage_same.
Qed.

Lemma saveProgress_succeeded (this : ProgressTracker) (env : Browser) :
  fst (saveProgress JSON_stringify this env) = true ->
  exists env',
    saveProgress JSON_stringify this env = (true, env') /\
    persisted JSON_stringify this env' /\
    navItems env' = navItems env /\ dispatched env' = dispatched env /\
    clock env' = clock env.
Proof.
  unfold saveProgress.
  destruct (save _ _ _ _ _) as [saved ls] eqn:E. simpl. intros ->.
  pose proof (save_succeeded (storage this) (storageKey this) (VObj (progress this))
                (localStorage env)) as H.
  rewrite E in H. destruct (H eq_refl) as (text & Htext & _ & Hsave).
  inversion Hsave. subst ls.
  eexists. split; [reflexivity|]. repeat split; try reflexivity.
  exists text. split; [assumption|]. simpl. apply lookup_insert_eq.
Qed.


Lemma summary_storage (this : ProgressTracker) (env : Browser) (ls : LocalStorage) :
  getProgressSummary this (with_storage env ls) = getProgressSummary this env.
Proof. reflexivity. Qed.

Lemma summary_navItems (this : ProgressTracker) (env env' : Browser) :
  navItems env' = navItems env ->
  getProgressSummary this env' = getProgressSummary this env.
Proof.
  intros H. unfold getProgressSummary, getCompletionPercentage, getTotalSteps.
  now rewrite H.
Qed.

Lemma save_and_notify_spec (eventType : string) (detail : ActionDetail)
    (this : ProgressTracker) (env : Browser) :
  let '(saved, this', env') := save_and_notify JSON_stringify eventType detail this env in
  this' = this /\
  saved = fst (saveProgress JSON_stringify this env) /\
  navItems env' = navItems env /\
  (saved = true ->
     persisted JSON_stringify this env' /\
     dispatched env' =
       dispatched env ++ [ {| ev_name := "progress:" +:+ eventType;
                              ev_detail := detail;
                              ev_summary := getProgressSummary this env |} ]) /\
  (saved = false -> env' = env).
Proof.
  unfold save_and_notify.
  destruct (fst (saveProgress JSON_stringify this env)) eqn:E.
  - destruct (saveProgress_succeeded this env E) as (env1 & -> & Hp & Hn & Hd & Hc).
    split; [reflexivity|]. split; [reflexivity|]. split; [exact Hn|].
    split; [intros _; split | discriminate].
    + exact Hp.
    + unfold dispatchProgressEvent, with_event. simpl. rewrite Hd.
      now rewrite (summary_navItems this env env1 Hn).
  - rewrite (saveProgress_failed this env E).
    split; [reflexivity|]. split; [reflexivity|]. split; [reflexivity|].
    split; [discriminate | reflexivity].
Qed.

Lemma truthy_step (id : string) : id <> EmptyString -> truthy (step_value (Some id)) = true.
Proof. destruct id; [congruence | reflexivity]. Qed.

Lemma markStepCompleted_unfold (id : string) (this : ProgressTracker) (env : Browser) :
  id <> EmptyString ->
  markStepCompleted JSON_stringify (Some id) this env =
  save_and_notify JSON_stringify "step-completed" (StepDetail id)
    (with_progress this (js_set (progress this) id (VBool true))) env.
Proof.
  intros Hid. unfold markStepCompleted, save_and_notify.
  now rewrite (truthy_step id Hid).
Qed.

Lemma markStepIncomplete_unfold (id : string) (this : ProgressTracker) (env : Browser) :
  id <> EmptyString ->
  markStepIncomplete JSON_stringify (Some id) this env =
  save_and_notify JSON_stringify "step-incompleted" (StepDetail id)
    (with_progress this (own_delete id (progress this))) env.
Proof.
  intros Hid. unfold markStepIncomplete, save_and_notify.
  now rewrite (truthy_step id Hid).
Qed.

Lemma importProgress_guard (data : jsval) :
  negb (truthy data) || negb (String.eqb (typeof data) "object") = negb (object_shaped data).
Proof. destruct data as [| |[]|[]|[]| | |]; reflexivity. Qed.

Lemma importProgress_unfold (data : jsval) (this : ProgressTracker) (env : Browser) :
  object_shaped data = true ->
  importProgress JSON_stringify data this env =
  save_and_notify JSON_stringify "progress-imported" (DataDetail data)
    (with_progress this (spread (js_member data "progress"))) env.
Proof.
  intros Hobj. unfold importProgress. rewrite importProgress_guard, Hobj. reflexivity.
Qed.

Lemma js_set_get (o : jsobj) (k : string) (v : jsval) :
  own_get k (js_set o k v) = Some v \/
  (k = "__proto__" /\ js_set o k v = o /\ own_get k o = None).
Proof.
  unfold js_set. destruct (own_get k o) eqn:Hk.
  - left. apply own_get_replace. congruence.
  - destruct (String.eqb_spec k "__proto__").
    + right. auto.
    + left. rewrite own_get_define_own. now rewrite String.eqb_refl.
Qed.

Lemma js_set_present (o : jsobj) (k : string) (v : jsval) :
  own_get k o = Some v -> js_set o k v = o.
Proof. intros H. unfold js_set. rewrite H. now apply own_replace_same. Qed.

Lemma js_set_idem (o : jsobj) (k : string) (v : jsval) :
  js_set (js_set o k v) k v = js_set o k v.
Proof.
  destruct (js_set_get o k v) as [H|(Hk & Hsame & Hnone)].
  - now apply js_set_present.
  - rewrite Hsame. exact Hsame.
Qed.

Lemma with_progress_same (this : ProgressTracker) :
  with_progress this (progress this) = this.
Proof. now destruct this. Qed.

(** *** Marking and asking *)

Lemma markStepCompleted_then_isStepCompleted (id : string) (this : ProgressTracker)
    (env : Browser) :
  id <> EmptyString ->
  isStepCompleted (snd (fst (markStepCompleted JSON_stringify (Some id) this env))) id = true.
Proof.
  intros Hid. rewrite markStepCompleted_unfold by assumption.
  pose proof (save_and_notify_spec "step-completed" (StepDetail id)
                (with_progress this (js_set (progress this) id (VBool true))) env) as H.
  destruct (save_and_notify _ _ _ _ _) as [[saved this'] env']. simpl.
  destruct H as (-> & _). unfold isStepCompleted, js_get. simpl.
  destruct (js_set_get (progress this) id (VBool true)) as [->|(-> & -> & ->)];
    reflexivity.
Qed.

Lemma markStepIncomplete_then_isStepCompleted (id : string) (this : ProgressTracker)
    (env : Browser) :
  id <> EmptyString ->
  let this' := snd (fst (markStepIncomplete JSON_stringify (Some id) this env)) in
  own_get id (progress this') = None /\
  isStepCompleted this' id = truthy (prototype_get id).
Proof.
  intros Hid. rewrite markStepIncomplete_unfold by assumption.
  pose proof (save_and_notify_spec "step-incompleted" (StepDetail id)
                (with_progress this (own_delete id (progress this))) env) as H.
  destruct (save_and_notify _ _ _ _ _) as [[saved this'] env']. simpl.
  destruct H as (-> & _). unfold isStepCompleted, js_get. simpl.
  rewrite own_get_delete, String.eqb_refl. auto.
Qed.

(** C3, at the step identifier "constructor".  After
    [markStepIncomplete("constructor")] the ProgressRecord has no entry
    for it, and yet [isStepCompleted("constructor")] answers true: the
    lookup [this.progress[stepId]] falls through to the member that every
    plain object inherits. *)
Theorem markStepIncomplete_inherited_name (this : ProgressTracker) (env : Browser) :
  let this' := snd (fst (markStepIncomplete JSON_stringify (Some "constructor") this env)) in
  own_get "constructor" (progress this') = None /\
  isStepCompleted this' "constructor" = true.
Proof.
  apply (markStepIncomplete_then_isStepCompleted "constructor" this env).
  discriminate.
Qed.

(** C4. [markStepCompleted] with an absent or empty [stepId] returns
    false and changes nothing: the tracker with its ProgressRecord, the
    stored data and the list of dispatched events are as before. *)
Theorem markStepCompleted_missing_stepId (stepId : option string)
    (this : ProgressTracker) (env : Browser) :
  stepId = None \/ stepId = Some EmptyString ->
  markStepCompleted JSON_stringify stepId this env = (false, this, env).
Proof. intros [->| ->]; reflexivity. Qed.

(** C2, as the code has it.  When the write to storage fails,
    [markStepCompleted] and [markStepIncomplete] return false, dispatch
    nothing and leave the browser as it was, but the ProgressRecord in
    memory keeps the update: the step is set to true, respectively
    deleted. *)
Theorem mark_with_failing_write (id : string) (this : ProgressTracker) (env : Browser) :
  id <> EmptyString ->
  (let this' := with_progress this (js_set (progress this) id (VBool true)) in
   fst (saveProgress JSON_stringify this' env) = false ->
   markStepCompleted JSON_stringify (Some id) this env = (false, this', env)) /\
  (let this' := with_progress this (own_delete id (progress this)) in
   fst (saveProgress JSON_stringify this' env) = false ->
   markStepIncomplete JSON_stringify (Some id) this env = (false, this', env)).
Proof.
  intros Hid. split; intros this' Hfail.
  - rewrite markStepCompleted_unfold by assumption. fold this'.
    unfold save_and_notify. now rewrite (saveProgress_failed this' env Hfail).
  - rewrite markStepIncomplete_unfold by assumption. fold this'.
    unfold save_and_notify. now rewrite (saveProgress_failed this' env Hfail).
Qed.

(** C6, as the code has it.  For a non-empty [stepId] that an earlier
    [markStepCompleted] has marked, marking it again leaves the tracker
    and the summary as they are.  The call saves again; when the write
    succeeds the storage holds the record and one more
    [progress:step-completed] event has been dispatched, and when the
    write fails the call returns false and nothing is dispatched. *)
Theorem markStepCompleted_again (id : string) (this0 : ProgressTracker)
    (env0 env : Browser) :
  id <> EmptyString ->
  let this := snd (fst (markStepCompleted JSON_stringify (Some id) this0 env0)) in
  let '(saved, this', env') := markStepCompleted JSON_stringify (Some id) this env in
  this' = this /\
  getProgressSummary this' env' = getProgressSummary this env /\
  saved = fst (saveProgress JSON_stringify this env) /\
  (saved = true ->
     persisted JSON_stringify this env' /\
     dispatched env' =
       dispatched env ++ [ {| ev_name := "progress:step-completed";
                              ev_detail := StepDetail id;
                              ev_summary := getProgressSummary this env |} ]) /\
  (saved = false -> env' = env).
Proof.
  intros Hid.
  assert (Hfirst : snd (fst (markStepCompleted JSON_stringify (Some id) this0 env0)) =
                   with_progress this0 (js_set (progress this0) id (VBool true))).
  { rewrite markStepCompleted_unfold by assumption.
    pose proof (save_and_notify_spec "step-completed" (StepDetail id)
                  (with_progress this0 (js_set (progress this0) id (VBool true))) env0) as H.
    destruct (save_and_notify _ _ _ _ _) as [[saved1 this1] env1]. simpl. tauto. }
  rewrite Hfirst. clear Hfirst.
  set (this := with_progress this0 (js_set (progress this0) id (VBool true))).
  cbv zeta.
  rewrite markStepCompleted_unfold by assumption.
  assert (Hsame : with_progress this (js_set (progress this) id (VBool true)) = this).
  { unfold this at 2. simpl. rewrite js_set_idem. reflexivity. }
  rewrite Hsame.
  pose proof (save_and_notify_spec "step-completed" (StepDetail id) this env) as H.
  destruct (save_and_notify _ _ _ _ _) as [[saved this'] env'].
  destruct H as (-> & Hsaved & Hnav & Hok & Hfail).
  split; [reflexivity|]. split; [now apply summary_navItems|].
  split; [assumption|]. split; assumption.
Qed.

(** C7, as the code has it.  [importProgress] returns false and changes
    nothing when [data] is not object-shaped.  Otherwise the ProgressRecord
    becomes the spread copy of [data.progress]: empty when the field is
    missing, the same properties when it is a plain object.  The call then
    saves; when the write succeeds the storage holds the new record and
    [progress:progress-imported] is dispatched, and when the write fails
    the call returns false and nothing is dispatched. *)
Theorem importProgress_spec (data : jsval) (this : ProgressTracker) (env : Browser) :
  (object_shaped data = false ->
     importProgress JSON_stringify data this env = (false, this, env)) /\
  (object_shaped data = true ->
     let copy := with_progress this (spread (js_member data "progress")) in
     let '(saved, this', env') := importProgress JSON_stringify data this env in
     this' = copy /\
     saved = fst (saveProgress JSON_stringify copy env) /\
     (saved = true ->
        persisted JSON_stringify copy env' /\
        dispatched env' =
          dispatched env ++ [ {| ev_name := "progress:progress-imported";
                                 ev_detail := DataDetail data;
                                 ev_summary := getProgressSummary copy env |} ]) /\
     (saved = false -> env' = env)) /\
  (js_member data "progress" = VUndefined -> spread (js_member data "progress") = []) /\
  (forall p, js_member data "progress" = VObj p -> js_wf p = true ->
             spread (js_member data "progress") = p).
Proof.
  split; [|split; [|split]].
  - intros Hobj. unfold importProgress. now rewrite importProgress_guard, Hobj.
  - intros Hobj copy. rewrite importProgress_unfold by assumption. fold copy.
    pose proof (save_and_notify_spec "progress-imported" (DataDetail data) copy env) as H.
    destruct (save_and_notify _ _ _ _ _) as [[saved this'] env'].
    destruct H as (-> & Hsaved & Hnav & Hok & Hfail). auto.
  - intros ->. reflexivity.
  - intros p -> Hwf. now apply spread_id.
Qed.

(** C5, as the code has it.  For a tracker whose ProgressRecord is a
    plain object, importing the snapshot that [exportProgress] has just
    returned leaves the tracker and the summary unchanged, whatever the
    storage does; the call returns true exactly when the write to storage
    succeeds. *)
Theorem export_import_round_trip (this : ProgressTracker) (env : Browser) :
  js_wf (progress this) = true ->
  let '(saved, this', env') :=
    importProgress JSON_stringify (exportProgress this env) this env in
  this' = this /\
  getProgressSummary this' env' = getProgressSummary this env /\
  saved = fst (saveProgress JSON_stringify this env).
Proof.
  intros Hwf. rewrite importProgress_unfold by reflexivity.
  assert (Hcopy : with_progress this
                    (spread (js_member (exportProgress this env) "progress")) = this).
  { unfold exportProgress, js_member, js_get. simpl.
    rewrite (spread_id (progress this) Hwf), (spread_id (progress this) Hwf).
    apply with_progress_same. }
  rewrite Hcopy.
  pose proof (save_and_notify_spec "progress-imported"
                (DataDetail (exportProgress this env)) this env) as H.
  destruct (save_and_notify _ _ _ _ _) as [[saved this'] env'].
  destruct H as (-> & Hsaved & Hnav & _).
  split; [reflexivity|]. split; [now apply summary_navItems | assumption].
Qed.

(** *** The summary *)

Lemma wf_own_get (p : jsobj) (k : string) (v : jsval) :
  js_wf p = true -> In (k, v) p -> own_get k p = Some v.
Proof.
  unfold js_wf. induction p as [|[k' v'] p IH]; intros Hwf Hin; [destruct Hin|].
  change (Object_keys ((k', v') :: p)) with (k' :: Object_keys p) in Hwf.
  apply ordered_keys_cons in Hwf. destruct Hwf as (Hnot & _ & Hrest).
  simpl. destruct Hin as [Heq|Hin].
  - inversion Heq. now rewrite String.eqb_refl.
  - destruct (String.eqb_spec k k') as [->|Hne]; [|now apply IH].
    exfalso. apply Hnot. unfold Object_keys.
    change k' with (fst (k', v)). now apply in_map.
Qed.

Lemma completed_ids_entries (p l : jsobj) :
  (forall k v, In (k, v) l -> own_get k p = Some v) ->
  List.filter (fun stepId => truthy (js_get p stepId)) (Object_keys l) =
  Object_keys (truthy_entries l).
Proof.
  induction l as [|[k v] l IH]; intros Hown; [reflexivity|].
  simpl. unfold js_get at 1. rewrite (Hown k v) by now left.
  destruct (truthy v); simpl; rewrite IH; auto; intros; apply Hown; now right.
Qed.

Lemma completed_count_entries (p : jsobj) :
  length (List.filter truthy (Object_values p)) = length (truthy_entries p).
Proof.
  induction p as [|[k v] p IH]; [reflexivity|].
  simpl. destruct (truthy v); simpl; now rewrite IH.
Qed.

Lemma summary_consistent_now (this : ProgressTracker) (env : Browser) :
  js_wf (progress this) = true ->
  let s := getProgressSummary this env in
  completedSteps s = length (truthy_entries (progress this)) /\
  completedStepIds s = Object_keys (truthy_entries (progress this)) /\
  completedSteps s = length (completedStepIds s).
Proof.
  intros Hwf. simpl. unfold getCompletedStepsCount.
  rewrite completed_count_entries.
  rewrite (completed_ids_entries (progress this) (progress this))
    by (intros k v; now apply wf_own_get).
  repeat split. unfold Object_keys. now rewrite length_map.
Qed.

Lemma run_wf (op : operation) (this : ProgressTracker) (env : Browser) :
  js_wf (progress this) = true ->
  js_wf (progress (snd (fst (run JSON_stringify op this env)))) = true.
Proof.
  intros Hwf. destruct op as [[id|]|[id|]| |data]; cbn [run];
    try (simpl; assumption).
  - destruct (string_dec id EmptyString) as [->|Hid]; [assumption|].
    rewrite markStepCompleted_unfold by assumption.
    pose proof (save_and_notify_spec "step-completed" (StepDetail id)
                  (with_progress this (js_set (progress this) id (VBool true))) env) as H.
    destruct (save_and_notify _ _ _ _ _) as [[saved this'] env'].
    destruct H as (-> & _). simpl. now apply js_set_wf.
  - destruct (string_dec id EmptyString) as [->|Hid]; [assumption|].
    rewrite markStepIncomplete_unfold by assumption.
    pose proof (save_and_notify_spec "step-incompleted" (StepDetail id)
                  (with_progress this (own_delete id (progress this))) env) as H.
    destruct (save_and_notify _ _ _ _ _) as [[saved this'] env'].
    destruct H as (-> & _). simpl. now apply own_delete_wf.
  - change (resetProgress JSON_stringify this env)
      with (save_and_notify JSON_stringify "progress-reset" NoDetail
              (with_progress this []) env).
    pose proof (save_and_notify_spec "progress-reset" NoDetail
                  (with_progress this []) env) as H.
    destruct (save_and_notify _ _ _ _ _) as [[saved this'] env'].
    destruct H as (-> & _). reflexivity.
  - destruct (object_shaped data) eqn:Hobj.
    + rewrite importProgress_unfold by assumption.
      pose proof (save_and_notify_spec "progress-imported" (DataDetail data)
                    (with_progress this (spread (js_member data "progress"))) env) as H.
      destruct (save_and_notify _ _ _ _ _) as [[saved this'] env'].
      destruct H as (-> & _). simpl. apply spread_wf.
    + unfold importProgress. rewrite importProgress_guard, Hobj. assumption.
Qed.

(** C10.  After every operation on a tracker whose ProgressRecord is a
    plain object, the record is a plain object again and the summary is
    consistent: [completedSteps] counts the truthy entries of the record,
    [completedStepIds] lists the keys of exactly those entries, in their
    order, and [completedSteps] is the length of [completedStepIds]. *)
Theorem summary_consistent (op : operation) (this : ProgressTracker) (env : Browser) :
  js_wf (progress this) = true ->
  let '(_, this', env') := run JSON_stringify op this env in
  let s := getProgressSummary this' env' in
  js_wf (progress this') = true /\
  completedSteps s = length (truthy_entries (progress this')) /\
  completedStepIds s = Object_keys (truthy_entries (progress this')) /\
  completedSteps s = length (completedStepIds s).
Proof.
  intros Hwf. pose proof (run_wf op this env Hwf) as Hwf'.
  destruct (run JSON_stringify op this env) as [[saved this'] env']. simpl in Hwf'.
  split; [assumption|]. now apply summary_consistent_now.
Qed.

End Tracker.

(** ** The storage adapter *)

Section Adapter.

Variable JSON_parse : string -> completion jsval.

(** C8, as the code has it.  [load] returns the default value when
    storage is unavailable, when nothing is stored under the namespaced
    key, and when the stored text does not parse; the default is the
    argument, or null when the argument is undefined or left out.  [load]
    is a total function: in no case does an exception reach the caller. *)
Theorem load_default (this : StorageManager) (key : string) (defaultValue : jsval)
    (ls : LocalStorage) :
  ls_enabled ls = false \/
  ls_items ls !! _getKey this key = None \/
  (exists text, ls_items ls !! _getKey this key = Some text /\ JSON_parse text = Throw) ->
  load JSON_parse this key defaultValue ls = default_parameter defaultValue VNull /\
  (defaultValue <> VUndefined -> load JSON_parse this key defaultValue ls = defaultValue).
Proof.
  intros Hcase.
  assert (Hload : load JSON_parse this key defaultValue ls
                  = default_parameter defaultValue VNull).
  { unfold load, getItem. cbv zeta.
    destruct Hcase as [Hoff|[Habsent|(text & Hstored & Hcorrupt)]].
    - now rewrite Hoff.
    - destruct (ls_enabled ls); [now rewrite Habsent | reflexivity].
    - destruct (ls_enabled ls); [now rewrite Hstored, Hcorrupt | reflexivity]. }
  split; [exact Hload|].
  intros Hdef. rewrite Hload. destruct defaultValue; try reflexivity. congruence.
Qed.

Lemma load_stored (this : StorageManager) (key : string) (defaultValue v : jsval)
    (ls : LocalStorage) (text : string) :
  ls_enabled ls = true ->
  ls_items ls !! _getKey this key = Some text ->
  JSON_parse text = Normal v ->
  load JSON_parse this key defaultValue ls = v.
Proof. unfold load, getItem. now intros -> -> ->. Qed.

End Adapter.

Lemma remove_each_enabled (keys : list string) (ls : LocalStorage) :
  ls_enabled ls = true ->
  remove_each keys ls =
  (true, {| ls_enabled := true; ls_quota := ls_quota ls;
            ls_items := fold_left (fun m k => delete k m) keys (ls_items ls) |}).
Proof.
  revert ls. induction keys as [|k keys IH]; intros ls Hon; simpl.
  - destruct ls as [e q m]. simpl in Hon. now subst e.
  - unfold removeItem. rewrite Hon. now rewrite IH.
Qed.

Lemma lookup_delete_all (keys : list string) (m : gmap string string) (k : string) :
  fold_left (fun m k => delete k m) keys m !! k = None /\
  In k keys \/
  fold_left (fun m k => delete k m) keys m !! k = m !! k /\ ~ In k keys.
Proof.
  revert m. induction keys as [|k' keys IH]; intros m; simpl.
  - right. tauto.
  - destruct (IH (delete k' m)) as [[Hnone Hin]|[Hsame Hnot]].
    + left. tauto.
    + destruct (string_dec k' k) as [->|Hne].
      * left. rewrite Hsame, lookup_delete_eq. tauto.
      * right. rewrite Hsame, lookup_delete_ne by assumption. tauto.
Qed.

(** C9.  On available storage [clear] returns true and removes exactly the
    keys that start with the namespace followed by an underscore: every
    such key is absent afterwards, every other key holds what it held.  On
    unavailable storage it returns false and the storage is as before. *)
Theorem clear_namespace (this : StorageManager) (ls : LocalStorage) :
  (ls_enabled ls = true ->
     exists ls',
       clear this ls = (true, ls') /\
       ls_enabled ls' = true /\ ls_quota ls' = ls_quota ls /\
       forall k, ls_items ls' !! k =
                 if String.prefix (namespace this +:+ "_") k then None
                 else ls_items ls !! k) /\
  (ls_enabled ls = false -> clear this ls = (false, ls)).
Proof.
  unfold clear, storage_keys. split; intros Hon; rewrite Hon; [|reflexivity].
  rewrite remove_each_enabled by assumption.
  eexists. split; [reflexivity|]. simpl. split; [reflexivity|]. split; [reflexivity|].
  intros k.
  set (keys := List.filter _ _).
  destruct (lookup_delete_all keys (ls_items ls) k) as [[Hnone Hin]|[Hsame Hnot]].
  - rewrite Hnone. apply filter_In in Hin. destruct Hin as [_ ->]. reflexivity.
  - rewrite Hsame. destruct (String.prefix _ k) eqn:Hpre; [|reflexivity].
    destruct (ls_items ls !! k) as [v|] eqn:Hk; [|reflexivity].
    exfalso. apply Hnot. apply filter_In. split; [|assumption].
    apply in_map_iff. exists (k, v). split; [reflexivity|].
    apply list_elem_of_In. now apply elem_of_map_to_list.
Qed.



(** ** The statements above on concrete pages *)

Lemma markStepCompleted_missing_stepId_witness :
  (Some EmptyString = None \/ Some EmptyString = Some EmptyString) /\
  markStepCompleted SampleJSON.stringify (Some EmptyString)
    (tracker [("3", VBool true)]) (page open_storage 5)
  = (false, tracker [("3", VBool true)], page open_storage 5).
Proof.
  split; [right; reflexivity|].
  apply (markStepCompleted_missing_stepId SampleJSON.stringify (Some EmptyString)).
  right; reflexivity.
Defined.

Lemma mark_with_failing_write_witness :
  "a" <> EmptyString /\
  fst (saveProgress SampleJSON.stringify (tracker [("a", VBool true)])
         (page disabled_storage 5)) = false /\
  markStepCompleted SampleJSON.stringify (Some "a") (tracker []) (page disabled_storage 5)
  = (false, tracker [("a", VBool true)], page disabled_storage 5) /\
  fst (saveProgress SampleJSON.stringify (tracker []) (page disabled_storage 5)) = false /\
  markStepIncomplete SampleJSON.stringify (Some "a") (tracker [("a", VBool true)])
    (page disabled_storage 5)
  = (false, tracker [], page disabled_storage 5).
Proof.
  split; [discriminate|]. split; [vm_compute; reflexivity|].
  split; [|split; [vm_compute; reflexivity|]].
  - apply (mark_with_failing_write SampleJSON.stringify "a" (tracker [])
             (page disabled_storage 5)); [discriminate | vm_compute; reflexivity].
  - apply (mark_with_failing_write SampleJSON.stringify "a" (tracker [("a", VBool true)])
             (page disabled_storage 5)); [discriminate | vm_compute; reflexivity].
Defined.

(** C2 as stated fails: with storage unavailable [markStepCompleted("a")]
    reports the failure, and the ProgressRecord in memory has changed. *)
Lemma markStepCompleted_failing_write_changes_record :
  let this := tracker [] in
  let env := page disabled_storage 5 in
  let '(saved, this', _) := markStepCompleted SampleJSON.stringify (Some "a") this env in
  setItem (localStorage env) "mcp_progress" "{}" = Throw /\
  saved = false /\
  progress this' = [("a", VBool true)] /\
  progress this' <> progress this.
Proof. vm_compute. repeat split. discriminate. Qed.

(** C3 as stated fails at "constructor" on the empty record. *)
Lemma isStepCompleted_constructor_after_markStepIncomplete :
  let '(_, this', _) :=
    markStepIncomplete SampleJSON.stringify (Some "constructor") (tracker [])
      (page open_storage 5) in
  progress this' = [] /\ isStepCompleted this' "constructor" = true.
Proof. vm_compute. split; reflexivity. Qed.

Lemma export_import_round_trip_witness :
  let this := tracker [("3", VBool true); ("intro", VBool true)] in
  let env := page open_storage 5 in
  js_wf (progress this) = true /\
  let '(saved, this', env') :=
    importProgress SampleJSON.stringify (exportProgress this env) this env in
  this' = this /\
  getProgressSummary this' env' = getProgressSummary this env /\
  saved = fst (saveProgress SampleJSON.stringify this env).
Proof.
  split; [reflexivity|].
  apply (export_import_round_trip SampleJSON.stringify
           (tracker [("3", VBool true); ("intro", VBool true)]) (page open_storage 5)).
  reflexivity.
Defined.

(** C5 as stated fails: with storage unavailable the import of a fresh
    export returns false. *)
Lemma export_import_fails_without_storage :
  let this := tracker [("a", VBool true)] in
  let env := page disabled_storage 5 in
  fst (fst (importProgress SampleJSON.stringify (exportProgress this env) this env)) = false.
Proof. vm_compute. reflexivity. Qed.

Lemma markStepCompleted_again_witness :
  "3" <> EmptyString /\
  let this :=
    snd (fst (markStepCompleted SampleJSON.stringify (Some "3") (tracker [])
                (page open_storage 5))) in
  let env := page open_storage 5 in
  let '(saved, this', env') := markStepCompleted SampleJSON.stringify (Some "3") this env in
  this' = this /\
  getProgressSummary this' env' = getProgressSummary this env /\
  saved = fst (saveProgress SampleJSON.stringify this env) /\
  (saved = true ->
     persisted SampleJSON.stringify this env' /\
     dispatched env' =
       dispatched env ++ [ {| ev_name := "progress:step-completed";
                              ev_detail := StepDetail "3";
                              ev_summary := getProgressSummary this env |} ]) /\
  (saved = false -> env' = env).
Proof.
  split; [discriminate|].
  apply (markStepCompleted_again SampleJSON.stringify "3" (tracker [])
           (page open_storage 5) (page open_storage 5)).
  discriminate.
Defined.

(** C6 as stated fails: storage is unavailable, step "3" is marked in
    the ProgressRecord, and marking it again writes nothing and dispatches
    nothing. *)
Lemma markStepCompleted_again_without_storage :
  let env := page disabled_storage 5 in
  let this :=
    snd (fst (markStepCompleted SampleJSON.stringify (Some "3") (tracker []) env)) in
  let '(saved, this', env') := markStepCompleted SampleJSON.stringify (Some "3") this env in
  progress this = [("3", VBool true)] /\
  isStepCompleted this "3" = true /\
  this' = this /\
  saved = false /\
  dispatched env' = [] /\
  ls_items (localStorage env') !! "mcp_progress" = None.
Proof. vm_compute. repeat split. Qed.

Lemma importProgress_spec_witness :
  let data := VObj [("progress", VObj [("a", VBool true)])] in
  let this := tracker [("3", VBool true)] in
  let env := page open_storage 5 in
  object_shaped VNull = false /\
  importProgress SampleJSON.stringify VNull this env = (false, this, env) /\
  object_shaped data = true /\
  importProgress SampleJSON.stringify data this env
  = (true, tracker [("a", VBool true)],
     snd (importProgress SampleJSON.stringify data this env)) /\
  js_member (VObj []) "progress" = VUndefined /\
  spread (js_member (VObj []) "progress") = [].
Proof.
  cbv zeta.
  pose proof (importProgress_spec SampleJSON.stringify VNull
                (tracker [("3", VBool true)]) (page open_storage 5)) as (Hrej & _).
  pose proof (importProgress_spec SampleJSON.stringify (VObj [])
                (tracker [("3", VBool true)]) (page open_storage 5)) as (_ & _ & Hmiss & _).
  split; [reflexivity|]. split; [exact (Hrej eq_refl)|].
  split; [reflexivity|]. split; [vm_compute; reflexivity|].
  split; [reflexivity | exact (Hmiss eq_refl)].
Defined.

(** C7 as stated fails: an object-shaped [data] and unavailable storage;
    the record is replaced, nothing is persisted and nothing is
    dispatched. *)
Lemma importProgress_without_storage :
  let data := VObj [("progress", VObj [("a", VBool true)])] in
  let env := page disabled_storage 5 in
  let '(saved, this', env') := importProgress SampleJSON.stringify data (tracker []) env in
  object_shaped data = true /\
  saved = false /\
  progress this' = [("a", VBool true)] /\
  ls_items (localStorage env') !! "mcp_progress" = None /\
  dispatched env' = [].
Proof. vm_compute. repeat split. Qed.

Lemma load_default_witness :
  let this := {| namespace := "mcp" |} in
  ls_enabled disabled_storage = false /\
  load SampleJSON.parse this "progress" (VObj []) disabled_storage = VObj [] /\
  ls_items open_storage !! _getKey this "progress" = None /\
  load SampleJSON.parse this "progress" (VObj []) open_storage = VObj [] /\
  (exists text, ls_items corrupt_storage !! _getKey this "progress" = Some text /\
                SampleJSON.parse text = Throw) /\
  load SampleJSON.parse this "progress" (VObj []) corrupt_storage = VObj [] /\
  load SampleJSON.parse this "preference" VUndefined open_storage = VNull.
Proof.
  cbv zeta.
  assert (Hcorrupt : exists text,
             ls_items corrupt_storage !! _getKey {| namespace := "mcp" |} "progress"
             = Some text /\ SampleJSON.parse text = Throw).
  { exists "{oops". split; vm_compute; reflexivity. }
  split; [reflexivity|]. split.
  { apply (load_default SampleJSON.parse {| namespace := "mcp" |} "progress" (VObj [])
             disabled_storage); [left; reflexivity | discriminate]. }
  split; [vm_compute; reflexivity|]. split.
  { apply (load_default SampleJSON.parse {| namespace := "mcp" |} "progress" (VObj [])
             open_storage); [right; left; vm_compute; reflexivity | discriminate]. }
  split; [exact Hcorrupt|]. split.
  { apply (load_default SampleJSON.parse {| namespace := "mcp" |} "progress" (VObj [])
             corrupt_storage); [right; right; exact Hcorrupt | discriminate]. }
  apply (load_default SampleJSON.parse {| namespace := "mcp" |} "preference" VUndefined
           open_storage).
  right; left; vm_compute; reflexivity.
Defined.

(** C8 as stated fails at the default undefined: on unavailable storage,
    on an absent key and on a corrupt entry [load] answers null, which is
    not the default it was given. *)
Lemma load_undefined_default :
  let this := {| namespace := "mcp" |} in
  load SampleJSON.parse this "progress" VUndefined disabled_storage = VNull /\
  load SampleJSON.parse this "progress" VUndefined open_storage = VNull /\
  load SampleJSON.parse this "progress" VUndefined corrupt_storage = VNull /\
  VNull <> VUndefined.
Proof. cbv zeta. repeat split; try (vm_compute; reflexivity). discriminate. Qed.

Lemma clear_namespace_witness :
  let this := {| namespace := "mcp" |} in
  ls_enabled corrupt_storage = true /\
  (exists ls',
     clear this corrupt_storage = (true, ls') /\
     ls_items ls' !! "mcp_progress" = None /\
     ls_items ls' !! "theme_preference" = Some "light") /\
  ls_enabled disabled_storage = false /\
  clear this disabled_storage = (false, disabled_storage).
Proof.
  cbv zeta.
  destruct (clear_namespace {| namespace := "mcp" |} corrupt_storage) as [Hon _].
  destruct (clear_namespace {| namespace := "mcp" |} disabled_storage) as [_ Hoff].
  destruct (Hon eq_refl) as (ls' & Hclear & _ & _ & Hkeys).
  split; [reflexivity|]. split.
  - exists ls'. split; [exact Hclear|].
    split; rewrite Hkeys; vm_compute; reflexivity.
  - split; [reflexivity | exact (Hoff eq_refl)].
Defined.

Lemma summary_consistent_witness :
  let this := tracker [("a", VBool true); ("b", VBool false)] in
  let env := page open_storage 5 in
  js_wf (progress this) = true /\
  let '(_, this', env') :=
    run SampleJSON.stringify (MarkStepCompleted (Some "3")) this env in
  let s := getProgressSummary this' env' in
  js_wf (progress this') = true /\
  completedSteps s = length (truthy_entries (progress this')) /\
  completedStepIds s = Object_keys (truthy_entries (progress this')) /\
  completedSteps s = length (completedStepIds s).
Proof.
  split; [reflexivity|].
  apply (summary_consistent SampleJSON.stringify (MarkStepCompleted (Some "3"))
           (tracker [("a", VBool true); ("b", VBool false)]) (page open_storage 5)).
  reflexivity.
Defined.

Lemma percentage_spec_witness :
  let s := getProgressSummary (tracker [("3", VBool true); ("x", VBool false)])
             (page open_storage 5) in
  let s' := getProgressSummary (tracker [("a", VBool true); ("b", VBool true)])
              (page open_storage 1) in
  (completedSteps s <= totalSteps s)%nat /\
  Z.of_nat (totalSteps s) < 2 ^ 32 /\
  (totalSteps s <= 39)%nat /\
  (exists z, percentage s = Number.of_Z z /\ 0 <= z <= 100) /\
  percentage s = Number.of_Z (spec_percentage (completedSteps s) (totalSteps s)) /\
  totalSteps (getProgressSummary (tracker [("3", VBool true)]) (page open_storage 0)) = 0%nat /\
  percentage (getProgressSummary (tracker [("3", VBool true)]) (page open_storage 0))
  = Number.of_Z 0 /\
  Z.of_nat (completedSteps s') < 2 ^ 32 /\ Z.of_nat (totalSteps s') < 2 ^ 32 /\
  (percentage s' = Number.of_Z (spec_percentage (completedSteps s') (totalSteps s')) \/
   ((200 * Z.of_nat (completedSteps s') + Z.of_nat (totalSteps s'))
      mod (2 * Z.of_nat (totalSteps s')) = 0 /\
    percentage s'
    = Number.of_Z (spec_percentage (completedSteps s') (totalSteps s') - 1))).
Proof.
  cbv zeta.
  pose proof (percentage_spec (tracker [("3", VBool true); ("x", VBool false)])
                (page open_storage 5)) as (_ & _ & _ & Hrange & Hsmall).
  pose proof (percentage_spec (tracker [("3", VBool true)]) (page open_storage 0))
    as (_ & Hzero & _).
  pose proof (percentage_spec (tracker [("a", VBool true); ("b", VBool true)])
                (page open_storage 1)) as (_ & _ & Hformula & _).
  assert (Hle : (completedSteps (getProgressSummary
                   (tracker [("3", VBool true); ("x", VBool false)])
                   (page open_storage 5))
                 <= totalSteps (getProgressSummary
                   (tracker [("3", VBool true); ("x", VBool false)])
                   (page open_storage 5)))%nat) by (vm_compute; lia).
  split; [exact Hle|]. split; [reflexivity|]. split; [vm_compute; lia|].
  split; [apply Hrange; [exact Hle | reflexivity]|].
  split; [apply Hsmall; [exact Hle | vm_compute; lia]|].
  split; [reflexivity|]. split; [apply Hzero; reflexivity|].
  split; [reflexivity|]. split; [reflexivity|].
  apply Hformula; reflexivity.
Defined.

(** C1 as stated fails twice.  Two completed steps on a page with one
    marker: [completedSteps] exceeds [totalSteps] and the percentage is
    200.  And 23 completed steps on a page with 40 markers: the double
    (23 / 40) * 100 lies just below 57.5, the code answers 57, and
    round(100 * 23 / 40) is 58. *)
Lemma percentage_out_of_range :
  (let s := getProgressSummary (tracker [("a", VBool true); ("b", VBool true)])
              (page open_storage 1) in
   totalSteps s = 1%nat /\ completedSteps s = 2%nat /\
   percentage s = Number.of_Z 200) /\
  (let s := getProgressSummary (tracker (indexed (repeat (VBool true) 23)))
              (page open_storage 40) in
   totalSteps s = 40%nat /\ completedSteps s = 23%nat /\
   percentage s = Number.of_Z 57 /\
   spec_percentage (completedSteps s) (totalSteps s) = 58 /\
   Number.of_Z 57 <> Number.of_Z 58).
Proof. vm_compute. repeat split. discriminate. Qed.


(** ** More on the storage adapter *)

Lemma save_lookup (JSON_stringify : jsval -> completion string)
    (this : StorageManager) (key : string) (data : jsval) (ls : LocalStorage) (k : string) :
  ls_items (snd (save JSON_stringify this key data ls)) !! k =
  if fst (save JSON_stringify this key data ls) && String.eqb k (_getKey this key)
  then match JSON_stringify data with Normal text => Some text | Throw => None end
  else ls_items ls !! k.
Proof.
  destruct (fst (save JSON_stringify this key data ls)) eqn:E.
  - destruct (save_succeeded JSON_stringify this key data ls E) as (text & Ht & _ & ->).
    rewrite Ht. simpl. destruct (String.eqb_spec k (_getKey this key)) as [->|Hne].
    + apply lookup_insert_eq.
    + apply lookup_insert_ne. congruence.
  - rewrite (save_failed JSON_stringify this key data ls E). reflexivity.
Qed.

Lemma load_after_save (JSON_stringify : jsval -> completion string)
    (JSON_parse : string -> completion jsval)
    (this : StorageManager) (key : string) (data d : jsval) (ls : LocalStorage) :
  fst (save JSON_stringify this key data ls) = true ->
  (forall text, JSON_stringify data = Normal text -> JSON_parse text = Normal data) ->
  load JSON_parse this key d (snd (save JSON_stringify this key data ls)) = data.
Proof.
  intros Hsaved Hcodec.
  destruct (save_succeeded JSON_stringify this key data ls Hsaved) as (text & Ht & _ & Hs).
  rewrite Hs. unfold load, getItem. cbn [snd ls_enabled ls_items].
  rewrite lookup_insert_eq. now rewrite (Hcodec text Ht).
Qed.

(** X1.  What [save] wrote, [load] reads back.  After a successful
    [save(key, data)], [load(key, d)] under the same namespace finds the
    text that [JSON.stringify] made of [data] and returns what [JSON.parse]
    makes of it: [data] itself where the codec round-trips, whatever the
    default, and the default (null for an undefined [d]) only if that text
    does not parse. *)
Theorem save_then_load (JSON_stringify : jsval -> completion string)
    (JSON_parse : string -> completion jsval)
    (this : StorageManager) (key : string) (data defaultValue : jsval) (ls : LocalStorage) :
  fst (save JSON_stringify this key data ls) = true ->
  exists text,
    JSON_stringify data = Normal text /\
    load JSON_parse this key defaultValue (snd (save JSON_stringify this key data ls))
    = match JSON_parse text with
      | Normal v => v
      | Throw => default_parameter defaultValue VNull
      end /\
    (JSON_parse text = Normal data ->
     load JSON_parse this key defaultValue (snd (save JSON_stringify this key data ls))
     = data).
Proof.
  intros Hsaved.
  destruct (save_succeeded JSON_stringify this key data ls Hsaved) as (text & Ht & _ & Hs).
  exists text. split; [assumption|].
  assert (Hload : load JSON_parse this key defaultValue
                    (snd (save JSON_stringify this key data ls))
                  = match JSON_parse text with
                    | Normal v => v
                    | Throw => default_parameter defaultValue VNull
                    end).
  { rewrite Hs. unfold load, getItem. cbn [snd ls_enabled ls_items].
    now rewrite lookup_insert_eq. }
  split; [exact Hload|]. intros Hparse. now rewrite Hload, Hparse.
Qed.

(** X2.  [save] writes one key at most: every other key of the storage
    holds what it held, whether the save succeeds or not, and a failed
    save (serialization error, storage unavailable, quota) leaves the whole
    storage as it was. *)
Theorem save_frame (JSON_stringify : jsval -> completion string)
    (this : StorageManager) (key : string) (data : jsval) (ls : LocalStorage) :
  (forall k, k <> _getKey this key ->
     ls_items (snd (save JSON_stringify this key data ls)) !! k = ls_items ls !! k) /\
  (fst (save JSON_stringify this key data ls) = false ->
     snd (save JSON_stringify this key data ls) = ls).
Proof.
  split.
  - intros k Hne. rewrite save_lookup.
    destruct (String.eqb_spec k (_getKey this key)); [contradiction|].
    now rewrite andb_false_r.
  - intros Hfail. now rewrite (save_failed JSON_stringify this key data ls Hfail).
Qed.

(** X3.  [remove(key)] on available storage returns true, also when
    nothing was stored; afterwards [load(key, d)] returns the default, [d]
    or null for an undefined [d], and every other key holds what it held.
    On unavailable storage it returns false and changes nothing. *)
Theorem remove_spec (JSON_parse : string -> completion jsval)
    (this : StorageManager) (key : string) (defaultValue : jsval) (ls : LocalStorage) :
  (ls_enabled ls = true ->
     fst (remove this key ls) = true /\
     load JSON_parse this key defaultValue (snd (remove this key ls))
     = default_parameter defaultValue VNull /\
     forall k, k <> _getKey this key ->
       ls_items (snd (remove this key ls)) !! k = ls_items ls !! k) /\
  (ls_enabled ls = false -> remove this key ls = (false, ls)).
Proof.
  unfold remove, removeItem. split; intros ->; [|reflexivity].
  cbn [fst snd]. split; [reflexivity|]. split.
  - unfold load, getItem. cbn [ls_enabled ls_items]. now rewrite lookup_delete_eq.
  - intros k Hne. cbn [ls_items]. apply lookup_delete_ne. congruence.
Qed.

Lemma clear_lookup (this : StorageManager) (ls : LocalStorage) (k : string) :
  ls_enabled ls = true ->
  ls_items (snd (clear this ls)) !! k =
  if String.prefix (namespace this +:+ "_") k then None else ls_items ls !! k.
Proof.
  intros Hon. unfold clear, storage_keys. rewrite Hon.
  rewrite remove_each_enabled by assumption. cbn [snd ls_items].
  set (keys := List.filter _ _).
  destruct (lookup_delete_all keys (ls_items ls) k) as [[Hnone Hin]|[Hsame Hnot]].
  - rewrite Hnone. apply filter_In in Hin. destruct Hin as [_ ->]. reflexivity.
  - rewrite Hsame. destruct (String.prefix _ k) eqn:Hpre; [|reflexivity].
    destruct (ls_items ls !! k) as [v|] eqn:Hk; [|reflexivity].
    exfalso. apply Hnot. apply filter_In. split; [|assumption].
    apply in_map_iff. exists (k, v). split; [reflexivity|].
    apply list_elem_of_In. now apply elem_of_map_to_list.
Qed.

Lemma clear_enabled (this : StorageManager) (ls : LocalStorage) :
  ls_enabled ls = true ->
  fst (clear this ls) = true /\ ls_enabled (snd (clear this ls)) = true /\
  ls_quota (snd (clear this ls)) = ls_quota ls.
Proof.
  intros Hon. unfold clear, storage_keys. rewrite Hon.
  rewrite remove_each_enabled by assumption. auto.
Qed.

Lemma clear_disabled (this : StorageManager) (ls : LocalStorage) :
  ls_enabled ls = false -> clear this ls = (false, ls).
Proof. intros Hoff. unfold clear, storage_keys. now rewrite Hoff. Qed.

Lemma load_absent (JSON_parse : string -> completion jsval)
    (this : StorageManager) (key : string) (defaultValue : jsval) (ls : LocalStorage) :
  ls_items ls !! _getKey this key = None ->
  load JSON_parse this key defaultValue ls = default_parameter defaultValue VNull.
Proof.
  intros H. unfold load, getItem. destruct (ls_enabled ls); [now rewrite H | reflexivity].
Qed.

Lemma prefix_getKey (this : StorageManager) (key : string) :
  String.prefix (namespace this +:+ "_") (_getKey this key) = true.
Proof.
  unfold _getKey. induction (namespace this) as [|c s IH]; simpl.
  - now destruct key.
  - destruct (ascii_dec c c); [exact IH | congruence].
Qed.

Lemma storage_eq (ls1 ls2 : LocalStorage) :
  ls_enabled ls1 = ls_enabled ls2 -> ls_quota ls1 = ls_quota ls2 ->
  (forall k, ls_items ls1 !! k = ls_items ls2 !! k) -> ls1 = ls2.
Proof.
  destruct ls1, ls2. simpl. intros -> -> H. f_equal. now apply map_eq.
Qed.

(** X4.  After [clear()], every [load] under the namespace returns its
    default, the argument or null for an undefined argument, and clearing
    again changes nothing more. *)
Theorem clear_then_load (JSON_parse : string -> completion jsval)
    (this : StorageManager) (ls : LocalStorage) :
  ls_enabled ls = true ->
  (forall key defaultValue,
     load JSON_parse this key defaultValue (snd (clear this ls))
     = default_parameter defaultValue VNull) /\
  clear this (snd (clear this ls)) = (true, snd (clear this ls)).
Proof.
  intros Hon. destruct (clear_enabled this ls Hon) as (Hret & Hon' & Hq'). split.
  - intros key d. apply load_absent.
    rewrite clear_lookup by assumption. now rewrite prefix_getKey.
  - destruct (clear_enabled this (snd (clear this ls)) Hon') as (Hret2 & Hon2 & Hq2).
    destruct (clear this (snd (clear this ls))) as [b ls2] eqn:E. simpl in *.
    subst b. f_equal. apply storage_eq; try congruence.
    intros k. replace ls2 with (snd (clear this (snd (clear this ls)))) by now rewrite E.
    rewrite !clear_lookup by assumption.
    now destruct (String.prefix _ k).
Qed.

Lemma prefix_cons (c d : ascii) (a b : string) :
  String.prefix (String c a) (String d b) = Ascii.eqb c d && String.prefix a b.
Proof.
  cbn [String.prefix]. destruct (ascii_dec c d) as [->|Hne].
  - now rewrite Ascii.eqb_refl.
  - apply Ascii.eqb_neq in Hne. now rewrite Hne.
Qed.

Lemma append_cons (c : ascii) (a b : string) :
  String c a +:+ b = String c (a +:+ b).
Proof. reflexivity. Qed.

Lemma append_empty (b : string) : EmptyString +:+ b = b.
Proof. reflexivity. Qed.

Lemma prefix_underscore_free (a b rest : string) :
  no_underscore a = true -> no_underscore b = true ->
  String.prefix (a +:+ "_") (b +:+ "_" +:+ rest) = true -> a = b.
Proof.
  revert b. induction a as [|c a IH]; intros [|d b] Ha Hb;
    rewrite ?append_cons, ?append_empty, ?prefix_cons;
    cbn [no_underscore] in Ha, Hb; intros H.
  - reflexivity.
  - apply andb_true_iff in H as [H _]. apply Ascii.eqb_eq in H. subst d.
    rewrite Ascii.eqb_refl in Hb. discriminate.
  - apply andb_true_iff in H as [H _]. apply Ascii.eqb_eq in H. subst c.
    rewrite Ascii.eqb_refl in Ha. discriminate.
  - apply andb_true_iff in Ha, Hb, H. destruct Ha as [_ Ha], Hb as [_ Hb], H as [Hc H].
    apply Ascii.eqb_eq in Hc. subst d. f_equal. now apply IH.
Qed.

Lemma getKey_underscore_free (this other : StorageManager) (key key' : string) :
  no_underscore (namespace this) = true -> no_underscore (namespace other) = true ->
  _getKey this key = _getKey other key' -> namespace this = namespace other.
Proof.
  intros Ha Hb Heq. apply (prefix_underscore_free _ _ key' Ha Hb).
  fold (_getKey other key'). rewrite <- Heq. apply prefix_getKey.
Qed.

(** X5.  Two managers whose namespaces differ and contain no underscore
    do not see each other: what one saves, removes or clears leaves every
    key of the other as it was. *)
Theorem namespace_isolation (JSON_stringify : jsval -> completion string)
    (this other : StorageManager) (key key' : string) (data : jsval)
    (ls : LocalStorage) :
  no_underscore (namespace this) = true -> no_underscore (namespace other) = true ->
  namespace this <> namespace other ->
  ls_items (snd (save JSON_stringify this key data ls)) !! _getKey other key'
  = ls_items ls !! _getKey other key' /\
  ls_items (snd (remove this key ls)) !! _getKey other key'
  = ls_items ls !! _getKey other key' /\
  ls_items (snd (clear this ls)) !! _getKey other key'
  = ls_items ls !! _getKey other key'.
Proof.
  intros Ha Hb Hne.
  assert (Hkeys : _getKey other key' <> _getKey this key).
  { intros Heq. apply Hne. symmetry.
    now apply (getKey_underscore_free other this key' key). }
  split; [|split].
  - rewrite save_lookup. destruct (String.eqb_spec (_getKey other key') (_getKey this key));
      [contradiction|]. now rewrite andb_false_r.
  - unfold remove, removeItem. destruct (ls_enabled ls); [|reflexivity].
    simpl. apply lookup_delete_ne. congruence.
  - destruct (ls_enabled ls) eqn:Hon.
    + rewrite clear_lookup by assumption.
      destruct (String.prefix _ _) eqn:Hp; [|reflexivity].
      exfalso. apply Hne. now apply (prefix_underscore_free _ _ key').
    + now rewrite (clear_disabled this ls Hon).
Qed.

(** X6.  The probe [isAvailable] returns true exactly when the test write
    goes through.  It is not free of effects then: an entry stored under
    [__storage_test__] is gone afterwards; every other key holds what it
    held.  When the probe fails the storage is as before. *)
Theorem isAvailable_spec (ls : LocalStorage) :
  (fst (isAvailable ls) = true ->
     ls_items (snd (isAvailable ls)) !! "__storage_test__" = None /\
     forall k, k <> "__storage_test__" ->
       ls_items (snd (isAvailable ls)) !! k = ls_items ls !! k) /\
  (fst (isAvailable ls) = false -> snd (isAvailable ls) = ls) /\
  (ls_enabled ls = false -> fst (isAvailable ls) = false).
Proof.
  unfold isAvailable, setItem, removeItem.
  destruct (ls_enabled ls); [|repeat split; try discriminate; reflexivity].
  destruct (N.leb _ _); simpl; [|repeat split; try discriminate; reflexivity].
  split; [|split; discriminate].
  intros _. split.
  - apply lookup_delete_eq.
  - intros k Hne. rewrite lookup_delete_ne by congruence.
    apply lookup_insert_ne. congruence.
Qed.

(** ** More on the tracker *)

Section TrackerOperations.

Variable JSON_stringify : jsval -> completion string.

Lemma save_and_notify_frame (eventType : string) (detail : ActionDetail)
    (this : ProgressTracker) (env : Browser) :
  let env' := snd (save_and_notify JSON_stringify eventType detail this env) in
  clock env' = clock env /\
  ls_enabled (localStorage env') = ls_enabled (localStorage env) /\
  forall k, k <> _getKey (storage this) (storageKey this) ->
    ls_items (localStorage env') !! k = ls_items (localStorage env) !! k.
Proof.
  unfold save_and_notify, saveProgress.
  pose proof (save_lookup JSON_stringify (storage this) (storageKey this)
                (VObj (progress this)) (localStorage env)) as Hlook.
  pose proof (save_succeeded JSON_stringify (storage this) (storageKey this)
                (VObj (progress this)) (localStorage env)) as Hok.
  pose proof (save_failed JSON_stringify (storage this) (storageKey this)
                (VObj (progress this)) (localStorage env)) as Hfail.
  destruct (save _ _ _ _ _) as [[|] ls]; cbn [fst snd] in *.
  - destruct (Hok eq_refl) as (text & _ & Hon & Heq). inversion Heq. subst ls.
    cbn. split; [reflexivity|]. split; [now rewrite Hon|].
    intros k Hne. apply lookup_insert_ne. congruence.
  - specialize (Hfail eq_refl). inversion Hfail. subst ls. cbn. auto.
Qed.

(** Every operation is a rejected call or the shared tail on a new record. *)
Lemma run_cases (op : operation) (this : ProgressTracker) (env : Browser) :
  run JSON_stringify op this env = (false, this, env) \/
  exists p detail,
    run JSON_stringify op this env =
    save_and_notify JSON_stringify (eventType op) detail (with_progress this p) env.
Proof.
  destruct op as [[id|]|[id|]| |data]; cbn [run]; try (left; reflexivity).
  - destruct (string_dec id EmptyString) as [->|Hid]; [left; reflexivity|].
    right. eexists _, _. now apply markStepCompleted_unfold.
  - destruct (string_dec id EmptyString) as [->|Hid]; [left; reflexivity|].
    right. eexists _, _. now apply markStepIncomplete_unfold.
  - right. exists [], NoDetail. reflexivity.
  - destruct (object_shaped data) eqn:Hobj.
    + right. eexists _, _. now apply importProgress_unfold.
    + left. unfold importProgress. now rewrite importProgress_guard, Hobj.
Qed.

Lemma run_navItems (op : operation) (this : ProgressTracker) (env : Browser) :
  navItems (snd (run JSON_stringify op this env)) = navItems env.
Proof.
  destruct (run_cases op this env) as [->|(p & detail & ->)]; [reflexivity|].
  pose proof (save_and_notify_spec JSON_stringify (eventType op) detail
                (with_progress this p) env) as H.
  destruct (save_and_notify _ _ _ _ _) as [[saved this'] env']. cbn [snd]. tauto.
Qed.

(** X7.  What an operation does to the browser.  A call that returns true
    has written the record it leaves in memory to the storage and has
    dispatched exactly one event, named after the operation and carrying
    the summary of that record.  A call that returns false leaves the
    browser as it was.  No call touches another storage key, the page's
    markers or the clock. *)
Theorem run_effects (op : operation) (this : ProgressTracker) (env : Browser) :
  let '(saved, this', env') := run JSON_stringify op this env in
  storage this' = storage this /\ storageKey this' = storageKey this /\
  navItems env' = navItems env /\ clock env' = clock env /\
  (forall k, k <> _getKey (storage this) (storageKey this) ->
     ls_items (localStorage env') !! k = ls_items (localStorage env) !! k) /\
  (saved = true ->
     persisted JSON_stringify this' env' /\
     exists detail,
       dispatched env' =
       dispatched env ++ [ {| ev_name := announced op; ev_detail := detail;
                              ev_summary := getProgressSummary this' env' |} ]) /\
  (saved = false -> env' = env).
Proof.
  destruct (run_cases op this env) as [->|(p & detail & ->)].
  - repeat split; try reflexivity; discriminate.
  - pose proof (save_and_notify_spec JSON_stringify (eventType op) detail
                  (with_progress this p) env) as H.
    pose proof (save_and_notify_frame (eventType op) detail (with_progress this p) env) as Hf.
    destruct (save_and_notify _ _ _ _ _) as [[saved this'] env'].
    cbn [snd] in Hf. destruct H as (-> & _ & Hnav & Hok & Hfail).
    destruct Hf as (Hclock & _ & Hkeys).
    split; [reflexivity|]. split; [reflexivity|]. split; [assumption|].
    split; [assumption|]. split; [exact Hkeys|]. split; [|assumption].
    intros Hs. destruct (Hok Hs) as [Hp Hd]. split; [assumption|].
    exists detail. rewrite Hd.
    now rewrite (summary_navItems (with_progress this p) env env' Hnav).
Qed.

Lemma markStepCompleted_record (id : string) (this : ProgressTracker) (env : Browser) :
  id <> EmptyString ->
  snd (fst (markStepCompleted JSON_stringify (Some id) this env)) =
  with_progress this (js_set (progress this) id (VBool true)).
Proof.
  intros Hid. rewrite markStepCompleted_unfold by assumption.
  pose proof (save_and_notify_spec JSON_stringify "step-completed" (StepDetail id)
                (with_progress this (js_set (progress this) id (VBool true))) env) as H.
  destruct (save_and_notify _ _ _ _ _) as [[saved this'] env']. simpl. tauto.
Qed.

Lemma markStepIncomplete_record (id : string) (this : ProgressTracker) (env : Browser) :
  id <> EmptyString ->
  snd (fst (markStepIncomplete JSON_stringify (Some id) this env)) =
  with_progress this (own_delete id (progress this)).
Proof.
  intros Hid. rewrite markStepIncomplete_unfold by assumption.
  pose proof (save_and_notify_spec JSON_stringify "step-incompleted" (StepDetail id)
                (with_progress this (own_delete id (progress this))) env) as H.
  destruct (save_and_notify _ _ _ _ _) as [[saved this'] env']. simpl. tauto.
Qed.

Lemma js_set_other (o : jsobj) (k k' : string) (v : jsval) :
  k' <> k -> own_get k' (js_set o k v) = own_get k' o.
Proof.
  intros Hne. unfold js_set. destruct (own_get k o).
  - now apply own_get_replace_other.
  - destruct (String.eqb k "__proto__"); [reflexivity|].
    rewrite own_get_define_own. destruct (String.eqb_spec k' k); [contradiction|reflexivity].
Qed.

(** X8.  Marking one step says nothing about another: after
    [markStepCompleted(id)] or [markStepIncomplete(id)], whether the write
    succeeded or not, [isStepCompleted(k)] answers for every other [k] what
    it answered before. *)
Theorem mark_other_steps (id k : string) (this : ProgressTracker) (env : Browser) :
  k <> id ->
  isStepCompleted (snd (fst (markStepCompleted JSON_stringify (Some id) this env))) k
  = isStepCompleted this k /\
  isStepCompleted (snd (fst (markStepIncomplete JSON_stringify (Some id) this env))) k
  = isStepCompleted this k.
Proof.
  intros Hne. destruct (string_dec id EmptyString) as [->|Hid]; [split; reflexivity|].
  rewrite markStepCompleted_record, markStepIncomplete_record by assumption.
  unfold isStepCompleted, js_get. cbn [progress with_progress]. split.
  - now rewrite js_set_other.
  - rewrite own_get_delete. destruct (String.eqb_spec k id); [contradiction|reflexivity].
Qed.

Lemma own_delete_insert_index (n : N) (k : string) (v : jsval) (o : jsobj) :
  own_delete k (insert_index n k v o) = own_delete k o.
Proof.
  unfold own_delete. induction o as [|[k0 v0] o IH]; cbn [insert_index].
  - cbn. now rewrite String.eqb_refl.
  - destruct (array_index k0) as [n0|]; [destruct (n0 <? n)%N|].
    + cbn [List.filter fst]. rewrite IH. reflexivity.
    + cbn [List.filter fst]. now rewrite String.eqb_refl.
    + cbn [List.filter fst]. now rewrite String.eqb_refl.
Qed.

Lemma own_delete_replace (k : string) (v : jsval) (o : jsobj) :
  own_delete k (own_replace k v o) = own_delete k o.
Proof.
  unfold own_delete. induction o as [|[k0 v0] o IH]; [reflexivity|].
  cbn [own_replace]. destruct (String.eqb k k0) eqn:E; cbn [List.filter fst]; rewrite E.
  - reflexivity.
  - cbn. now rewrite IH.
Qed.

Lemma own_delete_js_set (o : jsobj) (k : string) (v : jsval) :
  own_delete k (js_set o k v) = own_delete k o.
Proof.
  unfold js_set, define_own. destruct (own_get k o) eqn:Hk.
  - apply own_delete_replace.
  - destruct (String.eqb k "__proto__"); [reflexivity|].
    destruct (array_index k).
    + apply own_delete_insert_index.
    + unfold own_delete. rewrite List.filter_app. cbn. rewrite String.eqb_refl.
      apply app_nil_r.
Qed.

(** X9.  Unmarking undoes marking.  [markStepIncomplete(id)] after
    [markStepCompleted(id)] leaves the record that [markStepIncomplete(id)]
    alone would have left; for a step that had no entry this is the
    record as it was before the two calls, property order included. *)
Theorem mark_then_unmark (id : string) (this : ProgressTracker) (env env1 : Browser) :
  id <> EmptyString ->
  let this1 := snd (fst (markStepCompleted JSON_stringify (Some id) this env)) in
  let this2 := snd (fst (markStepIncomplete JSON_stringify (Some id) this1 env1)) in
  this2 = snd (fst (markStepIncomplete JSON_stringify (Some id) this env)) /\
  (own_get id (progress this) = None -> this2 = this).
Proof.
  intros Hid. cbv zeta.
  rewrite !markStepIncomplete_record, markStepCompleted_record by assumption.
  unfold with_progress. cbn [progress storage storageKey].
  rewrite own_delete_js_set. split; [reflexivity|].
  intros Habs. rewrite own_delete_absent by assumption. now destruct this.
Qed.

Lemma count_replace (k : string) (v v0 : jsval) (o : jsobj) :
  own_get k o = Some v0 ->
  (length (List.filter truthy (Object_values (own_replace k v o)))
   + (if truthy v0 then 1 else 0)
   = length (List.filter truthy (Object_values o)) + (if truthy v then 1 else 0))%nat.
Proof.
  induction o as [|[k0 w] o IH]; [discriminate|].
  cbn [own_get own_replace]. destruct (String.eqb k k0).
  - intros H. inversion H. subst w. cbn [Object_values List.map snd List.filter].
    destruct (truthy v), (truthy v0); cbn [length]; lia.
  - intros H. specialize (IH H). cbn [Object_values List.map snd List.filter].
    fold (Object_values o). fold (Object_values (own_replace k v o)).
    destruct (truthy w); cbn [length]; lia.
Qed.

Lemma count_insert_index (n : N) (k : string) (v : jsval) (o : jsobj) :
  length (List.filter truthy (Object_values (insert_index n k v o)))
  = (length (List.filter truthy (Object_values o)) + (if truthy v then 1 else 0))%nat.
Proof.
  induction o as [|[k0 w] o IH]; cbn [insert_index].
  - cbn [Object_values List.map snd List.filter]. destruct (truthy v); reflexivity.
  - destruct (array_index k0) as [n0|]; [destruct (n0 <? n)%N|];
      cbn [Object_values List.map snd List.filter];
      fold (Object_values o); fold (Object_values (insert_index n k v o)).
    + destruct (truthy w); cbn [length]; rewrite IH; lia.
    + destruct (truthy v), (truthy w); cbn [length]; lia.
    + destruct (truthy v), (truthy w); cbn [length]; lia.
Qed.

Lemma count_delete (k : string) (o : jsobj) :
  js_wf o = true ->
  (length (List.filter truthy (Object_values (own_delete k o)))
   + match own_get k o with Some v => if truthy v then 1 else 0 | None => 0 end
   = length (List.filter truthy (Object_values o)))%nat.
Proof.
  unfold js_wf. induction o as [|[k0 w] o IH]; intros Hwf; [reflexivity|].
  change (Object_keys ((k0, w) :: o)) with (k0 :: Object_keys o) in Hwf.
  apply ordered_keys_cons in Hwf. destruct Hwf as (Hnot & _ & Hrest).
  unfold own_delete. cbn [List.filter fst own_get].
  destruct (String.eqb_spec k k0) as [->|Hne]; cbn [negb].
  - fold (own_delete k0 o). rewrite own_delete_absent.
    + cbn [Object_values List.map snd List.filter]. fold (Object_values o).
      destruct (truthy w); cbn [length]; lia.
    + apply own_get_keys. now apply existsb_eqb_In.
  - fold (own_delete k o). specialize (IH Hrest).
    cbn [Object_values List.map snd List.filter].
    fold (Object_values o). fold (Object_values (own_delete k o)).
    destruct (truthy w); cbn [length]; lia.
Qed.

(** X10.  How the count of completed steps moves.  [markStepCompleted(id)]
    raises it by one when the record had no entry for [id] or a falsy one,
    and leaves it when the entry was truthy; the one exception is
    [__proto__], for which no entry is ever created, so that it is never
    counted.  [markStepIncomplete(id)] on a plain object lowers the count
    by one when the entry was truthy and leaves it otherwise. *)
Theorem mark_count (id : string) (this : ProgressTracker) (env : Browser) :
  id <> EmptyString ->
  getCompletedStepsCount (snd (fst (markStepCompleted JSON_stringify (Some id) this env)))
  = (getCompletedStepsCount this
     + match own_get id (progress this) with
       | Some v => if truthy v then 0 else 1
       | None => if String.eqb id "__proto__" then 0 else 1
       end)%nat /\
  (js_wf (progress this) = true ->
   (getCompletedStepsCount (snd (fst (markStepIncomplete JSON_stringify (Some id) this env)))
    + match own_get id (progress this) with
      | Some v => if truthy v then 1 else 0
      | None => 0
      end)%nat
   = getCompletedStepsCount this).
Proof.
  intros Hid. rewrite markStepCompleted_record, markStepIncomplete_record by assumption.
  unfold getCompletedStepsCount. cbn [progress with_progress]. split.
  - unfold js_set, define_own. destruct (own_get id (progress this)) as [v0|] eqn:Hk.
    + pose proof (count_replace id (VBool true) v0 (progress this) Hk) as H.
      cbn [truthy] in H. destruct (truthy v0); lia.
    + destruct (String.eqb id "__proto__"); [lia|].
      destruct (array_index id).
      * rewrite count_insert_index. reflexivity.
      * unfold Object_values. rewrite List.map_app, List.filter_app, List.length_app.
        reflexivity.
  - intros Hwf. now apply count_delete.
Qed.

Lemma In_keys_own_get (k : string) (o : jsobj) :
  In k (Object_keys o) <-> own_get k o <> None.
Proof.
  induction o as [|[k0 v0] o IH]; cbn [Object_keys List.map fst own_get In].
  - split; [tauto | congruence].
  - destruct (String.eqb_spec k k0) as [->|Hne].
    + split; [discriminate | auto].
    + rewrite <- IH. unfold Object_keys. split; [intros [?|?]; congruence || assumption | auto].
Qed.

Lemma inherited_truthy (k : string) : truthy (prototype_get k) = inherited k.
Proof.
  unfold prototype_get, inherited. destruct (String.eqb k "__proto__"); [reflexivity|].
  now destruct (existsb _ _).
Qed.

(** X11.  [isStepCompleted] against the summary.  A step counts as
    completed exactly when the summary lists it in [completedStepIds], or
    when the record has no entry for it and it is one of the names every
    plain object inherits ([constructor], [toString], [__proto__], ...).
    So every listed step is completed, and the only steps that are
    completed without being listed are the inherited names. *)
Theorem isStepCompleted_listed (this : ProgressTracker) (env : Browser) (id : string) :
  isStepCompleted this id = true <->
  In id (completedStepIds (getProgressSummary this env)) \/
  (own_get id (progress this) = None /\ inherited id = true).
Proof.
  cbn [getProgressSummary completedStepIds]. rewrite filter_In, In_keys_own_get.
  unfold isStepCompleted, js_get. rewrite <- inherited_truthy.
  destruct (own_get id (progress this)) as [v|]; split.
  - intros H. left. split; [discriminate | assumption].
  - intros [[_ H]|[H _]]; [assumption | discriminate].
  - intros H. right. auto.
  - intros [[H _]|[_ H]]; [congruence | assumption].
Qed.

Lemma percentage_zero (this : ProgressTracker) (env : Browser) :
  getCompletedStepsCount this = 0%nat -> Z.of_nat (navItems env) < 2 ^ 32 ->
  getCompletionPercentage this env = Number.of_Z 0.
Proof.
  intros Hc Hb. unfold getCompletionPercentage, getTotalSteps. rewrite Hc.
  destruct (navItems env) as [|n] eqn:Hn; [reflexivity|].
  cbn [Nat.ltb Nat.leb].
  destruct (percentage_between 0%nat (S n) 0 0) as (z & Hz & Hr); try lia.
  rewrite Hz. f_equal. lia.
Qed.

(** X12.  [resetProgress] empties the record whether or not the write
    succeeds: afterwards no step is counted or listed, the percentage is 0,
    and [isStepCompleted] is false for every step but the inherited names.
    It returns what the write returned. *)
Theorem resetProgress_spec (this : ProgressTracker) (env : Browser) :
  Z.of_nat (navItems env) < 2 ^ 32 ->
  let '(saved, this', env') := resetProgress JSON_stringify this env in
  let s := getProgressSummary this' env' in
  this' = with_progress this [] /\
  saved = fst (saveProgress JSON_stringify (with_progress this []) env) /\
  completedSteps s = 0%nat /\ completedStepIds s = [] /\
  percentage s = Number.of_Z 0 /\
  forall id, isStepCompleted this' id = inherited id.
Proof.
  intros Hb.
  change (resetProgress JSON_stringify this env)
    with (save_and_notify JSON_stringify "progress-reset" NoDetail
            (with_progress this []) env).
  pose proof (save_and_notify_spec JSON_stringify "progress-reset" NoDetail
                (with_progress this []) env) as H.
  destruct (save_and_notify _ _ _ _ _) as [[saved this'] env'].
  destruct H as (-> & Hsaved & Hnav & _).
  split; [reflexivity|]. split; [assumption|].
  split; [reflexivity|]. split; [reflexivity|]. split.
  - cbn [getProgressSummary percentage]. apply percentage_zero; [reflexivity|].
    now rewrite Hnav.
  - intros id. unfold isStepCompleted, js_get. cbn. apply inherited_truthy.
Qed.

Lemma ordered_keys_lookup (ks : list string) (i j : nat) (a b : string) :
  ordered_keys ks = true -> (i < j)%nat -> ks !! i = Some a -> ks !! j = Some b ->
  a <> b /\ key_before a b = true.
Proof.
  revert i j. induction ks as [|k ks IH]; intros i j Hord Hlt Hi Hj; [discriminate|].
  apply ordered_keys_cons in Hord. destruct Hord as (Hnot & Hbefore & Hrest).
  destruct j as [|j]; [lia|]. cbn in Hj.
  destruct i as [|i].
  - cbn in Hi. inversion Hi. subst k.
    assert (Hin : In b ks) by (apply list_elem_of_In; now apply list_elem_of_lookup_2 in Hj).
    split; [intros -> | ]; auto.
  - cbn in Hi. apply (IH i j); auto. lia.
Qed.

(** X13.  The order of [completedStepIds].  After every operation on a
    plain object the summary lists no step twice, and lists the steps in
    property order, not in the order in which they were completed: the
    identifiers that are array indices come first, in ascending numeric
    order, whenever they were marked. *)
Theorem completed_ids_ascending (op : operation) (this : ProgressTracker) (env : Browser)
    (i j : nat) (a b : string) :
  js_wf (progress this) = true -> (i < j)%nat ->
  let s := getProgressSummary (snd (fst (run JSON_stringify op this env)))
                              (snd (run JSON_stringify op this env)) in
  completedStepIds s !! i = Some a -> completedStepIds s !! j = Some b ->
  a <> b /\
  match array_index a, array_index b with
  | Some x, Some y => (x < y)%N
  | None, Some _ => False
  | _, _ => True
  end.
Proof.
  intros Hwf Hlt s Hi Hj.
  pose proof (run_wf JSON_stringify op this env Hwf) as Hwf'.
  assert (Hord : ordered_keys (completedStepIds s) = true)
    by (apply ordered_keys_filter; exact Hwf').
  destruct (ordered_keys_lookup _ i j a b Hord Hlt Hi Hj) as [Hne Hb].
  split; [assumption|]. unfold key_before in Hb.
  destruct (array_index a), (array_index b); try exact I; try discriminate.
  now apply N.ltb_lt.
Qed.

End TrackerOperations.

(** X14.  What a reload finds.  After an operation that returned true,
    [loadProgress] on the resulting browser reads back the record in
    memory, as far as [JSON.parse] inverts [JSON.stringify] on it.  After
    an operation that returned false it reads what it read before the
    call: a change that was made in memory only is lost. *)
Theorem progress_after_reload (JSON_stringify : jsval -> completion string)
    (JSON_parse : string -> completion jsval)
    (op : operation) (this : ProgressTracker) (env : Browser) :
  let saved := fst (fst (run JSON_stringify op this env)) in
  let this' := snd (fst (run JSON_stringify op this env)) in
  let env' := snd (run JSON_stringify op this env) in
  (forall text, JSON_stringify (VObj (progress this')) = Normal text ->
                JSON_parse text = Normal (VObj (progress this'))) ->
  (saved = true -> loadProgress JSON_parse this' env' = VObj (progress this')) /\
  (saved = false -> loadProgress JSON_parse this' env' = loadProgress JSON_parse this env).
Proof.
  cbv zeta.
  destruct (run_cases JSON_stringify op this env) as [->|(p & detail & ->)].
  - intros _. split; [discriminate | reflexivity].
  - pose proof (save_and_notify_spec JSON_stringify (eventType op) detail
                  (with_progress this p) env) as H.
    unfold save_and_notify in *. unfold saveProgress in *.
    pose proof (save_succeeded JSON_stringify (storage (with_progress this p))
                  (storageKey (with_progress this p))
                  (VObj (progress (with_progress this p))) (localStorage env)) as Hok.
    destruct (save _ _ _ _ _) as [[|] ls1]; cbn [fst snd] in *.
    + destruct (Hok eq_refl) as (text & Ht & _ & Heq). inversion Heq. subst ls1.
      intros Hcodec. split; [intros _ | discriminate].
      unfold loadProgress. cbn [dispatchProgressEvent with_event with_storage localStorage].
      apply (load_stored JSON_parse _ _ _ _ _ text); cbn [ls_enabled ls_items].
      * reflexivity.
      * apply lookup_insert_eq.
      * now apply Hcodec.
    + destruct H as (_ & _ & _ & _ & Hfail). rewrite (Hfail eq_refl).
      intros _. split; [discriminate | reflexivity].
Qed.

(** X15.  On a page of fewer than 200 markers the percentage tells the
    two ends apart: with [completedSteps <= totalSteps] it is 100 only when
    every step is completed and 0 only when none is. *)
Theorem percentage_ends (this : ProgressTracker) (env : Browser) :
  (0 < navItems env < 200)%nat ->
  (getCompletedStepsCount this <= navItems env)%nat ->
  (getCompletionPercentage this env = Number.of_Z 100 <->
   getCompletedStepsCount this = navItems env) /\
  (getCompletionPercentage this env = Number.of_Z 0 <->
   getCompletedStepsCount this = 0%nat).
Proof.
  intros [Hpos Hsmall] Hle.
  assert (Hb : Z.of_nat (navItems env) < 2 ^ 32).
  { change (2 ^ 32) with 4294967296. lia. }
  assert (Hinj : forall z, 0 <= z <= 100 ->
            (Number.of_Z z = Number.of_Z 100 -> z = 100) /\
            (Number.of_Z z = Number.of_Z 0 -> z = 0)).
  { intros z Hz.
    assert (Hall : forallb (fun n =>
               (negb (Number.same (Number.of_Z (Z.of_nat n)) (Number.of_Z 100))
                || (n =? 100)%nat)
               && (negb (Number.same (Number.of_Z (Z.of_nat n)) (Number.of_Z 0))
                   || (n =? 0)%nat)) (seq 0 101) = true) by (vm_compute; reflexivity).
    rewrite forallb_forall in Hall. specialize (Hall (Z.to_nat z)).
    rewrite Z2Nat.id in Hall by lia.
    assert (Hin : In (Z.to_nat z) (seq 0 101)) by (apply in_seq; lia).
    apply Hall in Hin. apply andb_true_iff in Hin. destruct Hin as [H100 H0].
    split; intros Heq; rewrite Heq in *; cbn in *.
    - apply Nat.eqb_eq in H100. lia.
    - apply Nat.eqb_eq in H0. lia. }
  unfold getCompletionPercentage, getTotalSteps.
  destruct (0 <? navItems env)%nat eqn:E; [|apply Nat.ltb_ge in E; lia].
  set (c := getCompletedStepsCount this) in *. set (t := navItems env) in *.
  split; split.
  - intros Heq. destruct (Nat.eq_dec c t) as [|Hne]; [assumption|exfalso].
    destruct (percentage_between c t 0 99) as (z & Hz & Hr); try lia.
    rewrite Hz in Heq. apply (Hinj z) in Heq; lia.
  - intros Heq. rewrite Heq.
    destruct (percentage_between t t 100 100) as (z & Hz & Hr); try lia.
    rewrite Hz. f_equal. lia.
  - intros Heq. destruct (Nat.eq_dec c 0%nat) as [|Hne]; [assumption|exfalso].
    destruct (percentage_between c t 1 100) as (z & Hz & Hr); try lia.
    rewrite Hz in Heq. apply (Hinj z) in Heq; lia.
  - intros Heq. rewrite Heq.
    destruct (percentage_between 0%nat t 0 0) as (z & Hz & Hr); try lia.
    rewrite Hz. f_equal. lia.
Qed.

(** ** The page *)

Lemma first_with_step_Some (stepId : string) (elements : list StepElement) (i : nat) :
  first_with_step stepId elements = Some i ->
  exists e, elements !! i = Some e /\ data_step e = stepId.
Proof.
  revert i. induction elements as [|e0 elements IH]; intros i; cbn [first_with_step].
  - discriminate.
  - destruct (String.eqb_spec (data_step e0) stepId) as [Heq|Hne].
    + intros H. inversion H. exists e0. auto.
    + destruct (first_with_step stepId elements) as [j|]; [|discriminate].
      intros H. inversion H. destruct (IH j eq_refl) as (e & He & Hd). exists e. auto.
Qed.

Lemma first_with_step_alter (f : StepElement -> StepElement) (stepId : string)
    (elements : list StepElement) (i : nat) :
  (forall e, data_step (f e) = data_step e) ->
  first_with_step stepId (alter f i elements) = first_with_step stepId elements.
Proof.
  intros Hf. revert i. induction elements as [|e0 elements IH]; intros [|i];
    cbn [alter list_alter first_with_step]; try reflexivity.
  - now rewrite Hf.
  - fold (alter f i elements). now rewrite IH.
Qed.

Section Rendering.

Variable JSON_stringify : jsval -> completion string.
Variable Number_toString : spec_float -> string.
Variable querySelector_escaped : string -> list StepElement -> option nat.

Lemma updateStepUI_container (stepId : string) (this : ProgressTracker) (view : View) :
  progressContainer (Page.updateStepUI querySelector_escaped stepId this view)
  = progressContainer view.
Proof. unfold Page.updateStepUI. now destruct (Page.query_data_step _ _ _). Qed.

Lemma updateProgressBar_elements (this : ProgressTracker) (env : Browser) (view : View) :
  stepElements (Page.updateProgressBar Number_toString this env view) = stepElements view.
Proof. unfold Page.updateProgressBar. now destruct (progressContainer view). Qed.

(** One element after [updateStepUI]: any element it touches keeps its
    [data-step] and shows what [isStepCompleted] answers. *)
Lemma updateStepUI_lookup_any (stepId : string) (this : ProgressTracker) (view : View)
    (i : nat) (e : StepElement) :
  stepElements view !! i = Some e ->
  stepElements (Page.updateStepUI querySelector_escaped stepId this view) !! i = Some e \/
  stepElements (Page.updateStepUI querySelector_escaped stepId this view) !! i
  = Some {| data_step := data_step e; completed := isStepCompleted this stepId |}.
Proof.
  intros He. unfold Page.updateStepUI.
  destruct (Page.query_data_step _ _ _) as [n|]; [|now left].
  cbn [stepElements]. rewrite list_lookup_alter.
  destruct (decide (n = i)) as [->|]; [|now left].
  right. now rewrite He.
Qed.

Lemma updateStepUI_lookup (stepId : string) (this : ProgressTracker) (view : View)
    (i : nat) (e : StepElement) :
  selector_safe stepId = true ->
  stepElements view !! i = Some e ->
  stepElements (Page.updateStepUI querySelector_escaped stepId this view) !! i =
  Some (if bool_decide (first_with_step stepId (stepElements view) = Some i)
        then {| data_step := stepId; completed := isStepCompleted this stepId |}
        else e).
Proof.
  intros Hsafe He. unfold Page.updateStepUI, Page.query_data_step. rewrite Hsafe.
  destruct (first_with_step stepId (stepElements view)) as [n|] eqn:Hn.
  - cbn [stepElements]. rewrite list_lookup_alter.
    destruct (decide (n = i)) as [->|Hne].
    + rewrite bool_decide_eq_true_2 by reflexivity. rewrite He. cbn.
      destruct (first_with_step_Some _ _ _ Hn) as (e' & He' & Hd).
      rewrite He in He'. inversion He'. subst e'. now rewrite Hd.
    + rewrite bool_decide_eq_false_2 by congruence. assumption.
  - rewrite bool_decide_eq_false_2 by discriminate. assumption.
Qed.

Lemma updateStepUI_first (stepId k : string) (this : ProgressTracker) (view : View) :
  first_with_step k (stepElements (Page.updateStepUI querySelector_escaped stepId this view))
  = first_with_step k (stepElements view).
Proof.
  unfold Page.updateStepUI. destruct (Page.query_data_step _ _ _); [|reflexivity].
  cbn [stepElements]. now apply first_with_step_alter.
Qed.

Lemma updateStepUI_length (stepId : string) (this : ProgressTracker) (view : View) :
  length (stepElements (Page.updateStepUI querySelector_escaped stepId this view))
  = length (stepElements view).
Proof.
  unfold Page.updateStepUI. destruct (Page.query_data_step _ _ _); [|reflexivity].
  cbn [stepElements]. apply length_alter.
Qed.

Lemma Page_run_core (op : operation) (this : ProgressTracker) (env : Browser) (view : View) :
  fst (Page.run JSON_stringify Number_toString querySelector_escaped op this env view)
  = run JSON_stringify op this env.
Proof.
  destruct op as [[id|]|[id|]| |data]; cbn [Page.run run]; try reflexivity.
  - unfold Page.markStepCompleted, markStepCompleted.
    destruct (negb _); [reflexivity|].
    now destruct (saveProgress _ _ _) as [[|] env'].
  - unfold Page.markStepIncomplete, markStepIncomplete.
    destruct (negb _); [reflexivity|].
    now destruct (saveProgress _ _ _) as [[|] env'].
  - unfold Page.resetProgress, resetProgress.
    now destruct (saveProgress _ _ _) as [[|] env'].
  - unfold Page.importProgress, importProgress.
    destruct (_ || _); [reflexivity|].
    now destruct (saveProgress _ _ _) as [[|] env'].
Qed.

(** The page after a call: rendered from the new record when the write
    succeeded, untouched when it failed or the call was rejected. *)
Lemma Page_run_view (op : operation) (this : ProgressTracker) (env : Browser) (view : View) :
  let '(saved, this', env') := run JSON_stringify op this env in
  snd (Page.run JSON_stringify Number_toString querySelector_escaped op this env view) =
  if saved
  then match op with
       | MarkStepCompleted (Some id) | MarkStepIncomplete (Some id) =>
           Page.updateProgressBar Number_toString this' env'
             (Page.updateStepUI querySelector_escaped id this' view)
       | _ => Page.updateUI Number_toString querySelector_escaped this' env' view
       end
  else view.
Proof.
  destruct op as [[id|]|[id|]| |data]; cbn [Page.run run]; try reflexivity.
  - unfold Page.markStepCompleted, markStepCompleted.
    destruct (negb _); [reflexivity|].
    now destruct (saveProgress _ _ _) as [[|] env'].
  - unfold Page.markStepIncomplete, markStepIncomplete.
    destruct (negb _); [reflexivity|].
    now destruct (saveProgress _ _ _) as [[|] env'].
  - unfold Page.resetProgress, resetProgress.
    now destruct (saveProgress _ _ _) as [[|] env'].
  - unfold Page.importProgress, importProgress.
    destruct (_ || _); [reflexivity|].
    now destruct (saveProgress _ _ _) as [[|] env'].
Qed.

(** X16.  The marker of a step after marking it.  For a step identifier
    that needs no escaping in a selector, a call of [markStepCompleted] or
    [markStepIncomplete] that returns true sets [completed] on the first
    element carrying that [data-step] to what [isStepCompleted] now
    answers, and leaves every other element, later elements with the same
    [data-step] included, as it was.  A call that returns false leaves the
    page as it was. *)
Theorem mark_renders_step (op : operation) (id : string) (this : ProgressTracker)
    (env : Browser) (view : View) :
  id <> EmptyString -> selector_safe id = true ->
  op = MarkStepCompleted (Some id) \/ op = MarkStepIncomplete (Some id) ->
  let '(saved, this', env', view') :=
    Page.run JSON_stringify Number_toString querySelector_escaped op this env view in
  (saved = true ->
     forall i e, stepElements view !! i = Some e ->
       stepElements view' !! i =
       Some (if bool_decide (first_with_step id (stepElements view) = Some i)
             then {| data_step := id; completed := isStepCompleted this' id |}
             else e)) /\
  (saved = false -> view' = view).
Proof.
  intros Hid Hsafe Hop.
  pose proof (Page_run_core op this env view) as Hcore.
  pose proof (Page_run_view op this env view) as Hview.
  destruct (Page.run _ _ _ op this env view) as [[[saved this'] env'] view'].
  cbn [fst snd] in *. rewrite <- Hcore in Hview. cbn [fst snd] in *.
  split.
  - intros -> i e He. rewrite Hview.
    assert (Hv : (match op with
                  | MarkStepCompleted (Some id0) | MarkStepIncomplete (Some id0) =>
                      Page.updateProgressBar Number_toString this' env'
                        (Page.updateStepUI querySelector_escaped id0 this' view)
                  | _ => Page.updateUI Number_toString querySelector_escaped this' env' view
                  end) = Page.updateProgressBar Number_toString this' env'
                           (Page.updateStepUI querySelector_escaped id this' view))
      by (destruct Hop as [-> | ->]; reflexivity).
    rewrite Hv, updateProgressBar_elements. now apply updateStepUI_lookup.
  - intros ->. exact Hview.
Qed.

(** X17.  A click never takes a marker away.  After [handleStepClick], for
    any step identifier and whatever the storage does, the page has the
    same elements with the same [data-step], and every element that showed
    [completed] still shows it. *)
Theorem click_keeps_markers (stepId : string) (this : ProgressTracker) (env : Browser)
    (view : View) (i : nat) (e : StepElement) :
  stepElements view !! i = Some e ->
  let '(_, _, view') :=
    Page.handleStepClick JSON_stringify Number_toString querySelector_escaped
      stepId this env view in
  length (stepElements view') = length (stepElements view) /\
  exists e', stepElements view' !! i = Some e' /\ data_step e' = data_step e /\
             (completed e = true -> completed e' = true).
Proof.
  intros He. unfold Page.handleStepClick.
  pose proof (Page_run_core (MarkStepCompleted (Some stepId)) this env view) as Hcore.
  pose proof (Page_run_view (MarkStepCompleted (Some stepId)) this env view) as Hview.
  pose proof (markStepCompleted_then_isStepCompleted JSON_stringify stepId this env) as Hdone.
  cbn [Page.run run] in Hcore, Hview.
  destruct (Page.markStepCompleted _ _ _ _ _ _ _) as [[[saved this'] env'] view'].
  cbn [fst snd] in *. rewrite <- Hcore in Hview, Hdone. cbn [fst snd] in *.
  destruct saved; subst view'.
  - rewrite updateProgressBar_elements, updateStepUI_length. split; [reflexivity|].
    destruct (updateStepUI_lookup_any stepId this' view i e He) as [H|H]; rewrite H.
    + exists e. auto.
    + eexists. split; [reflexivity|]. split; [reflexivity|]. cbn. intros _.
      apply Hdone. intros ->. 
      unfold markStepCompleted in Hcore. cbn in Hcore. discriminate.
  - split; [reflexivity|]. exists e. auto.
Qed.

Lemma fold_updateStepUI_container (ks : list string) (this : ProgressTracker) (view : View) :
  progressContainer
    (fold_left (fun view stepId => Page.updateStepUI querySelector_escaped stepId this view)
               ks view)
  = progressContainer view.
Proof.
  revert view. induction ks as [|k ks IH]; intros view; [reflexivity|].
  cbn [fold_left]. now rewrite IH, updateStepUI_container.
Qed.

Lemma fold_updateStepUI_lookup (ks : list string) (this : ProgressTracker) (view : View)
    (i : nat) (e : StepElement) :
  forallb selector_safe ks = true ->
  stepElements view !! i = Some e ->
  stepElements
    (fold_left (fun view stepId => Page.updateStepUI querySelector_escaped stepId this view)
               ks view) !! i
  = Some (if existsb (String.eqb (data_step e)) ks
          then rendered this (stepElements view) i e else e).
Proof.
  revert view e. induction ks as [|k ks IH]; intros view e Hsafe He; [exact He|].
  cbn [forallb] in Hsafe. apply andb_true_iff in Hsafe. destruct Hsafe as [Hk Hks].
  cbn [fold_left existsb].
  pose proof (updateStepUI_lookup k this view i e Hk He) as H1.
  rewrite (IH _ _ Hks H1). clear IH. unfold rendered.
  destruct (bool_decide (first_with_step k (stepElements view) = Some i)) eqn:Hfirst.
  - apply bool_decide_eq_true_1 in Hfirst.
    destruct (first_with_step_Some _ _ _ Hfirst) as (e' & He' & Hd).
    rewrite He in He'. inversion He'. subst e'. cbn [data_step].
    rewrite updateStepUI_first, Hd, Hfirst, String.eqb_refl.
    rewrite bool_decide_eq_true_2 by reflexivity.
    now destruct (existsb _ ks).
  - apply bool_decide_eq_false_1 in Hfirst. rewrite updateStepUI_first.
    destruct (String.eqb_spec (data_step e) k) as [Hek|Hek]; cbn [orb].
    + rewrite Hek. rewrite bool_decide_eq_false_2 by assumption.
      now destruct (existsb _ ks).
    + reflexivity.
Qed.

(** X18.  What [updateUI] renders.  On a record whose keys need no
    escaping, [updateUI] sets [completed] on the first element of each step
    that has an entry in the record, as [isStepCompleted] answers, and
    leaves every other element as it was: an element whose step has no
    entry keeps its marker, whatever it shows.  The progress container
    shows the percentage of the record. *)
Theorem updateUI_renders (this : ProgressTracker) (env : Browser) (view : View) :
  forallb selector_safe (Object_keys (progress this)) = true ->
  (forall i e, stepElements view !! i = Some e ->
     stepElements (Page.updateUI Number_toString querySelector_escaped this env view) !! i =
     Some (if existsb (String.eqb (data_step e)) (Object_keys (progress this))
           then rendered this (stepElements view) i e else e)) /\
  (forall container, progressContainer view = Some container ->
     let text := Number_toString (getCompletionPercentage this env) +:+ "%" in
     progressContainer (Page.updateUI Number_toString querySelector_escaped this env view) =
     Some {| percentage_text := option_map (fun _ => text) (percentage_text container);
             fill_width := option_map (fun _ => text) (fill_width container) |}).
Proof.
  intros Hsafe. unfold Page.updateUI. split.
  - intros i e He. rewrite updateProgressBar_elements.
    now apply fold_updateStepUI_lookup.
  - intros container Hc. unfold Page.updateProgressBar.
    now rewrite fold_updateStepUI_container, Hc.
Qed.

(** X19.  [resetProgress] does not clear the markers.  Whatever the
    storage does, the elements of the page are after the call as they were
    before it: a step shown as completed is still shown as completed,
    while the record is empty and, when the write succeeded, the progress
    container shows the percentage of the empty record. *)
Theorem resetProgress_keeps_markers (this : ProgressTracker) (env : Browser) (view : View) :
  let '(saved, this', env', view') :=
    Page.resetProgress JSON_stringify Number_toString querySelector_escaped this env view in
  stepElements view' = stepElements view /\
  progress this' = [] /\
  (saved = true ->
   forall container, progressContainer view = Some container ->
     let text := Number_toString (getCompletionPercentage this' env') +:+ "%" in
     progressContainer view' =
     Some {| percentage_text := option_map (fun _ => text) (percentage_text container);
             fill_width := option_map (fun _ => text) (fill_width container) |}) /\
  (saved = false -> view' = view).
Proof.
  unfold Page.resetProgress.
  destruct (saveProgress _ _ _) as [[|] env1] eqn:Es.
  - split; [|split; [reflexivity|split; [|discriminate]]].
    + unfold Page.updateUI. now rewrite updateProgressBar_elements.
    + intros _ container Hc. cbv zeta. unfold Page.updateUI, Page.updateProgressBar.
      cbn [progress with_progress Object_keys List.map fold_left]. rewrite Hc.
      reflexivity.
  - repeat split; try reflexivity; discriminate.
Qed.

(** X20.  The self-test writes.  [testProgressBar] marks step 1 as
    completed: afterwards the record has the entry, so the counts it
    reports are those of a record with at least one completed step, and it
    has saved and announced the step like any [markStepCompleted("1")]. *)
Theorem testProgressBar_marks (this : ProgressTracker) (env : Browser) (view : View) :
  let '(report, this', env', view') :=
    Page.testProgressBar JSON_stringify Number_toString querySelector_escaped
      this env view in
  (this', env', view') =
    Page.handleStepClick JSON_stringify Number_toString querySelector_escaped
      "1" this env view /\
  own_get "1" (progress this') = Some (VBool true) /\
  (1 <= getCompletedStepsCount this')%nat /\
  report = VObj [ ("totalSteps", VNum (Number.of_nat (navItems env)));
                  ("completedSteps", VNum (Number.of_nat (getCompletedStepsCount this')));
                  ("percentage", VNum (percentage (getProgressSummary this' env')));
                  ("progress", VObj (progress this')) ].
Proof.
  unfold Page.testProgressBar, Page.handleStepClick.
  pose proof (Page_run_core (MarkStepCompleted (Some "1")) this env view) as Hcore.
  pose proof (run_navItems JSON_stringify (MarkStepCompleted (Some "1")) this env) as Hnav.
  pose proof (markStepCompleted_record JSON_stringify "1" this env) as Hrec.
  cbn [Page.run run] in Hcore, Hnav.
  destruct (Page.markStepCompleted _ _ _ _ _ _ _) as [[[saved this'] env'] view'].
  cbn [fst] in Hcore. rewrite <- Hcore in Hnav, Hrec. cbn [fst snd] in Hrec, Hnav.
  assert (Hown : own_get "1" (progress this') = Some (VBool true)).
  { rewrite Hrec by discriminate. cbn [progress with_progress].
    destruct (js_set_get (progress this) "1" (VBool true)) as [H|(H & _)];
      [assumption | discriminate]. }
  split; [reflexivity|]. split; [assumption|]. split.
  - unfold getCompletedStepsCount.
    clear - Hown. induction (progress this') as [|[k v] p IH]; [discriminate|].
    cbn [own_get] in Hown. cbn [Object_values List.map snd List.filter].
    fold (Object_values p).
    destruct (String.eqb "1" k).
    + inversion Hown. cbn. lia.
    + specialize (IH Hown). destruct (truthy v); cbn [length]; lia.
  - unfold getTotalSteps. rewrite Hnav. reflexivity.
Qed.

End Rendering.

(** ** The theme toggle *)

Section ThemeProperties.

Import ThemeToggle.

Variable JSON_stringify : jsval -> completion string.
Variable JSON_parse : string -> completion jsval.

Lemma valid_cases (theme : jsval) :
  valid theme = true -> theme = VStr "dark" \/ theme = VStr "light".
Proof.
  unfold valid. destruct theme; try discriminate. cbn.
  intros H. apply orb_true_iff in H. destruct H as [H|H]; apply String.eqb_eq in H;
    subst; auto.
Qed.

Lemma valid_choice (b : bool) (x y : string) :
  valid (if b then VStr x else VStr y) = valid (VStr (if b then x else y)).
Proof. now destruct b. Qed.

Lemma Button_eqb_refl (b : Button) : Button_eqb b b = true.
Proof.
  unfold Button_eqb. rewrite String.eqb_refl.
  destruct (aria_label b); [apply String.eqb_refl | reflexivity].
Qed.

Lemma applyTheme_shows (this : t) (doc : Document) :
  shows (fst (applyTheme (currentTheme this) this doc))
        (snd (applyTheme (currentTheme this) this doc)) = true.
Proof.
  unfold applyTheme, shows, toggleClass.
  destruct (button this) eqn:Hb; cbn; rewrite ?Hb, Bool.eqb_reflx; cbn.
  - apply Button_eqb_refl.
  - reflexivity.
Qed.

Lemma setTheme_valid (theme : jsval) (this : t) (doc : Document) (ls : LocalStorage) :
  valid theme = true ->
  setTheme JSON_stringify theme this doc ls =
  (fst (applyTheme theme (with_theme this theme) doc),
   snd (applyTheme theme (with_theme this theme) doc),
   snd (save JSON_stringify (storage this) "preference" theme ls)).
Proof.
  intros Hv. unfold setTheme. fold (valid theme). rewrite Hv. cbn [negb].
  unfold saveTheme, applyTheme. now destruct (button (with_theme this theme)).
Qed.

Lemma setTheme_invalid (theme : jsval) (this : t) (doc : Document) (ls : LocalStorage) :
  valid theme = false -> setTheme JSON_stringify theme this doc ls = (this, doc, ls).
Proof. intros Hv. unfold setTheme. fold (valid theme). now rewrite Hv. Qed.

Lemma setTheme_accepted (theme : jsval) (this : t) (doc : Document) (ls : LocalStorage) :
  valid theme = true ->
  let '(this', doc', ls') := setTheme JSON_stringify theme this doc ls in
  currentTheme this' = theme /\
  shows this' doc' = true /\
  themechange doc' =
    themechange doc ++ [ {| theme := theme; previousTheme := theme |} ] /\
  ls' = snd (save JSON_stringify (storage this) "preference" theme ls) /\
  storage this' = storage this /\
  cleanupFunctions this' = cleanupFunctions this /\
  (button this' = None <-> button this = None).
Proof.
  intros Hv. rewrite setTheme_valid by assumption.
  pose proof (applyTheme_shows (with_theme this theme) doc) as Hs.
  cbn [currentTheme with_theme] in Hs.
  unfold applyTheme in *. cbn [button with_theme] in *.
  destruct (button this) eqn:Hb; cbn in *; rewrite ?Hb;
    repeat split; try assumption; try reflexivity; try discriminate.
Qed.

(** X21.  [setTheme] accepts the strings [dark] and [light] and nothing
    else.  A rejected call changes nothing.  An accepted call makes the
    theme current, puts the page in line with it, dispatches exactly one
    [themechange] event, and hands the theme to the storage, whose answer
    it ignores: the page changes also when the preference could not be
    saved.  The event's [previousTheme] is the new theme, not the one the
    page had before. *)
Theorem setTheme_spec (theme : jsval) (this : t) (doc : Document) (ls : LocalStorage) :
  let '(this', doc', ls') := setTheme JSON_stringify theme this doc ls in
  if valid theme
  then currentTheme this' = theme /\
       shows this' doc' = true /\
       themechange doc' =
         themechange doc ++ [ {| theme := theme; previousTheme := theme |} ] /\
       ls' = snd (save JSON_stringify (storage this) "preference" theme ls) /\
       storage this' = storage this /\
       cleanupFunctions this' = cleanupFunctions this /\
       (button this' = None <-> button this = None)
  else (this', doc', ls') = (this, doc, ls).
Proof.
  destruct (valid theme) eqn:Hv.
  - now apply setTheme_accepted.
  - now rewrite setTheme_invalid.
Qed.

Lemma setTheme_events (theme : jsval) (this : t) (doc : Document) (ls : LocalStorage) :
  exists new,
    themechange (snd (fst (setTheme JSON_stringify theme this doc ls)))
    = themechange doc ++ new /\
    Forall (fun e => previousTheme e = ThemeToggle.theme e) new.
Proof.
  destruct (valid theme) eqn:Hv.
  - pose proof (setTheme_accepted theme this doc ls Hv) as H.
    destruct (setTheme JSON_stringify theme this doc ls) as [[this' doc'] ls'].
    destruct H as (_ & _ & H & _). cbn [fst snd]. rewrite H.
    eexists. split; [reflexivity|]. repeat constructor.
  - rewrite setTheme_invalid by assumption.
    exists []. split; [now rewrite app_nil_r | constructor].
Qed.

Lemma act_events (a : action) (this : t) (doc : Document) (ls : LocalStorage) :
  exists new,
    themechange (snd (fst (act JSON_stringify JSON_parse a this doc ls)))
    = themechange doc ++ new /\
    Forall (fun e => previousTheme e = ThemeToggle.theme e) new.
Proof.
  assert (Hnone : exists new, themechange doc = themechange doc ++ new /\
                    Forall (fun e => previousTheme e = ThemeToggle.theme e) new).
  { exists []. split; [now rewrite app_nil_r | constructor]. }
  destruct a as [[|matches|key]|theme| |]; cbn [act deliver].
  - destruct (existsb _ _); [apply setTheme_events | exact Hnone].
  - destruct (existsb _ _); [|exact Hnone]. unfold handleSystemThemeChange.
    destruct (negb _); [apply setTheme_events | exact Hnone].
  - destruct (existsb _ _); [|exact Hnone]. unfold handleKeydown.
    destruct (_ || _); [apply setTheme_events | exact Hnone].
  - apply setTheme_events.
  - apply setTheme_events.
  - exact Hnone.
Qed.

(** X22.  No [themechange] event tells what the theme was.  In every event
    the toggle dispatches, at construction and in any sequence of clicks,
    key presses, system changes and calls of its methods, [previousTheme]
    equals [theme]. *)
Theorem themechange_previousTheme (found : option Button) (matchMedia : bool)
    (l : list action) (doc : Document) (ls : LocalStorage) :
  let '(this0, doc0) := constructor JSON_parse found matchMedia doc ls in
  let '(_, doc', _) := acts JSON_stringify JSON_parse l this0 doc0 ls in
  exists new,
    themechange doc' = themechange doc ++ new /\
    Forall (fun e => previousTheme e = ThemeToggle.theme e) new.
Proof.
  assert (Hacts : forall l this doc ls,
            exists new,
              themechange (snd (fst (acts JSON_stringify JSON_parse l this doc ls)))
              = themechange doc ++ new /\
              Forall (fun e => previousTheme e = ThemeToggle.theme e) new).
  { clear. induction l as [|a l IH]; intros this doc ls; cbn [acts].
    - exists []. split; [now rewrite app_nil_r | constructor].
    - destruct (act_events a this doc ls) as (new1 & H1 & F1).
      destruct (act _ _ a this doc ls) as [[this1 doc1] ls1]. cbn [fst snd] in H1.
      destruct (IH this1 doc1 ls1) as (new2 & H2 & F2).
      exists (new1 ++ new2). rewrite H2, H1, app_assoc. split; [reflexivity|].
      now apply Forall_app. }
  assert (Hnew : exists new0,
            themechange (snd (constructor JSON_parse found matchMedia doc ls))
            = themechange doc ++ new0 /\
            Forall (fun e => previousTheme e = ThemeToggle.theme e) new0).
  { unfold constructor, init. cbn [button with_theme].
    destruct found as [b|].
    - unfold applyTheme. cbn. eexists. split; [reflexivity|]. repeat constructor.
    - exists []. split; [now rewrite app_nil_r | constructor]. }
  destruct (constructor JSON_parse found matchMedia doc ls) as [this0 doc0].
  destruct Hnew as (new0 & H0 & F0). cbn [snd] in H0.
  destruct (Hacts l this0 doc0 ls) as (new & H & F).
  destruct (acts _ _ l this0 doc0 ls) as [[this' doc'] ls']. cbn [fst snd] in H.
  exists (new0 ++ new). rewrite H, H0, app_assoc. split; [reflexivity|].
  now apply Forall_app.
Qed.

(** X23.  [toggle] always lands on a theme [setTheme] accepts: on [light]
    from [dark], and on [dark] from anything else, a stored value that is
    no theme included.  From [dark] or [light], toggling twice gives the
    theme back, with the page in line with it and two events dispatched. *)
Theorem toggle_spec (this : t) (doc : Document) (ls : LocalStorage) :
  let '(this1, doc1, ls1) := toggle JSON_stringify this doc ls in
  let '(this2, doc2, ls2) := toggle JSON_stringify this1 doc1 ls1 in
  currentTheme this1 =
    VStr (if strict_equal_string (currentTheme this) "dark" then "light" else "dark") /\
  shows this1 doc1 = true /\
  (valid (currentTheme this) = true ->
   currentTheme this2 = currentTheme this /\ shows this2 doc2 = true /\
   length (themechange doc2) = (length (themechange doc) + 2)%nat).
Proof.
  unfold toggle.
  set (new1 := if strict_equal_string (currentTheme this) "dark"
               then VStr "light" else VStr "dark").
  assert (Hv1 : valid new1 = true)
    by (unfold new1; rewrite valid_choice; now destruct (strict_equal_string _ _)).
  pose proof (setTheme_accepted new1 this doc ls Hv1) as H1.
  destruct (setTheme JSON_stringify new1 this doc ls) as [[this1 doc1] ls1].
  destruct H1 as (Hc1 & Hs1 & He1 & _).
  set (new2 := if strict_equal_string (currentTheme this1) "dark"
               then VStr "light" else VStr "dark").
  assert (Hv2 : valid new2 = true)
    by (unfold new2; rewrite valid_choice;
        now destruct (strict_equal_string (currentTheme this1) "dark")).
  pose proof (setTheme_accepted new2 this1 doc1 ls1 Hv2) as H2.
  destruct (setTheme JSON_stringify new2 this1 doc1 ls1) as [[this2 doc2] ls2].
  destruct H2 as (Hc2 & Hs2 & He2 & _).
  split; [|split; [assumption|]].
  - rewrite Hc1. unfold new1. now destruct (strict_equal_string _ _).
  - intros Hv. split; [|split; [assumption|]].
    + rewrite Hc2. unfold new2. rewrite Hc1. unfold new1.
      destruct (valid_cases _ Hv) as [-> | ->]; reflexivity.
    + rewrite He2, He1, !length_app. cbn. lia.
Qed.

Lemma act_shows (a : action) (this : t) (doc : Document) (ls : LocalStorage) :
  shows this doc = true ->
  shows (fst (fst (act JSON_stringify JSON_parse a this doc ls)))
        (snd (fst (act JSON_stringify JSON_parse a this doc ls))) = true.
Proof.
  intros Hs.
  assert (Hset : forall theme,
            shows (fst (fst (setTheme JSON_stringify theme this doc ls)))
                  (snd (fst (setTheme JSON_stringify theme this doc ls))) = true).
  { intros theme. destruct (valid theme) eqn:Hv.
    - pose proof (setTheme_accepted theme this doc ls Hv) as H.
      destruct (setTheme JSON_stringify theme this doc ls) as [[this' doc'] ls']. tauto.
    - now rewrite setTheme_invalid. }
  destruct a as [[|matches|key]|theme| |]; cbn [act deliver].
  - destruct (existsb _ _); [apply Hset | exact Hs].
  - destruct (existsb _ _); [|exact Hs]. unfold handleSystemThemeChange.
    destruct (negb _); [apply Hset | exact Hs].
  - destruct (existsb _ _); [|exact Hs]. unfold handleKeydown.
    destruct (_ || _); [apply Hset | exact Hs].
  - apply Hset.
  - apply Hset.
  - exact Hs.
Qed.

(** X24.  The page and the toggle stay in line.  A toggle constructed on a
    page that has the button shows its theme from then on: after
    construction and after any sequence of clicks, key presses, system
    changes and calls of its methods, [light-mode] is on the body exactly
    when the current theme is not [dark], and the button offers the other
    theme.  This holds whatever the storage does in between. *)
Theorem page_shows_theme (b : Button) (matchMedia : bool) (l : list action)
    (doc : Document) (ls ls0 : LocalStorage) :
  let '(this0, doc0) := constructor JSON_parse (Some b) matchMedia doc ls in
  let '(this', doc', _) := acts JSON_stringify JSON_parse l this0 doc0 ls0 in
  shows this0 doc0 = true /\ shows this' doc' = true.
Proof.
  assert (Hacts : forall l this doc ls,
            shows this doc = true ->
            shows (fst (fst (acts JSON_stringify JSON_parse l this doc ls)))
                  (snd (fst (acts JSON_stringify JSON_parse l this doc ls))) = true).
  { clear. induction l as [|a l IH]; intros this doc ls Hs; cbn [acts]; [exact Hs|].
    pose proof (act_shows a this doc ls Hs) as H1.
    destruct (act _ _ a this doc ls) as [[this1 doc1] ls1]. now apply IH. }
  assert (H0 : shows (fst (constructor JSON_parse (Some b) matchMedia doc ls))
                     (snd (constructor JSON_parse (Some b) matchMedia doc ls)) = true).
  { unfold constructor, init. cbn [button with_theme].
    set (this1 := with_theme _ _).
    pose proof (applyTheme_shows this1 doc) as Hs.
    destruct (applyTheme (currentTheme this1) this1 doc) as [this2 doc2].
    cbn [fst snd] in *. unfold setupEventListeners.
    destruct (button this2); exact Hs. }
  destruct (constructor JSON_parse (Some b) matchMedia doc ls) as [this0 doc0].
  cbn [fst snd] in H0. pose proof (Hacts l this0 doc0 ls0 H0) as H.
  destruct (acts _ _ l this0 doc0 ls0) as [[this' doc'] ls']. auto.
Qed.

Lemma deliver_unheard (evs : list Event) (this : t) (doc : Document) (ls : LocalStorage) :
  cleanupFunctions this = [] ->
  acts JSON_stringify JSON_parse (List.map Deliver evs) this doc ls = (this, doc, ls).
Proof.
  intros Hnone. induction evs as [|ev evs IH]; [reflexivity|].
  cbn [List.map acts act]. unfold deliver. rewrite Hnone. cbn [existsb].
  destruct ev; exact IH.
Qed.

(** X25.  Without the button the toggle is inert.  Constructed on a page
    where the selector finds nothing, it reads the stored theme but does
    not apply it: the page is as it was, no event is dispatched and no
    listener is registered, so that no sequence of clicks, key presses and
    system changes has any effect.  The same holds for every toggle after
    [destroy]. *)
Theorem no_button_no_theme (matchMedia : bool) (doc : Document) (ls : LocalStorage)
    (evs : list Event) (this : t) (doc1 : Document) (ls1 : LocalStorage) :
  let '(this0, doc0) := constructor JSON_parse None matchMedia doc ls in
  doc0 = doc /\ currentTheme this0 = loadTheme JSON_parse this0 ls /\
  acts JSON_stringify JSON_parse (List.map Deliver evs) this0 doc1 ls1
  = (this0, doc1, ls1) /\
  acts JSON_stringify JSON_parse (List.map Deliver evs) (destroy this) doc1 ls1
  = (destroy this, doc1, ls1).
Proof.
  unfold constructor, init. cbn [button with_theme].
  split; [reflexivity|]. split; [reflexivity|].
  split; now apply deliver_unheard.
Qed.

(** X26.  A saved preference is the theme of the next page.  After
    [setTheme] has accepted a theme and the storage has taken it, a toggle
    constructed on that storage has that theme, as far as [JSON.parse]
    inverts [JSON.stringify] on it.  When the storage has not taken it,
    the next toggle has the theme it would have had without the call. *)
Theorem theme_after_reload (theme : jsval) (this : t) (doc : Document) (ls : LocalStorage)
    (found : option Button) (matchMedia : bool) (doc0 : Document) :
  valid theme = true ->
  storage this = {| namespace := "theme" |} ->
  (forall text, JSON_stringify theme = Normal text -> JSON_parse text = Normal theme) ->
  let '(_, _, ls') := setTheme JSON_stringify theme this doc ls in
  let saved := fst (save JSON_stringify (storage this) "preference" theme ls) in
  currentTheme (fst (constructor JSON_parse found matchMedia doc0 ls')) =
  if saved then theme
  else currentTheme (fst (constructor JSON_parse found matchMedia doc0 ls)).
Proof.
  intros Hv Hst Hcodec. rewrite setTheme_valid by assumption. cbv zeta.
  assert (Hcur : forall ls0,
            currentTheme (fst (constructor JSON_parse found matchMedia doc0 ls0)) =
            let saved := load JSON_parse {| namespace := "theme" |} "preference" VNull ls0 in
            if truthy saved then saved else VStr "dark").
  { intros ls0. unfold constructor, init, loadTheme. cbn [button with_theme storage].
    destruct found; [|reflexivity].
    unfold applyTheme, setupEventListeners. reflexivity. }
  rewrite !Hcur. rewrite Hst.
  destruct (fst (save JSON_stringify {| namespace := "theme" |} "preference" theme ls)) eqn:Hs.
  - cbv zeta. rewrite load_after_save by assumption.
    destruct (valid_cases _ Hv) as [-> | ->]; reflexivity.
  - now rewrite (save_failed JSON_stringify _ _ _ _ Hs).
Qed.

(** X27.  The system's theme is followed until it has been followed once.
    A change of the system's colour scheme is ignored when a preference is
    stored.  When none is stored the toggle takes the system's theme, and
    by saving it makes it the stored preference: where the storage takes
    it, every later change of the system's colour scheme is ignored. *)
Theorem system_theme_once (matches : bool) (this : t) (doc : Document) (ls : LocalStorage) :
  let preference := load JSON_parse (storage this) "preference" VNull ls in
  let theme := VStr (if matches then "dark" else "light") in
  (forall text, JSON_stringify theme = Normal text -> JSON_parse text = Normal theme) ->
  let '(this1, doc1, ls1) :=
    handleSystemThemeChange JSON_stringify JSON_parse matches this doc ls in
  (truthy preference = true -> (this1, doc1, ls1) = (this, doc, ls)) /\
  (truthy preference = false ->
     currentTheme this1 = theme /\
     (fst (save JSON_stringify (storage this) "preference" theme ls) = true ->
      forall matches',
        handleSystemThemeChange JSON_stringify JSON_parse matches' this1 doc1 ls1
        = (this1, doc1, ls1))).
Proof.
  intros preference theme Hcodec. unfold handleSystemThemeChange at 1.
  fold preference. fold theme.
  destruct (truthy preference) eqn:Hp; cbn [negb].
  - split; [reflexivity | discriminate].
  - assert (Hv : valid theme = true) by (unfold theme; now destruct matches).
    pose proof (setTheme_accepted theme this doc ls Hv) as H.
    destruct (setTheme JSON_stringify theme this doc ls) as [[this1 doc1] ls1].
    destruct H as (Hc & _ & _ & Hls & Hst & _).
    split; [discriminate|]. intros _. split; [assumption|].
    intros Hsaved matches'. unfold handleSystemThemeChange.
    rewrite Hst, Hls, load_after_save by assumption.
    unfold theme. now destruct matches.
Qed.

End ThemeProperties.

(** ** The further statements on concrete pages *)

Lemma save_then_load_witness :
  let this := {| namespace := "mcp" |} in
  let data := VObj [("a", VBool true)] in
  fst (save SampleJSON.stringify this "progress" data open_storage) = true /\
  load SampleJSON.parse this "progress" (VObj [])
    (snd (save SampleJSON.stringify this "progress" data open_storage)) = data.
Proof.
  cbv zeta.
  assert (Hsaved : fst (save SampleJSON.stringify {| namespace := "mcp" |} "progress"
                          (VObj [("a", VBool true)]) open_storage) = true)
    by (vm_compute; reflexivity).
  split; [exact Hsaved|].
  destruct (save_then_load SampleJSON.stringify SampleJSON.parse {| namespace := "mcp" |}
              "progress" (VObj [("a", VBool true)]) (VObj []) open_storage Hsaved)
    as (text & Htext & _ & Hback).
  apply Hback. vm_compute in Htext. injection Htext as <-. vm_compute. reflexivity.
Defined.

Lemma save_frame_witness :
  let this := {| namespace := "mcp" |} in
  "theme_preference" <> _getKey this "progress" /\
  ls_items (snd (save SampleJSON.stringify this "progress" (VObj []) corrupt_storage))
    !! "theme_preference" = ls_items corrupt_storage !! "theme_preference" /\
  fst (save SampleJSON.stringify this "progress" (VObj []) disabled_storage) = false /\
  snd (save SampleJSON.stringify this "progress" (VObj []) disabled_storage)
  = disabled_storage.
Proof.
  cbv zeta. split; [discriminate|].
  destruct (save_frame SampleJSON.stringify {| namespace := "mcp" |} "progress" (VObj [])
              corrupt_storage) as [Hother _].
  destruct (save_frame SampleJSON.stringify {| namespace := "mcp" |} "progress" (VObj [])
              disabled_storage) as [_ Hfail].
  split; [apply Hother; discriminate|].
  split; [reflexivity | apply Hfail; reflexivity].
Defined.

Lemma remove_spec_witness :
  let this := {| namespace := "mcp" |} in
  ls_enabled corrupt_storage = true /\
  fst (remove this "progress" corrupt_storage) = true /\
  load SampleJSON.parse this "progress" (VObj []) (snd (remove this "progress" corrupt_storage))
  = VObj [] /\
  ls_enabled disabled_storage = false /\
  remove this "progress" disabled_storage = (false, disabled_storage).
Proof.
  cbv zeta.
  destruct (remove_spec SampleJSON.parse {| namespace := "mcp" |} "progress" (VObj [])
              corrupt_storage) as [Hon _].
  destruct (remove_spec SampleJSON.parse {| namespace := "mcp" |} "progress" (VObj [])
              disabled_storage) as [_ Hoff].
  destruct (Hon eq_refl) as (Hret & Hload & _).
  split; [reflexivity|]. split; [exact Hret|]. split; [exact Hload|].
  split; [reflexivity | exact (Hoff eq_refl)].
Defined.

Lemma clear_then_load_witness :
  let this := {| namespace := "mcp" |} in
  ls_enabled corrupt_storage = true /\
  load SampleJSON.parse this "progress" (VObj []) (snd (clear this corrupt_storage))
  = VObj [] /\
  clear this (snd (clear this corrupt_storage)) = (true, snd (clear this corrupt_storage)).
Proof.
  cbv zeta.
  destruct (clear_then_load SampleJSON.parse {| namespace := "mcp" |} corrupt_storage
              eq_refl) as [Hload Hagain].
  split; [reflexivity|]. split; [apply Hload | exact Hagain].
Defined.

Lemma namespace_isolation_witness :
  let this := {| namespace := "mcp" |} in
  let other := {| namespace := "theme" |} in
  no_underscore (namespace this) = true /\ no_underscore (namespace other) = true /\
  namespace this <> namespace other /\
  ls_items (snd (save SampleJSON.stringify this "progress" (VObj []) corrupt_storage))
    !! _getKey other "preference" = ls_items corrupt_storage !! _getKey other "preference" /\
  ls_items (snd (remove this "progress" corrupt_storage)) !! _getKey other "preference"
  = ls_items corrupt_storage !! _getKey other "preference" /\
  ls_items (snd (clear this corrupt_storage)) !! _getKey other "preference"
  = ls_items corrupt_storage !! _getKey other "preference".
Proof.
  cbv zeta. split; [reflexivity|]. split; [reflexivity|]. split; [discriminate|].
  apply (namespace_isolation SampleJSON.stringify {| namespace := "mcp" |}
           {| namespace := "theme" |} "progress" "preference" (VObj []) corrupt_storage);
    [reflexivity | reflexivity | discriminate].
Defined.

Lemma isAvailable_spec_witness :
  fst (isAvailable open_storage) = true /\
  ls_items (snd (isAvailable open_storage)) !! "__storage_test__" = None /\
  ls_enabled disabled_storage = false /\
  fst (isAvailable disabled_storage) = false.
Proof.
  destruct (isAvailable_spec open_storage) as (Hok & _ & _).
  destruct (isAvailable_spec disabled_storage) as (_ & _ & Hoff).
  assert (Hprobe : fst (isAvailable open_storage) = true) by (vm_compute; reflexivity).
  destruct (Hok Hprobe) as [Habsent _].
  split; [exact Hprobe|]. split; [exact Habsent|].
  split; [reflexivity | exact (Hoff eq_refl)].
Defined.

Lemma mark_other_steps_witness :
  let this := tracker [("a", VBool true)] in
  let env := page disabled_storage 5 in
  "a" <> "b" /\
  isStepCompleted (snd (fst (markStepCompleted SampleJSON.stringify (Some "b") this env))) "a"
  = isStepCompleted this "a" /\
  isStepCompleted (snd (fst (markStepIncomplete SampleJSON.stringify (Some "b") this env))) "a"
  = isStepCompleted this "a".
Proof.
  cbv zeta. split; [discriminate|].
  apply (mark_other_steps SampleJSON.stringify "b" "a" (tracker [("a", VBool true)])
           (page disabled_storage 5)).
  discriminate.
Defined.

Lemma mark_then_unmark_witness :
  let this := tracker [("a", VBool true)] in
  let env := page open_storage 5 in
  "3" <> EmptyString /\ own_get "3" (progress this) = None /\
  snd (fst (markStepIncomplete SampleJSON.stringify (Some "3")
              (snd (fst (markStepCompleted SampleJSON.stringify (Some "3") this env))) env))
  = this.
Proof.
  cbv zeta. split; [discriminate|]. split; [reflexivity|].
  destruct (mark_then_unmark SampleJSON.stringify "3" (tracker [("a", VBool true)])
              (page open_storage 5) (page open_storage 5)) as [_ Hback];
    [discriminate|].
  apply Hback. reflexivity.
Defined.

Lemma mark_count_witness :
  let this := tracker [("a", VBool true); ("b", VBool false)] in
  let env := page open_storage 5 in
  "b" <> EmptyString /\ js_wf (progress this) = true /\
  getCompletedStepsCount (snd (fst (markStepCompleted SampleJSON.stringify (Some "b") this env)))
  = (getCompletedStepsCount this + 1)%nat /\
  (getCompletedStepsCount (snd (fst (markStepIncomplete SampleJSON.stringify (Some "b") this env)))
   + 0)%nat = getCompletedStepsCount this.
Proof.
  cbv zeta.
  destruct (mark_count SampleJSON.stringify "b"
              (tracker [("a", VBool true); ("b", VBool false)]) (page open_storage 5))
    as [Hup Hdown]; [discriminate|].
  split; [discriminate|]. split; [reflexivity|]. split.
  - exact Hup.
  - exact (Hdown eq_refl).
Defined.

Lemma resetProgress_spec_witness :
  let this := tracker [("a", VBool true); ("constructor", VBool true)] in
  let env := page disabled_storage 5 in
  Z.of_nat (navItems env) < 2 ^ 32 /\
  let '(saved, this', env') := resetProgress SampleJSON.stringify this env in
  let s := getProgressSummary this' env' in
  this' = with_progress this [] /\
  saved = fst (saveProgress SampleJSON.stringify (with_progress this []) env) /\
  completedSteps s = 0%nat /\ completedStepIds s = [] /\
  percentage s = Number.of_Z 0 /\
  forall id, isStepCompleted this' id = inherited id.
Proof.
  cbv zeta. split; [reflexivity|].
  apply (resetProgress_spec SampleJSON.stringify
           (tracker [("a", VBool true); ("constructor", VBool true)])
           (page disabled_storage 5)).
  reflexivity.
Defined.

Lemma progress_after_reload_witness :
  let op := MarkStepCompleted (Some "3") in
  let this := tracker [("a", VBool true)] in
  let env := page open_storage 5 in
  let this' := snd (fst (run SampleJSON.stringify op this env)) in
  let env' := snd (run SampleJSON.stringify op this env) in
  (forall text, SampleJSON.stringify (VObj (progress this')) = Normal text ->
                SampleJSON.parse text = Normal (VObj (progress this'))) /\
  fst (fst (run SampleJSON.stringify op this env)) = true /\
  loadProgress SampleJSON.parse this' env' = VObj (progress this').
Proof.
  cbv zeta.
  assert (Hcodec : forall text,
             SampleJSON.stringify
               (VObj (progress (snd (fst (run SampleJSON.stringify
                                            (MarkStepCompleted (Some "3"))
                                            (tracker [("a", VBool true)])
                                            (page open_storage 5)))))) = Normal text ->
             SampleJSON.parse text =
             Normal (VObj (progress (snd (fst (run SampleJSON.stringify
                                                 (MarkStepCompleted (Some "3"))
                                                 (tracker [("a", VBool true)])
                                                 (page open_storage 5))))))).
  { intros text H. vm_compute in H. injection H as <-. vm_compute. reflexivity. }
  assert (Hsaved : fst (fst (run SampleJSON.stringify (MarkStepCompleted (Some "3"))
                               (tracker [("a", VBool true)]) (page open_storage 5))) = true)
    by (vm_compute; reflexivity).
  split; [exact Hcodec|]. split; [exact Hsaved|].
  destruct (progress_after_reload SampleJSON.stringify SampleJSON.parse
              (MarkStepCompleted (Some "3")) (tracker [("a", VBool true)])
              (page open_storage 5) Hcodec) as [Hok _].
  exact (Hok Hsaved).
Defined.

Lemma completed_ids_ascending_witness :
  let op := MarkStepCompleted (Some "1") in
  let this := tracker [("3", VBool true); ("intro", VBool true)] in
  let env := page open_storage 5 in
  let s := getProgressSummary (snd (fst (run SampleJSON.stringify op this env)))
                              (snd (run SampleJSON.stringify op this env)) in
  js_wf (progress this) = true /\ (0 < 1)%nat /\
  completedStepIds s !! 0%nat = Some "1" /\ completedStepIds s !! 1%nat = Some "3" /\
  "1" <> "3" /\
  match array_index "1", array_index "3" with
  | Some x, Some y => (x < y)%N
  | None, Some _ => False
  | _, _ => True
  end.
Proof.
  cbv zeta. split; [reflexivity|]. split; [lia|].
  split; [vm_compute; reflexivity|]. split; [vm_compute; reflexivity|].
  apply (completed_ids_ascending SampleJSON.stringify (MarkStepCompleted (Some "1"))
           (tracker [("3", VBool true); ("intro", VBool true)]) (page open_storage 5)
           0%nat 1%nat "1" "3");
    [reflexivity | lia | vm_compute; reflexivity | vm_compute; reflexivity].
Defined.

Lemma percentage_ends_witness :
  let this := tracker [("a", VBool true); ("b", VBool true)] in
  let env := page open_storage 3 in
  (0 < navItems env < 200)%nat /\
  (getCompletedStepsCount this <= navItems env)%nat /\
  getCompletionPercentage this env <> Number.of_Z 100 /\
  getCompletionPercentage this env <> Number.of_Z 0.
Proof.
  cbv zeta.
  assert (Hpage : (0 < navItems (page open_storage 3) < 200)%nat) by (cbn; lia).
  assert (Hcount : (getCompletedStepsCount (tracker [("a", VBool true); ("b", VBool true)])
                    <= navItems (page open_storage 3))%nat) by (cbn; lia).
  destruct (percentage_ends (tracker [("a", VBool true); ("b", VBool true)])
              (page open_storage 3) Hpage Hcount) as [[Hfull _] [Hnone _]].
  split; [exact Hpage|]. split; [exact Hcount|]. split.
  - intros H. apply Hfull in H. discriminate H.
  - intros H. apply Hnone in H. discriminate H.
Defined.

Lemma mark_renders_step_witness :
  "2" <> EmptyString /\ selector_safe "2" = true /\
  let '(saved, this', env', view') :=
    Page.run SampleJSON.stringify SampleDOM.toString SampleDOM.escaped
      (MarkStepIncomplete (Some "2")) (tracker [("2", VBool true)])
      (page open_storage 5) sample_view in
  (saved = true ->
     forall i e, stepElements sample_view !! i = Some e ->
       stepElements view' !! i =
       Some (if bool_decide (first_with_step "2" (stepElements sample_view) = Some i)
             then {| data_step := "2"; completed := isStepCompleted this' "2" |}
             else e)) /\
  (saved = false -> view' = sample_view).
Proof.
  split; [discriminate|]. split; [reflexivity|].
  apply (mark_renders_step SampleJSON.stringify SampleDOM.toString SampleDOM.escaped
           (MarkStepIncomplete (Some "2")) "2" (tracker [("2", VBool true)])
           (page open_storage 5) sample_view);
    [discriminate | reflexivity | right; reflexivity].
Defined.

Lemma click_keeps_markers_witness :
  stepElements sample_view !! 1%nat = Some {| data_step := "2"; completed := true |} /\
  let '(_, _, view') :=
    Page.handleStepClick SampleJSON.stringify SampleDOM.toString SampleDOM.escaped
      "3" (tracker []) (page open_storage 5) sample_view in
  length (stepElements view') = length (stepElements sample_view) /\
  exists e', stepElements view' !! 1%nat = Some e' /\ data_step e' = "2" /\
             (true = true -> completed e' = true).
Proof.
  split; [reflexivity|].
  apply (click_keeps_markers SampleJSON.stringify SampleDOM.toString SampleDOM.escaped
           "3" (tracker []) (page open_storage 5) sample_view 1%nat
           {| data_step := "2"; completed := true |}).
  reflexivity.
Defined.

Lemma updateUI_renders_witness :
  let this := tracker [("1", VBool true); ("2", VBool false)] in
  let env := page open_storage 5 in
  forallb selector_safe (Object_keys (progress this)) = true /\
  stepElements (Page.updateUI SampleDOM.toString SampleDOM.escaped this env sample_view)
  = [ {| data_step := "1"; completed := true |};
      {| data_step := "2"; completed := false |};
      {| data_step := "3"; completed := false |};
      {| data_step := "2"; completed := false |} ] /\
  forall i e, stepElements sample_view !! i = Some e ->
    stepElements (Page.updateUI SampleDOM.toString SampleDOM.escaped this env sample_view) !! i =
    Some (if existsb (String.eqb (data_step e)) (Object_keys (progress this))
          then rendered this (stepElements sample_view) i e else e).
Proof.
  cbv zeta. split; [reflexivity|]. split; [vm_compute; reflexivity|].
  destruct (updateUI_renders SampleDOM.toString SampleDOM.escaped
              (tracker [("1", VBool true); ("2", VBool false)]) (page open_storage 5)
              sample_view eq_refl) as [Helements _].
  exact Helements.
Defined.

Lemma theme_after_reload_witness :
  let this := fst (ThemeToggle.constructor SampleJSON.parse (Some sample_button) true
                     sample_document open_storage) in
  ThemeToggle.valid (VStr "light") = true /\
  ThemeToggle.storage this = {| namespace := "theme" |} /\
  (forall text, SampleJSON.stringify (VStr "light") = Normal text ->
                SampleJSON.parse text = Normal (VStr "light")) /\
  let '(_, _, ls') :=
    ThemeToggle.setTheme SampleJSON.stringify (VStr "light") this sample_document
      open_storage in
  let saved := fst (save SampleJSON.stringify (ThemeToggle.storage this) "preference"
                      (VStr "light") open_storage) in
  ThemeToggle.currentTheme
    (fst (ThemeToggle.constructor SampleJSON.parse None false sample_document ls')) =
  if saved then VStr "light"
  else ThemeToggle.currentTheme
         (fst (ThemeToggle.constructor SampleJSON.parse None false sample_document
                 open_storage)).
Proof.
  cbv zeta.
  assert (Hcodec : forall text, SampleJSON.stringify (VStr "light") = Normal text ->
                                SampleJSON.parse text = Normal (VStr "light")).
  { intros text H. vm_compute in H. injection H as <-. vm_compute. reflexivity. }
  split; [reflexivity|]. split; [reflexivity|]. split; [exact Hcodec|].
  apply (theme_after_reload SampleJSON.stringify SampleJSON.parse (VStr "light")
           (fst (ThemeToggle.constructor SampleJSON.parse (Some sample_button) true
                   sample_document open_storage))
           sample_document open_storage None false sample_document);
    [reflexivity | reflexivity | exact Hcodec].
Defined.

Lemma system_theme_once_witness :
  let this := fst (ThemeToggle.constructor SampleJSON.parse (Some sample_button) true
                     sample_document open_storage) in
  (forall text, SampleJSON.stringify (VStr "light") = Normal text ->
                SampleJSON.parse text = Normal (VStr "light")) /\
  truthy (load SampleJSON.parse (ThemeToggle.storage this) "preference" VNull open_storage)
  = false /\
  fst (save SampleJSON.stringify (ThemeToggle.storage this) "preference" (VStr "light")
         open_storage) = true /\
  let '(this1, doc1, ls1) :=
    ThemeToggle.handleSystemThemeChange SampleJSON.stringify SampleJSON.parse false
      this sample_document open_storage in
  ThemeToggle.currentTheme this1 = VStr "light" /\
  forall matches',
    ThemeToggle.handleSystemThemeChange SampleJSON.stringify SampleJSON.parse matches'
      this1 doc1 ls1 = (this1, doc1, ls1).
Proof.
  cbv zeta.
  assert (Hcodec : forall text, SampleJSON.stringify (VStr "light") = Normal text ->
                                SampleJSON.parse text = Normal (VStr "light")).
  { intros text H. vm_compute in H. injection H as <-. vm_compute. reflexivity. }
  split; [exact Hcodec|]. split; [vm_compute; reflexivity|].
  split; [vm_compute; reflexivity|].
  pose proof (system_theme_once SampleJSON.stringify SampleJSON.parse false
                (fst (ThemeToggle.constructor SampleJSON.parse (Some sample_button) true
                        sample_document open_storage))
                sample_document open_storage Hcodec) as H.
  destruct (ThemeToggle.handleSystemThemeChange _ _ _ _ _ _) as [[this1 doc1] ls1].
  destruct H as [_ H]. destruct H as [Htheme Honce]; [vm_compute; reflexivity|].
  split; [exact Htheme|]. apply Honce. vm_compute; reflexivity.
Defined.
